(** * Pagetalk [js/ui.js]: UI update and DOM manipulation functions

    A shallow embedding of [src/js/ui.js].  The functions of that file are
    DOM glue: they read and write elements of the host page, register event
    listeners and schedule timers.  The page is modelled as a heap of nodes
    addressed by identity (a JS object reference becomes a key of the heap),
    so that two references to one element alias, as they do in the browser.
    Functions of the file become computations in a small state-and-exception
    monad over that heap. *)

From Stdlib Require Import QArith.
From stdpp Require Import gmap strings list fin_maps pretty.
Close Scope Q_scope.

(** ** Strings *)

(** ASCII whitespace, the separator of the tokens of a [class] attribute. *)
Definition is_ws (a : Ascii.ascii) : bool :=
  let n := Ascii.nat_of_ascii a in
  (n =? 32) || (n =? 9) || (n =? 10) || (n =? 12) || (n =? 13).

Fixpoint tokens_aux (cur s : string) : list string :=
  match s with
  | EmptyString => if decide (cur = "") then [] else [cur]
  | String a s' =>
      if is_ws a
      then (if decide (cur = "") then tokens_aux "" s' else cur :: tokens_aux "" s')
      else tokens_aux (cur +:+ String a "") s'
  end.

Definition tokens (s : string) : list string := tokens_aux "" s.

(** An ordered set of tokens: first occurrences are kept. *)
Definition token_add (c : string) (l : list string) : list string :=
  if decide (c ∈ l) then l else l ++ [c].

Definition token_remove (c : string) (l : list string) : list string :=
  filter (λ x, x ≠ c) l.

Definition token_set (l : list string) : list string :=
  foldl (λ acc c, token_add c acc) [] l.

(** The double quote character, as a string, and a quoted string. *)
Definition dq : string := String (Ascii.ascii_of_nat 34) "".
Definition quoted (s : string) : string := dq +:+ s +:+ dq.

(** JS truthiness of a string: every string but the empty one. *)
Definition truthy (s : string) : bool := negb (String.eqb s "").

(** ASCII lower case, for the matches that HTML makes without regard to
    the case of the letters A to Z. *)
Definition ascii_lower (a : Ascii.ascii) : Ascii.ascii :=
  let n := Ascii.nat_of_ascii a in
  if (65 <=? n) && (n <=? 90) then Ascii.ascii_of_nat (n + 32) else a.

Fixpoint lower (s : string) : string :=
  match s with
  | EmptyString => EmptyString
  | String a s' => String (ascii_lower a) (lower s')
  end.

(** The names every plain object inherits from [Object.prototype].  Read
    off an object that has no own property of that name, such a name gives
    a function (for [__proto__], the prototype itself), not [undefined]. *)
Definition object_prototype_members : list string :=
  ["constructor"; "__defineGetter__"; "__defineSetter__"; "hasOwnProperty";
   "__lookupGetter__"; "__lookupSetter__"; "isPrototypeOf"; "propertyIsEnumerable";
   "toString"; "valueOf"; "__proto__"; "toLocaleString"].

(** What [translations[key] || key] evaluates to, on an object whose own
    properties are strings: a string, or the member of [Object.prototype]
    that the lookup found. *)
Inductive translation :=
  | TrString (s : string)
  | TrMember (name : string).

(** ** The DOM heap *)

(** The [elements] object the caller passes around: references into the
    page, looked up once by the controller.  A missing element is [None]. *)
Record Elements := mkElements {
  tabs : list nat;
  tabContents : list nat;
  settingsNavBtns : list nat;
  settingsSubContents : list nat;
  chatMessages : option nat;
  connectionStatus : option nat;
  connectionIndicator : option nat;
  contextStatus : option nat;
  userInput : option nat;
  sendMessage : option nat;
  toggleApiKey : option nat;
  apiKeyInput : option nat;
  chatStatusMessage : option nat
}.

Global Instance Elements_eq_dec : EqDecision Elements.
Proof. solve_decision. Defined.

(** Function objects that the file hands to [addEventListener].  A function
    received from the caller is known by its identity only; each closure the
    file creates is a fresh function object recorded with what it captured. *)
Inductive callback :=
  | CbExternal (h : nat)
  | CbResizeOnInput (elements : Elements)
  | CbResizeOnPaste (elements : Elements)
  | CbShowFullSizeImage (img : nat) (elements : Elements)
  | CbCopyCode (block copyButton : nat) (copyCodeToClipboardCallback : nat)
  | CbCopyMessage (messageElement : nat) (content : string) (copyButton : nat)
      (copyMessageContentCallback : nat)
  | CbRegenerate (messageId : string) (regenerateMessageCallback : nat)
  | CbDelete (messageId : string) (deleteMessageCallback : nat).

Global Instance callback_eq_dec : EqDecision callback.
Proof. solve_decision. Defined.

(** A child of an element: another element of the heap, or a text node. *)
Inductive child :=
  | CNode (n : nat)
  | CText (s : string).

Global Instance child_eq_dec : EqDecision child.
Proof. solve_decision. Defined.

(** An element.  [classes] is the token set of its [class] attribute (what
    [classList] shows) and [style] its inline style; every other attribute,
    and with it the properties that reflect attributes ([id], [title],
    [type], [dataset.x] for [data-x]), lives in [attrs]. *)
Record Node := mkNode {
  tag : string;
  attrs : gmap string string;
  classes : list string;
  style : gmap string string;
  disabled : bool;
  parent : option nat;
  children : list child;
  listeners : list (string * callback)
}.

Definition new_element (t : string) : Node :=
  mkNode t ∅ [] ∅ false None [] [].

Definition with_attrs (f : gmap string string → gmap string string) (e : Node) : Node :=
  mkNode (tag e) (f (attrs e)) (classes e) (style e) (disabled e) (parent e)
         (children e) (listeners e).
Definition with_classes (f : list string → list string) (e : Node) : Node :=
  mkNode (tag e) (attrs e) (f (classes e)) (style e) (disabled e) (parent e)
         (children e) (listeners e).
Definition with_style (f : gmap string string → gmap string string) (e : Node) : Node :=
  mkNode (tag e) (attrs e) (classes e) (f (style e)) (disabled e) (parent e)
         (children e) (listeners e).
Definition with_disabled (b : bool) (e : Node) : Node :=
  mkNode (tag e) (attrs e) (classes e) (style e) b (parent e)
         (children e) (listeners e).
Definition with_parent (p : option nat) (e : Node) : Node :=
  mkNode (tag e) (attrs e) (classes e) (style e) (disabled e) p
         (children e) (listeners e).
Definition with_children (f : list child → list child) (e : Node) : Node :=
  mkNode (tag e) (attrs e) (classes e) (style e) (disabled e) (parent e)
         (f (children e)) (listeners e).
Definition with_listeners
    (f : list (string * callback) → list (string * callback)) (e : Node) : Node :=
  mkNode (tag e) (attrs e) (classes e) (style e) (disabled e) (parent e)
         (children e) (f (listeners e)).

(** How the interface of an element defines the property [type]. *)
Inductive type_property :=
  | TypeInput       (* [input]: the state of the [type] attribute, found without regard to case *)
  | TypeButton      (* [button]: one of [submit], [reset] and [button] *)
  | TypeReadonly    (* [textarea], [select], [fieldset], [output]: a getter only *)
  | TypeReflected   (* the [type] attribute as it is written, as on [a], [link], [script] *)
  | TypeAbsent.     (* no such property: an assignment makes one on the object *)

(** The function a [setTimeout] call was given, with what it captured. *)
Inductive timer_action :=
  | THideConnectionStatus (elements : Elements) (message : string)
  | THideToast (toast : nat)
  | TResizeTextarea (elements : Elements)
  | TFadeChatStatus (elements : Elements) (message : string)
  | THideChatStatus (elements : Elements) (message : string)
  | TRestoreCopyCode (buttonElement : nat) (originalHTML : string)
  | TRestoreCopyMessage (buttonElement newSVG originalSVGCopy : nat).

(** [window.GeminiAPI], when the page defines it. *)
Record GeminiAPI := mkGeminiAPI { currentAbortController : option nat }.

(** The caller's chat state object; this file touches [isStreaming] only. *)
Record State := mkState { isStreaming : bool }.

(** Everything outside the file that its functions read or write.
    [chat_state] is the object behind the caller's [state] reference,
    [doc_root] the document element, [own_props] the JS properties that were
    assigned on elements whose interface does not define them (element and
    name of the property), [timers] the
    pending [setTimeout] calls (delay in ms, function), [console] what was
    printed, [scrolled] the elements [scrollIntoView] was called on, and
    [uid_calls] how often [generateUniqueId] has been called. *)
Record World := mkWorld {
  chat_state : State;
  nodes : gmap nat Node;
  doc_root : nat;
  doc_body : nat;
  own_props : gmap (nat * string) string;
  timers : list (nat * timer_action);
  gemini : option GeminiAPI;
  console : list string;
  scrolled : list nat;
  uid_calls : nat
}.

Definition with_chat_state (st : State) (w : World) : World :=
  mkWorld st (nodes w) (doc_root w) (doc_body w) (own_props w) (timers w)
          (gemini w) (console w) (scrolled w) (uid_calls w).
Definition with_nodes (f : gmap nat Node → gmap nat Node) (w : World) : World :=
  mkWorld (chat_state w) (f (nodes w)) (doc_root w) (doc_body w) (own_props w) (timers w)
          (gemini w) (console w) (scrolled w) (uid_calls w).
Definition with_own_props
    (f : gmap (nat * string) string → gmap (nat * string) string) (w : World) : World :=
  mkWorld (chat_state w) (nodes w) (doc_root w) (doc_body w) (f (own_props w)) (timers w)
          (gemini w) (console w) (scrolled w) (uid_calls w).
Definition with_timers
    (f : list (nat * timer_action) → list (nat * timer_action)) (w : World) : World :=
  mkWorld (chat_state w) (nodes w) (doc_root w) (doc_body w) (own_props w) (f (timers w))
          (gemini w) (console w) (scrolled w) (uid_calls w).
Definition with_gemini (g : option GeminiAPI) (w : World) : World :=
  mkWorld (chat_state w) (nodes w) (doc_root w) (doc_body w) (own_props w) (timers w)
          g (console w) (scrolled w) (uid_calls w).
Definition with_console (f : list string → list string) (w : World) : World :=
  mkWorld (chat_state w) (nodes w) (doc_root w) (doc_body w) (own_props w) (timers w)
          (gemini w) (f (console w)) (scrolled w) (uid_calls w).
Definition with_scrolled (f : list nat → list nat) (w : World) : World :=
  mkWorld (chat_state w) (nodes w) (doc_root w) (doc_body w) (own_props w) (timers w)
          (gemini w) (console w) (f (scrolled w)) (uid_calls w).
Definition with_uid_calls (n : nat) (w : World) : World :=
  mkWorld (chat_state w) (nodes w) (doc_root w) (doc_body w) (own_props w) (timers w)
          (gemini w) (console w) (scrolled w) n.

(** ** The monad of DOM computations *)

Inductive exn :=
  | TypeError          (* a property of [null] or [undefined] was read *)
  | NotFoundError.     (* [replaceChild] on a node that is not a child *)

Inductive result (A : Type) :=
  | Ok (a : A) (w : World)
  | Throw (e : exn) (w : World).
Arguments Ok {A} a w.
Arguments Throw {A} e w.

Definition M (A : Type) : Type := World → result A.

Definition ret {A} (a : A) : M A := λ w, Ok a w.
Definition bind {A B} (m : M A) (k : A → M B) : M B :=
  λ w, match m w with
       | Ok a w' => k a w'
       | Throw e w' => Throw e w'
       end.
Definition throw {A} (e : exn) : M A := λ w, Throw e w.
Definition get_world : M World := λ w, Ok w w.
Definition modify (f : World → World) : M unit := λ w, Ok tt (f w).

Notation "'do' x <- m ; k" := (bind m (λ x, k))
  (at level 10, x name, m at level 100, k at level 200, only parsing).
Notation "m ;;; k" := (bind m (λ _, k))
  (at level 100, k at level 200, right associativity, only parsing).

(** [list.forEach(f)] *)
Fixpoint forEach {A} (l : list A) (f : A → M unit) : M unit :=
  match l with
  | [] => ret tt
  | x :: l' => f x ;;; forEach l' f
  end.

(** [list.forEach((x, index) => f)] *)
Fixpoint forEach_indexed {A} (i : nat) (l : list A) (f : A → nat → M unit) : M unit :=
  match l with
  | [] => ret tt
  | x :: l' => f x i ;;; forEach_indexed (S i) l' f
  end.

(** Reading an element out of [elements] that must be there: dereferencing
    a missing one raises a [TypeError]. *)
Definition deref (o : option nat) : M nat :=
  match o with
  | Some n => ret n
  | None => throw TypeError
  end.

(** ** DOM primitives on the heap *)

Definition alter_node (f : Node → Node) (n : nat) (w : World) : World :=
  with_nodes (alter f n) w.

Definition node_has_class (e : Node) (c : string) : bool := bool_decide (c ∈ classes e).

Definition has_class (w : World) (n : nat) (c : string) : bool :=
  match nodes w !! n with
  | Some e => node_has_class e c
  | None => false
  end.

Definition get_attr (w : World) (n : nat) (k : string) : option string :=
  e ← nodes w !! n; attrs e !! k.

Definition get_style (w : World) (n : nat) (k : string) : option string :=
  e ← nodes w !! n; style e !! k.

(** [el.classList.toggle(c, force)]: with [force] the token ends up present,
    without it absent; a token set that already agrees is left alone. *)
Definition classList_toggle (n : nat) (c : string) (force : bool) : M unit :=
  modify (alter_node (with_classes (if force then token_add c else token_remove c)) n).

Definition classList_add (n : nat) (c : string) : M unit :=
  modify (alter_node (with_classes (token_add c)) n).

Definition classList_remove (n : nat) (c : string) : M unit :=
  modify (alter_node (with_classes (token_remove c)) n).

(** [el.className = s] *)
Definition set_className (n : nat) (s : string) : M unit :=
  modify (alter_node (with_classes (λ _, token_set (tokens s))) n).

(** [el.setAttribute(k, v)], and the setters of reflecting properties. *)
Definition setAttribute (n : nat) (k v : string) : M unit :=
  modify (alter_node (with_attrs (insert k v)) n).

(** [el.getAttribute(k)] *)
Definition getAttribute (n : nat) (k : string) : M (option string) :=
  λ w, Ok (get_attr w n k) w.

(** [el.dataset.x], the attribute [data-x]; [undefined] when it is absent. *)
Definition dataset (n : nat) (x : string) : M (option string) :=
  getAttribute n ("data-" +:+ x).

Definition set_dataset (n : nat) (x v : string) : M unit :=
  setAttribute n ("data-" +:+ x) v.

(** [el.id]: the [id] attribute, the empty string when there is none. *)
Definition get_id (n : nat) : M string :=
  λ w, Ok (default "" (get_attr w n "id")) w.

(** [el.style.prop = v] *)
Definition set_style (n : nat) (prop v : string) : M unit :=
  modify (alter_node (with_style (insert prop v)) n).

Definition set_disabled (n : nat) (b : bool) : M unit :=
  modify (alter_node (with_disabled b) n).

(** [el.addEventListener(type, cb)]: a listener already registered (same
    type, same function object) is not added again.  [fresh_closure] is
    set for a function expression evaluated at the call, which is a new
    object every time and so never a duplicate. *)
Definition addEventListener (n : nat) (type : string) (cb : callback)
    (fresh_closure : bool) : M unit :=
  modify (alter_node (with_listeners (λ l,
    if fresh_closure then l ++ [(type, cb)]
    else if decide ((type, cb) ∈ l) then l else l ++ [(type, cb)])) n).

(** [el.removeEventListener(type, cb)] *)
Definition removeEventListener (n : nat) (type : string) (cb : callback) : M unit :=
  modify (alter_node (with_listeners (filter (λ x, x ≠ (type, cb)))) n).

(** [setTimeout(f, delay)] *)
Definition setTimeout (action : timer_action) (delay : nat) : M unit :=
  modify (with_timers (λ l, l ++ [(delay, action)])).

(** [el.scrollIntoView({ behavior: 'smooth', block: 'end' })] *)
Definition scrollIntoView (n : nat) : M unit :=
  modify (with_scrolled (λ l, l ++ [n])).

(** [console.log], [console.warn] and [console.error] *)
Definition console_print (s : string) : M unit :=
  modify (with_console (λ l, l ++ [s])).

(** *** Tree structure *)

(** [document.createElement(tag)] and [document.createElementNS(ns, tag)]:
    a new element, attached nowhere, under an identity not yet in use. *)
Definition fresh_id (m : gmap nat Node) : nat := fresh (dom m).

Definition createElement (t : string) : M nat :=
  λ w, let k := fresh_id (nodes w) in
       Ok k (with_nodes (insert k (new_element t)) w).

(** Take [c] out of the child list of its parent, if it has one. *)
Definition detach (c : nat) (m : gmap nat Node) : gmap nat Node :=
  match m !! c with
  | Some e =>
      match parent e with
      | Some p =>
          alter (with_children (filter (λ x, x ≠ CNode c))) p
            (alter (with_parent None) c m)
      | None => m
      end
  | None => m
  end.

(** [p.appendChild(c)] *)
Definition appendChild (p c : nat) : M unit :=
  modify (with_nodes (λ m,
    alter (with_children (λ l, l ++ [CNode c])) p
      (alter (with_parent (Some p)) c (detach c m)))).

(** [el.remove()] *)
Definition remove (n : nat) : M unit := modify (with_nodes (detach n)).

Fixpoint insert_after (ref new : nat) (l : list child) : list child :=
  match l with
  | [] => []
  | x :: l' =>
      if decide (x = CNode ref) then x :: CNode new :: l'
      else x :: insert_after ref new l'
  end.

(** [el.parentNode] *)
Definition parentNode (n : nat) : M (option nat) :=
  λ w, Ok (e ← nodes w !! n; parent e) w.

(** [ref.insertAdjacentElement('afterend', new)]: nothing happens when
    [ref] has no parent. *)
Definition insertAdjacentElement_afterend (ref new : nat) : M unit :=
  modify (with_nodes (λ m,
    match e ← m !! ref; parent e with
    | Some q =>
        alter (with_children (insert_after ref new)) q
          (alter (with_parent (Some q)) new (detach new m))
    | None => m
    end)).

(** [p.replaceChild(new, old)] *)
Definition replaceChild (p new old : nat) : M unit :=
  λ w, match e ← nodes w !! old; parent e with
       | Some q =>
           if decide (q = p) then
             Ok tt
               (with_nodes (λ m,
                  alter (with_parent None) old
                    (alter
                       (with_children
                          (map (λ x, if decide (x = CNode old) then CNode new else x))) p
                       (alter (with_parent (Some p)) new (detach new m)))) w)
           else Throw NotFoundError w
       | None => Throw NotFoundError w
       end.

(** The elements below [n], in document order.  The heap is finite, so its
    size bounds the depth of any tree in it. *)
Fixpoint descendants (fuel : nat) (m : gmap nat Node) (n : nat) : list nat :=
  match fuel with
  | 0 => []
  | S f =>
      match m !! n with
      | Some e =>
          flat_map (λ c, match c with
                         | CNode k => k :: descendants f m k
                         | CText _ => []
                         end) (children e)
      | None => []
      end
  end.

(** The chain of parents of [n], nearest first. *)
Fixpoint ancestors (fuel : nat) (m : gmap nat Node) (n : nat) : list nat :=
  match fuel with
  | 0 => []
  | S f =>
      match e ← m !! n; parent e with
      | Some p => p :: ancestors f m p
      | None => []
      end
  end.

(** [a.contains(b)] *)
Definition contains (a b : nat) : M bool :=
  λ w, Ok (bool_decide (b = a)
           || bool_decide (b ∈ descendants (size (nodes w)) (nodes w) a)) w.

(** [el.textContent], read: the text below the element, concatenated. *)
Fixpoint text_of (fuel : nat) (m : gmap nat Node) (n : nat) : string :=
  match fuel with
  | 0 => ""
  | S f =>
      match m !! n with
      | Some e =>
          String.concat "" (map (λ c, match c with
                                      | CText s => s
                                      | CNode k => text_of f m k
                                      end) (children e))
      | None => ""
      end
  end.

Definition textContent (w : World) (n : nat) : string :=
  text_of (size (nodes w)) (nodes w) n.

Definition get_textContent (n : nat) : M string :=
  λ w, Ok (textContent w n) w.

(** The element children of [n] lose their parent; used by the setters
    that replace all children. *)
Definition orphan_children (n : nat) (m : gmap nat Node) : gmap nat Node :=
  match m !! n with
  | Some e =>
      foldr (λ c m', match c with
                     | CNode k => alter (with_parent None) k m'
                     | CText _ => m'
                     end) m (children e)
  | None => m
  end.

(** [el.textContent = s]: all children are replaced by one text node, or
    by nothing when [s] is empty. *)
Definition set_textContent (n : nat) (s : string) : M unit :=
  modify (with_nodes (λ m,
    alter (with_children (λ _, if decide (s = "") then [] else [CText s])) n
      (orphan_children n m))).

(** *** Selectors *)

(** A compound selector: [tag#id.c1.c2[k="v"]], each part optional. *)
Record compound := mkCompound {
  sel_tag : option string;
  sel_id : option string;
  sel_classes : list string;
  sel_attrs : list (string * string)
}.

(** A selector as the file writes them: compound selectors joined by the
    descendant combinator, the subject last. *)
Definition selector := list compound.

Definition by_class (cs : list string) : compound := mkCompound None None cs [].
Definition by_tag (t : string) : compound := mkCompound (Some t) None [] [].
Definition by_id (i : string) : compound := mkCompound None (Some i) [] [].
Definition by_tag_attr (t k v : string) : compound := mkCompound (Some t) None [] [(k, v)].
Definition by_class_attr (c k v : string) : compound := mkCompound None None [c] [(k, v)].

Definition node_matches (e : Node) (c : compound) : bool :=
  match sel_tag c with Some t => bool_decide (tag e = t) | None => true end
  && match sel_id c with Some i => bool_decide (attrs e !! "id" = Some i) | None => true end
  && forallb (node_has_class e) (sel_classes c)
  && forallb (λ kv, bool_decide (attrs e !! kv.1 = Some kv.2)) (sel_attrs c).

Definition matches_compound (m : gmap nat Node) (n : nat) (c : compound) : bool :=
  match m !! n with
  | Some e => node_matches e c
  | None => false
  end.

(** Are the compounds [cs] (innermost first) matched, in that order, along
    the chain of ancestors [ancs] (nearest first)? *)
Fixpoint match_chain (m : gmap nat Node) (cs : list compound) (ancs : list nat)
    {struct ancs} : bool :=
  match cs with
  | [] => true
  | c :: cs' =>
      match ancs with
      | [] => false
      | a :: ancs' =>
          if matches_compound m a c then match_chain m cs' ancs'
          else match_chain m cs ancs'
      end
  end.

Definition matches (m : gmap nat Node) (sel : selector) (n : nat) : bool :=
  match reverse sel with
  | [] => false
  | c :: outer =>
      matches_compound m n c && match_chain m outer (ancestors (size m) m n)
  end.

(** [el.querySelectorAll(sel)] and [el.querySelector(sel)] *)
Definition querySelectorAll (n : nat) (sel : selector) : M (list nat) :=
  λ w, Ok (filter (λ k, matches (nodes w) sel k = true)
             (descendants (size (nodes w)) (nodes w) n)) w.

Definition querySelector (n : nat) (sel : selector) : M (option nat) :=
  do l <- querySelectorAll n sel; ret (head l).

(** [document.querySelector(sel)]: the document element is a candidate too. *)
Definition document_querySelector (sel : selector) : M (option nat) :=
  λ w, Ok (head (filter (λ k, matches (nodes w) sel k = true)
                   (doc_root w :: descendants (size (nodes w)) (nodes w) (doc_root w)))) w.

(** [document.getElementById(i)] *)
Definition getElementById (i : string) : M (option nat) :=
  document_querySelector [by_id i].

(** [document.documentElement]: [null] in a document without one. *)
Definition documentElement : M (option nat) :=
  λ w, Ok (match nodes w !! doc_root w with
           | Some _ => Some (doc_root w)
           | None => None
           end) w.

(** The namespace of an element.  The heap does not record it: the browser
    knows it (see [namespace_of] below).  It matters where the document
    element and the title of the document are looked up; the elements that
    the functions of this file are handed in [elements] are taken to be
    HTML elements. *)
Inductive namespace := HTML | SVG | OtherNamespace.

#[global] Instance namespace_eq_dec : EqDecision namespace.
Proof. solve_decision. Defined.

(** The child elements of [n], in order. *)
Definition child_elements (w : World) (n : nat) : list nat :=
  omap (λ c, match c with CNode k => Some k | CText _ => None end)
    (match nodes w !! n with Some e => children e | None => [] end).

(** [p.insertBefore(c, p.firstChild)], for a [c] that is attached nowhere. *)
Definition prependChild (p c : nat) : M unit :=
  modify (with_nodes (λ m,
    alter (with_children (λ l, CNode c :: l)) p (alter (with_parent (Some p)) c m))).

(** *** Markup *)

(** A tree of markup, as the HTML parser produces it and the serializer
    reads it.  The [parent] and [children] of the element records inside
    are not used: the tree gives the structure. *)
#[local] Unset Elimination Schemes.
Inductive HTree :=
  | HText (s : string)
  | HElem (e : Node) (kids : list HTree).
#[local] Set Elimination Schemes.

(** Bring parsed markup into the heap under parent [p], at identities not
    yet in use: first the trees of a list, given how to bring in one tree. *)
Definition alloc_list (alloc : option nat → HTree → gmap nat Node → gmap nat Node * child)
    (p : option nat) : list HTree → gmap nat Node → gmap nat Node * list child :=
  fix go (ts : list HTree) (m : gmap nat Node) :=
    match ts with
    | [] => (m, [])
    | t :: ts' =>
        let '(m', c) := alloc p t m in
        let '(m'', cs) := go ts' m' in
        (m'', c :: cs)
    end.

Fixpoint alloc_tree (p : option nat) (t : HTree) (m : gmap nat Node)
    : gmap nat Node * child :=
  match t with
  | HText s => (m, CText s)
  | HElem e kids =>
      let k := fresh_id m in
      let m1 := <[k := with_parent p (with_children (λ _, []) e)]> m in
      let '(m2, cs) := alloc_list alloc_tree (Some k) kids m1 in
      (alter (with_children (λ _, cs)) k m2, CNode k)
  end.

Definition alloc_forest : option nat → list HTree → gmap nat Node → gmap nat Node * list child :=
  alloc_list alloc_tree.

(** Read the trees below a list of children back out of the heap. *)
Fixpoint to_forest (fuel : nat) (m : gmap nat Node) (cs : list child) : list HTree :=
  match fuel with
  | 0 => []
  | S f =>
      flat_map (λ c, match c with
                     | CText s => [HText s]
                     | CNode k =>
                         match m !! k with
                         | Some e => [HElem e (to_forest f m (children e))]
                         | None => []
                         end
                     end) cs
  end.



Definition subtree (w : World) (n : nat) : option HTree :=
  e ← nodes w !! n;
  Some (HElem e (to_forest (size (nodes w)) (nodes w) (children e))).

(** [el.cloneNode(true)]: a copy of the subtree, attached nowhere; event
    listeners are not copied. *)
Fixpoint strip_listeners (t : HTree) : HTree :=
  match t with
  | HText s => HText s
  | HElem e kids => HElem (with_listeners (λ _, []) e) (map strip_listeners kids)
  end.

Definition cloneNode_deep (n : nat) : M nat :=
  λ w, match subtree w n with
       | Some t =>
           match alloc_tree None (strip_listeners t) (nodes w) with
           | (m, CNode k) => Ok k (with_nodes (λ _, m) w)
           | (_, CText _) => Ok n w
           end
       | None => Ok n w
       end.

(** ** Numbers *)

(** A JS number, as far as [resizeTextarea] can tell numbers apart: it
    compares them and takes minima and maxima, which are exact. *)
Inductive jsnum :=
  | NaN
  | NegInf
  | Fin (q : Q)
  | PosInf.

(** [a < b] *)
Definition js_lt (a b : jsnum) : bool :=
  match a, b with
  | NaN, _ | _, NaN => false
  | NegInf, NegInf => false
  | NegInf, _ => true
  | _, NegInf => false
  | PosInf, _ => false
  | _, PosInf => true
  | Fin p, Fin q => negb (Qle_bool q p)
  end.

(** [a <= b] *)
Definition js_le (a b : jsnum) : bool :=
  match a, b with
  | NaN, _ | _, NaN => false
  | NegInf, _ => true
  | _, PosInf => true
  | _, NegInf => false
  | PosInf, _ => false
  | Fin p, Fin q => Qle_bool p q
  end.

(** [Math.max(a, b)] and [Math.min(a, b)] *)
Definition js_max (a b : jsnum) : jsnum :=
  match a, b with
  | NaN, _ | _, NaN => NaN
  | _, _ => if js_lt a b then b else a
  end.

Definition js_min (a b : jsnum) : jsnum :=
  match a, b with
  | NaN, _ | _, NaN => NaN
  | _, _ => if js_lt b a then b else a
  end.

(** [a || d] on numbers: [NaN] and zero are falsy. *)
Definition js_falsy (a : jsnum) : bool :=
  match a with
  | NaN => true
  | Fin q => Qeq_bool q 0
  | _ => false
  end.

Definition js_or (a d : jsnum) : jsnum := if js_falsy a then d else a.

Definition of_Z (z : Z) : jsnum := Fin (inject_Z z).

(** ** The functions of [ui.js] *)

(** An image attached to a user message. *)
Record Image := mkImage { dataUrl : string }.

(** The [options] argument of [addMessageToChat], defaults filled in. *)
Record Options := mkOptions {
  opt_isStreaming : bool;
  opt_images : list Image;
  opt_insertAfterElement : option nat;
  opt_forceScroll : bool
}.

(** The markup [restoreSendButtonAndInput] assigns to the send button (line 456). *)
Definition send_icon_html : string :=
  "
        <svg xmlns=" +:+ quoted "http://www.w3.org/2000/svg" +:+ " width=" +:+ quoted "16" +:+
  " height=" +:+ quoted "16" +:+ " fill=" +:+ quoted "currentColor" +:+ " viewBox=" +:+ quoted "0 0 16 16" +:+
  ">
            <path d=" +:+
  quoted "M15.854.146a.5.5 0 0 1 .11.54l-5.819 14.547a.75.75 0 0 1-1.329.124l-3.178-4.995L.643 7.184a.75.75 0 0 1 .124-1.33L15.314.037a.5.5 0 0 1 .54.11v-.001ZM6.636 10.07l2.761 4.338L14.13 2.576 6.636 10.07Zm6.787-8.201L1.591 6.602l4.339 2.76 7.494-7.493Z" +:+
  "/>
        </svg>
    ".

(** The markup of the copy button (line 601). *)
Definition copy_icon_html : string :=
  "
        <svg viewBox=" +:+ quoted "0 0 24 24" +:+ " width=" +:+ quoted "14" +:+ " height=" +:+ quoted "14" +:+
  " fill=" +:+ quoted "none" +:+ " stroke=" +:+ quoted "currentColor" +:+ " stroke-width=" +:+ quoted "2" +:+
  " stroke-linecap=" +:+ quoted "round" +:+ " stroke-linejoin=" +:+ quoted "round" +:+ ">
            <rect x=" +:+ quoted "9" +:+ " y=" +:+ quoted "9" +:+ " width=" +:+ quoted "13" +:+ " height=" +:+
  quoted "13" +:+ " rx=" +:+ quoted "2" +:+ " ry=" +:+ quoted "2" +:+ "></rect>
            <path d=" +:+ quoted "M5 15H4a2 2 0 0 1-2-2V4a2 2 0 0 1 2-2h9a2 2 0 0 1 2 2v1" +:+
  "></path>
        </svg>
    ".

(** The markup of the regenerate button (line 617). *)
Definition regenerate_icon_html : string :=
  "
        <svg xmlns=" +:+ quoted "http://www.w3.org/2000/svg" +:+ " width=" +:+ quoted "16" +:+
  " height=" +:+ quoted "16" +:+ " fill=" +:+ quoted "currentColor" +:+ " viewBox=" +:+ quoted "0 0 16 16" +:+
  ">
            <path d=" +:+
  quoted "M8 3a5 5 0 1 0 4.546 2.914.5.5 0 0 1 .908-.417A6 6 0 1 1 8 2v1z" +:+ "/>
            <path d=" +:+
  quoted "M8 4.466V.534a.25.25 0 0 1 .41-.192l2.36 1.966c.12.1.12.284 0 .384L8.41 4.658A.25.25 0 0 1 8 4.466z" +:+
  "/>
        </svg>
    ".

(** The markup of the delete button (line 633). *)
Definition delete_icon_html : string :=
  "
        <svg xmlns=" +:+ quoted "http://www.w3.org/2000/svg" +:+ " width=" +:+ quoted "16" +:+
  " height=" +:+ quoted "16" +:+ " fill=" +:+ quoted "currentColor" +:+ " viewBox=" +:+ quoted "0 0 16 16" +:+
  ">
            <path d=" +:+
  quoted "M5.5 5.5A.5.5 0 0 1 6 6v6a.5.5 0 0 1-1 0V6a.5.5 0 0 1 .5-.5zm2.5 0a.5.5 0 0 1 .5.5v6a.5.5 0 0 1-1 0V6a.5.5 0 0 1 .5-.5zm3 .5a.5.5 0 0 0-1 0v6a.5.5 0 0 0 1 0V6z" +:+
  "/>
            <path fill-rule=" +:+ quoted "evenodd" +:+ " d=" +:+
  quoted "M14.5 3a1 1 0 0 1-1 1H13v9a2 2 0 0 1-2 2H5a2 2 0 0 1-2-2V4h-.5a1 1 0 0 1-1-1V2a1 1 0 0 1 1-1H6a1 1 0 0 1 1-1h3.5a1 1 0 0 1 1 1v1zM4.118 4 4 4.059V13a1 1 0 0 0 1 1h6a1 1 0 0 0 1-1V4.059L11.882 4H4.118zM2.5 3V2h11v1h-11z" +:+
  "/>
        </svg>
    ".


Section UI.

#[local] Set Default Proof Using "Type".

(** What the file takes from the browser and from its sibling modules. *)
Variable render : string → string.              (* window.MarkdownRenderer.render *)
Variable parseHTML : string → list HTree.       (* the parser behind [innerHTML = s] *)
Variable serializeHTML : list HTree → string.   (* the serializer behind [innerHTML] *)
Variable innerText_of : HTree → string.         (* [el.innerText], from the rendered subtree *)
Variable escapeHtml : string → string.          (* utils.js *)
Variable generateUniqueId : nat → string.       (* utils.js; the n-th call's answer *)
Variable renderDynamicContent : nat → Elements → M unit.  (* render.js *)
Variable atob : string → option string.         (* [None]: it throws *)
Variable decodeURIComponent : string → option string.     (* [None]: it throws *)
Variable js_replace : string → string → string → string.  (* String.prototype.replace *)
Variable member_text : string → string.         (* String(Object.prototype[name]) *)
Variable other_type_property : string → type_property.    (* [type] on the other elements *)
Variable namespace_of : World → nat → namespace.          (* el.namespaceURI *)
Variable computedStyle : World → nat → string → string.   (* getComputedStyle(el)[prop] *)
Variable layout_scrollHeight : World → nat → Z.            (* el.scrollHeight *)
Variable parseFloat : string → jsnum.
Variable numToString : jsnum → string.          (* Number::toString *)

(** [el.innerHTML = s]: the children are replaced by the parsed markup. *)
Definition set_innerHTML (n : nat) (s : string) : M unit :=
  modify (with_nodes (λ m,
    let '(m', cs) := alloc_forest (Some n) (parseHTML s) (orphan_children n m) in
    alter (with_children (λ _, cs)) n m')).


(** [el.innerText] *)
Definition get_innerText (n : nat) : M string :=
  λ w, Ok (match subtree w n with Some t => innerText_of t | None => "" end) w.

(** Whether [k] is an element with tag [t] in the namespace [ns]. *)
Definition element_is (w : World) (ns : namespace) (t : string) (k : nat) : Prop :=
  (tag <$> nodes w !! k) = Some t ∧ namespace_of w k = ns.

#[local] Instance element_is_dec w ns t k : Decision (element_is w ns t k).
Proof. unfold element_is. apply _. Defined.

(** The title element of a document: its first HTML [title] element in tree
    order. *)
Definition title_element : M (option nat) :=
  λ w, Ok (head (filter (element_is w HTML "title")
                   (doc_root w :: descendants (size (nodes w)) (nodes w) (doc_root w)))) w.

(** The head element: the first HTML [head] child of the document element,
    when that is an HTML [html] element. *)
Definition head_element : M (option nat) :=
  λ w, Ok (if decide (element_is w HTML "html" (doc_root w))
           then head (filter (element_is w HTML "head") (child_elements w (doc_root w)))
           else None) w.

(** The first SVG [title] child of [n]. *)
Definition svg_title_child (n : nat) : M (option nat) :=
  λ w, Ok (head (filter (element_is w SVG "title") (child_elements w n))) w.

(** [el.lang = v]: an HTML element reflects the attribute; on any other
    element the assignment makes a property of the object. *)
Definition set_lang (n : nat) (v : string) : M unit :=
  do w <- get_world;
  if decide (namespace_of w n = HTML) then setAttribute n "lang" v
  else modify (with_own_props (insert (n, "lang") v)).

(** [document.title = s], as the HTML Standard defines the setter.  When
    the document element is an SVG [svg] element, its first SVG [title]
    child is used, or a new [title] element that is put in as its first
    child.  When the document element is an HTML element, the title element
    gets the text; without one, a new [title] element is appended to the
    head element and gets it; without a head element either, nothing
    happens.  In any other document nothing happens.  The text is written
    as [textContent] writes it. *)
Definition set_document_title (s : string) : M unit :=
  do root <- documentElement;
  match root with
  | None => ret tt
  | Some r =>
      do w <- get_world;
      if decide (element_is w SVG "svg" r) then
        do found <- svg_title_child r;
        match found with
        | Some t => set_textContent t s
        | None =>
            do t <- createElement "title";
            prependChild r t ;;;
            set_textContent t s
        end
      else if decide (namespace_of w r = HTML) then
        do found <- title_element;
        do head <- head_element;
        match found, head with
        | Some t, _ => set_textContent t s
        | None, Some h =>
            do t <- createElement "title";
            appendChild h t ;;;
            set_textContent t s
        | None, None => ret tt
        end
      else ret tt
  end.

(** The helper [_(key, replacements, translations)].  [translations[key]]
    is the own property when there is one, and else what the object
    inherits: for a name of [Object.prototype] a function (or object), which
    is truthy and has no [replace] method, so that the first placeholder
    throws a [TypeError] ([None]). *)
Definition translate_value (key : string) (replacements : list (string * string))
    (translations : gmap string string) : option translation :=
  let translation :=
    match translations !! key with
    | Some t => TrString (if truthy t then t else key)
    | None => if decide (key ∈ object_prototype_members) then TrMember key else TrString key
    end in
  foldl (λ translation r,
           match translation with
           | Some (TrString s) => Some (TrString (js_replace s ("{" +:+ r.1 +:+ "}") r.2))
           | _ => None
           end)
        (Some translation) replacements.

(** The string that a translation is in a template literal or as a text. *)
Definition translation_text (t : translation) : string :=
  match t with
  | TrString s => s
  | TrMember name => member_text name
  end.

(** [_] at a key that is no name of [Object.prototype], as every key is
    that the file writes as a literal: there it returns a string, the
    translation of [key], or [key] itself when there is none, with each
    [{placeholder}] replaced ([translate_value_string] below). *)
Definition translate (key : string) (replacements : list (string * string))
    (translations : gmap string string) : string :=
  let translation :=
    match translations !! key with
    | Some t => if truthy t then t else key
    | None => key
    end in
  foldl (λ translation r, js_replace translation ("{" +:+ r.1 +:+ "}") r.2)
        translation replacements.

Definition switchTab (tabId : string) (elements : Elements)
    (switchSettingsSubTab : string → M unit) : M unit :=
  forEach (tabs elements) (λ tab,
    do t <- dataset tab "tab";
    classList_toggle tab "active" (bool_decide (t = Some tabId))) ;;;
  forEach (tabContents elements) (λ content,
    do i <- get_id content;
    classList_toggle content "active" (bool_decide (i = tabId))) ;;;
  if decide (tabId = "settings") then
    do activeSubTab <- document_querySelector [by_class ["settings-nav-btn"; "active"]];
    match activeSubTab with
    | None => switchSettingsSubTab "general"
    | Some _ => ret tt
    end
  else ret tt.

Definition switchSettingsSubTab (subTabId : string) (elements : Elements) : M unit :=
  forEach (settingsNavBtns elements) (λ btn,
    do t <- dataset btn "subtab";
    classList_toggle btn "active" (bool_decide (t = Some subTabId))) ;;;
  forEach (settingsSubContents elements) (λ content,
    do i <- get_id content;
    classList_toggle content "active" (bool_decide (i = "settings-" +:+ subTabId))).

(** [generateUniqueId()] *)
Definition call_generateUniqueId : M string :=
  λ w, Ok (generateUniqueId (uid_calls w)) (with_uid_calls (S (uid_calls w)) w).

(** The insertion step shared by [addMessageToChat] and
    [addThinkingAnimation].  A missing [elements.chatMessages] is [null],
    as is the parent of a detached element. *)
Definition insert_into_chat (insertAfterElement : option nat) (elements : Elements)
    (new : nat) : M unit :=
  do after_ok <-
    match insertAfterElement with
    | Some a => do p <- parentNode a; ret (bool_decide (p = chatMessages elements))
    | None => ret false
    end;
  match insertAfterElement, after_ok with
  | Some a, true => insertAdjacentElement_afterend a new
  | _, _ => do cm <- deref (chatMessages elements); appendChild cm new
  end.

(** The markup of a user message's images, lines 94 to 101. *)
Definition images_html (images : list Image) (currentTranslations : gmap string string)
    : string :=
  "<div class=" +:+ dq +:+ "message-images" +:+ dq +:+ ">"
  +:+ (foldl (λ acc (ii : nat * Image),
         let altText :=
           escapeHtml (translate "imageAlt" [("index", pretty (ii.1 + 1))] currentTranslations) in
         acc +:+ "<img class=" +:+ dq +:+ "message-image" +:+ dq
             +:+ " src=" +:+ dq +:+ escapeHtml (dataUrl ii.2) +:+ dq
             +:+ " alt=" +:+ dq +:+ altText +:+ dq
             +:+ " data-index=" +:+ dq +:+ pretty ii.1 +:+ dq
             +:+ " data-url=" +:+ dq +:+ escapeHtml (dataUrl ii.2) +:+ dq +:+ ">")
       "" (imap (λ i x, (i, x)) images))
  +:+ "</div>".

(** The local [messageHTML] of [addMessageToChat], lines 92 to 107. *)
Definition messageHTML (content : option string) (sender : string) (images : list Image)
    (currentTranslations : gmap string string) : string :=
  let messageHTML := "" in
  let messageHTML :=
    if bool_decide (sender = "user") && (0 <? length images)
    then messageHTML +:+ images_html images currentTranslations
    else messageHTML in
  match content with
  | Some c => if truthy c then messageHTML +:+ render c else messageHTML
  | None => messageHTML
  end.

Definition addMessageToChat (content : option string) (sender : string)
    (options : Options) (elements : Elements) (currentTranslations : gmap string string)
    (addCopyButtonToCodeBlock : nat → M unit)
    (addMessageActionButtons : nat → string → M unit)
    (isUserNearBottom : bool) : M nat :=
  let images := opt_images options in
  do messageElement <- createElement "div";
  classList_add messageElement "message" ;;;
  classList_add messageElement (sender +:+ "-message") ;;;
  do messageId <- call_generateUniqueId;
  set_dataset messageElement "message-id" messageId ;;;
  insert_into_chat (opt_insertAfterElement options) elements messageElement ;;;
  if opt_isStreaming options then ret messageElement
  else
    set_innerHTML messageElement (messageHTML content sender images currentTranslations) ;;;
    (if bool_decide (sender = "user") && (0 <? length images) then
       do imgs <- querySelectorAll messageElement [by_class ["message-image"]];
       forEach imgs (λ img, addEventListener img "click" (CbShowFullSizeImage img elements) true)
     else ret tt) ;;;
    do codeBlocks <- querySelectorAll messageElement [by_class ["code-block"]];
    forEach codeBlocks addCopyButtonToCodeBlock ;;;
    addMessageActionButtons messageElement (default "" content) ;;;
    renderDynamicContent messageElement elements ;;;
    (if opt_forceScroll options || isUserNearBottom
     then scrollIntoView messageElement else ret tt) ;;;
    ret messageElement.

Definition updateStreamingMessage (messageElement : nat) (content : string)
    (isUserNearBottom : bool) (elements : Elements) : M unit :=
  let formattedContent := render content in
  do streamingCursor <- createElement "span";
  set_className streamingCursor "streaming-cursor" ;;;
  do messageActions <- querySelector messageElement [by_class ["message-actions"]];
  set_innerHTML messageElement formattedContent ;;;
  match messageActions with
  | Some a => appendChild messageElement a
  | None => ret tt
  end ;;;
  appendChild messageElement streamingCursor ;;;
  if isUserNearBottom then scrollIntoView messageElement else ret tt.

Definition finalizeBotMessage (messageElement : nat) (finalContent : string)
    (addCopyButtonToCodeBlock : nat → M unit)
    (addMessageActionButtons : nat → string → M unit)
    (restoreSendButtonAndInput : M unit)
    (isUserNearBottom : bool) (elements : Elements) : M unit :=
  do streamingCursor <- querySelector messageElement [by_class ["streaming-cursor"]];
  match streamingCursor with
  | Some c => remove c
  | None => ret tt
  end ;;;
  set_innerHTML messageElement (render finalContent) ;;;
  do codeBlocks <- querySelectorAll messageElement [by_class ["code-block"]];
  forEach codeBlocks addCopyButtonToCodeBlock ;;;
  addMessageActionButtons messageElement finalContent ;;;
  renderDynamicContent messageElement elements ;;;
  (if isUserNearBottom then scrollIntoView messageElement else ret tt) ;;;
  restoreSendButtonAndInput.

Definition addThinkingAnimation (insertAfterElement : option nat) (elements : Elements)
    (isUserNearBottom : bool) : M nat :=
  do thinkingElement <- createElement "div";
  classList_add thinkingElement "message" ;;;
  classList_add thinkingElement "bot-message" ;;;
  classList_add thinkingElement "thinking" ;;;
  do thinkingDots <- createElement "div";
  classList_add thinkingDots "thinking-dots" ;;;
  forEach (seq 0 3) (λ _, do dot <- createElement "span"; appendChild thinkingDots dot) ;;;
  appendChild thinkingElement thinkingDots ;;;
  insert_into_chat insertAfterElement elements thinkingElement ;;;
  (if isUserNearBottom then scrollIntoView thinkingElement else ret tt) ;;;
  ret thinkingElement.

Definition showConnectionStatus (message type : string) (elements : Elements) : M unit :=
  match connectionStatus elements with
  | None => ret tt
  | Some status =>
      set_textContent status message ;;;
      set_className status ("connection-status " +:+ type) ;;;
      set_style status "display" "block" ;;;
      if decide (type = "success")
      then setTimeout (THideConnectionStatus elements message) 3000
      else ret tt
  end.

Definition updateConnectionIndicator (isConnected : bool) (elements : Elements)
    (currentTranslations : gmap string string) : M unit :=
  match connectionIndicator elements with
  | None => ret tt
  | Some indicator =>
      set_className indicator (if isConnected then "connected" else "disconnected") ;;;
      set_textContent indicator
        (if isConnected
         then translate "connectionIndicatorConnected" [] currentTranslations
         else translate "connectionIndicatorDisconnected" [] currentTranslations)
  end.

Definition updateContextStatus (contextStatusKey : string)
    (replacements : list (string * string)) (elements : Elements)
    (currentTranslations : gmap string string) : M unit :=
  match contextStatus elements with
  | None => ret tt
  | Some status =>
      let prefix := translate "contextStatusPrefix" [] currentTranslations in
      match translate_value contextStatusKey replacements currentTranslations with
      | Some statusText =>
          set_textContent status (prefix +:+ " " +:+ translation_text statusText)
      | None => throw TypeError
      end
  end.

Definition showToast (message type : string) : M unit :=
  do found <- document_querySelector [by_class ["toast"]];
  do toast <-
    match found with
    | Some t => ret t
    | None =>
        do t <- createElement "div";
        set_className t "toast" ;;;
        do w <- get_world;
        appendChild (doc_body w) t ;;;
        ret t
    end;
  set_textContent toast message ;;;
  set_className toast ("toast " +:+ type) ;;;
  classList_add toast "show" ;;;
  setTimeout (THideToast toast) 2000.

(** [paddingY] and [borderY] of the source are computed and never used. *)
Definition resizeTextarea (elements : Elements) : M unit :=
  match userInput elements with
  | None => ret tt
  | Some textarea =>
      set_style textarea "height" "auto" ;;;
      do w <- get_world;
      let scrollHeight := of_Z (layout_scrollHeight w textarea) in
      let minHeight := js_or (parseFloat (computedStyle w textarea "minHeight")) (of_Z 32) in
      let maxHeight := js_or (parseFloat (computedStyle w textarea "maxHeight")) (of_Z 160) in
      let newHeight := scrollHeight in
      let newHeight := js_max minHeight newHeight in
      let newHeight := js_min newHeight maxHeight in
      set_style textarea "height" (numToString newHeight +:+ "px") ;;;
      set_style textarea "overflowY"
        (if js_lt maxHeight scrollHeight then "scroll" else "hidden")
  end.

Definition setupAutoresizeTextarea (elements : Elements) : M unit :=
  match userInput elements with
  | None => ret tt
  | Some textarea =>
      addEventListener textarea "input" (CbResizeOnInput elements) true ;;;
      addEventListener textarea "paste" (CbResizeOnPaste elements) true ;;;
      setTimeout (TResizeTextarea elements) 0
  end.

Definition updateUIElementsWithTranslations
    (currentTranslations : option (gmap string string)) : M unit :=
  match currentTranslations with
  | None => console_print "No translations loaded, UI update skipped."
  | Some translations =>
      if decide (size translations = 0)
      then console_print "No translations loaded, UI update skipped."
      else
        let _tr key := translate key [] translations in
        let setText (sel : selector) (key : string) : M unit :=
          do el <- document_querySelector sel;
          match el with Some e => set_textContent e (_tr key) | None => ret tt end in
        let setAttr (sel : selector) (attr key : string) : M unit :=
          do el <- document_querySelector sel;
          match el with Some e => setAttribute e attr (_tr key) | None => ret tt end in
        let setPlaceholder sel key := setAttr sel "placeholder" key in
        let setTitle sel key := setAttr sel "title" key in
        (do root <- documentElement;
         do r <- deref root;
         set_lang r (_tr "htmlLang")) ;;;
        set_document_title (_tr "pageTitle") ;;;
        setText [by_tag_attr "label" "for" "chat-model-selection"] "modelLabel" ;;;
        setAttr [by_id "chat-model-selection"] "aria-label" "modelSelectLabel" ;;;
        setText [by_tag_attr "label" "for" "chat-agent-selection"] "agentLabel" ;;;
        setAttr [by_id "chat-agent-selection"] "aria-label" "agentSelectLabel" ;;;
        setTitle [by_id "clear-context"] "clearContextTitle" ;;;
        setTitle [by_id "close-panel"] "closePanelTitle" ;;;
        setAttr [by_id "modal-image"] "alt" "imagePreviewAltTranslated" ;;;
        setTitle [by_id "upload-image"] "uploadImageTitle" ;;;
        setPlaceholder [by_id "user-input"] "userInputPlaceholder" ;;;
        setTitle [by_id "send-message"] "sendMessageTitle" ;;;
        setText [by_class_attr "footer-tab" "data-tab" "chat"] "chatTab" ;;;
        setText [by_class_attr "footer-tab" "data-tab" "settings"] "settingsTab" ;;;
        setText [by_class_attr "settings-nav-btn" "data-subtab" "general"] "generalSettingsNav" ;;;
        setText [by_class_attr "settings-nav-btn" "data-subtab" "agent"] "agentSettingsNav" ;;;
        setText [by_class_attr "settings-nav-btn" "data-subtab" "model"] "modelSettingsNav" ;;;
        setTitle [by_id "close-panel-settings"] "closePanelTitle" ;;;
        setText [by_id "settings-general"; by_tag "h2"] "generalSettingsHeading" ;;;
        setText [by_tag_attr "label" "for" "language-select"] "languageLabel" ;;;
        setText [by_tag_attr "label" "for" "export-format"] "exportChatLabel" ;;;
        setText [by_id "export-format"; by_tag_attr "option" "value" "markdown"]
                "exportFormatMarkdown" ;;;
        setText [by_id "export-format"; by_tag_attr "option" "value" "text"]
                "exportFormatText" ;;;
        setText [by_id "export-chat-history"] "exportButton" ;;;
        setText [by_id "settings-agent"; by_tag "h2"] "agentSettingsHeading" ;;;
        setText [by_class ["agents-list-header"]; by_tag "h3"] "agentsListHeading" ;;;
        setTitle [by_id "add-new-agent"] "addNewAgentTitle" ;;;
        setTitle [by_id "import-agents"] "importAgentConfigTitle" ;;;
        setTitle [by_id "export-agents"] "exportAgentConfigTitle" ;;;
        setText [by_id "delete-confirm-dialog"; by_tag "h3"] "deleteConfirmHeading" ;;;
        setText [by_id "cancel-delete"] "cancel" ;;;
        setText [by_id "confirm-delete"] "delete" ;;;
        setText [by_id "settings-model"; by_tag "h2"] "modelSettingsHeading" ;;;
        setText [by_tag_attr "label" "for" "api-key"] "apiKeyLabel" ;;;
        setPlaceholder [by_id "api-key"] "apiKeyPlaceholder" ;;;
        setTitle [by_id "toggle-api-key"] "toggleApiKeyVisibilityTitleTranslated" ;;;
        setText [by_tag_attr "label" "for" "model-selection"] "modelSelectLabelSettings" ;;;
        setText [by_id "save-model-settings"] "save" ;;;
        setTitle [by_id "theme-toggle-btn"] "themeToggleTitle"
  end.

(** The [state] argument of the source is the reference to the one chat
    state object, [chat_state] of the world. *)
Definition restoreSendButtonAndInput (elements : Elements)
    (currentTranslations : gmap string string)
    (sendUserMessageCallback abortStreamingCallback : callback) : M unit :=
  do w <- get_world;
  if negb (isStreaming (chat_state w)) then ret tt
  else
    console_print "Restoring send button and input state..." ;;;
    modify (with_chat_state (mkState false)) ;;;
    do send <- deref (sendMessage elements);
    classList_remove send "stop-streaming" ;;;
    setAttribute send "title" (translate "sendMessageTitle" [] currentTranslations) ;;;
    set_innerHTML send send_icon_html ;;;
    removeEventListener send "click" abortStreamingCallback ;;;
    addEventListener send "click" sendUserMessageCallback false ;;;
    do w <- get_world;
    match gemini w with
    | Some api =>
        match currentAbortController api with
        | Some _ => modify (with_gemini (Some (mkGeminiAPI None)))
        | None => ret tt
        end
    | None => ret tt
    end.

(** The interface of an HTML element, by its tag. *)
Definition type_property_of (t : string) : type_property :=
  if decide (t = "input") then TypeInput
  else if decide (t = "button") then TypeButton
  else if decide (t ∈ ["textarea"; "select"; "fieldset"; "output"]) then TypeReadonly
  else other_type_property t.

(** [el.type === 'password'] *)
Definition type_is_password (n : nat) : M bool :=
  λ w, Ok (match nodes w !! n with
           | Some e =>
               match type_property_of (tag e) with
               | TypeInput => bool_decide (lower <$> attrs e !! "type" = Some "password")
               | TypeButton | TypeReadonly => false
               | TypeReflected => bool_decide (attrs e !! "type" = Some "password")
               | TypeAbsent => bool_decide (own_props w !! (n, "type") = Some "password")
               end
           | None => false
           end) w.

(** [el.type = v].  The file is a module, hence strict code, in which an
    assignment to a property that has a getter only throws. *)
Definition set_type (n : nat) (v : string) : M unit :=
  λ w, match nodes w !! n with
       | Some e =>
           match type_property_of (tag e) with
           | TypeInput | TypeButton | TypeReflected => setAttribute n "type" v w
           | TypeReadonly => Throw TypeError w
           | TypeAbsent => Ok tt (with_own_props (insert (n, "type") v) w)
           end
       | None => Ok tt w
       end.

Definition toggleApiKeyVisibility (elements : Elements) : M unit :=
  match toggleApiKey elements, apiKeyInput elements with
  | Some _, Some input =>
      do isPassword <- type_is_password input;
      let type := if isPassword then "text" else "password" in
      set_type input type ;;;
      do eyeIcon <- getElementById "eye-icon";
      do eyeSlashIcon <- getElementById "eye-slash-icon";
      match eyeIcon, eyeSlashIcon with
      | Some eye, Some slash =>
          set_style eye "display"
            (if decide (type = "text") then "none" else "inline-block") ;;;
          set_style slash "display"
            (if decide (type = "text") then "inline-block" else "none")
      | _, _ => ret tt
      end
  | _, _ => ret tt
  end.

Definition showChatStatusMessage (message type : string) (elements : Elements) : M unit :=
  match chatStatusMessage elements with
  | None => ret tt
  | Some status =>
      set_textContent status message ;;;
      set_className status ("chat-status " +:+ type) ;;;
      set_style status "display" "block" ;;;
      set_style status "opacity" "1" ;;;
      set_style status "transform" "translateY(0)" ;;;
      if decide (type = "success")
      then setTimeout (TFadeChatStatus elements message) 2000
      else ret tt
  end.

Definition addCopyButtonToCodeBlock (block : nat)
    (currentTranslations : gmap string string)
    (copyCodeToClipboardCallback : nat) : M unit :=
  do existing <- querySelector block [by_class ["code-copy-button"]];
  match existing with
  | Some _ => ret tt
  | None =>
      do copyButton <- createElement "button";
      classList_add copyButton "code-copy-button" ;;;
      setAttribute copyButton "title" (translate "copyCode" [] currentTranslations) ;;;
      do svg <- createElement "svg";
      setAttribute svg "viewBox" "0 0 24 24" ;;;
      setAttribute svg "width" "14" ;;;
      setAttribute svg "height" "14" ;;;
      setAttribute svg "fill" "none" ;;;
      setAttribute svg "stroke" "currentColor" ;;;
      setAttribute svg "stroke-width" "2" ;;;
      do rectElement <- createElement "rect";
      setAttribute rectElement "x" "9" ;;; setAttribute rectElement "y" "9" ;;;
      setAttribute rectElement "width" "13" ;;; setAttribute rectElement "height" "13" ;;;
      setAttribute rectElement "rx" "2" ;;; setAttribute rectElement "ry" "2" ;;;
      do pathElement <- createElement "path";
      setAttribute pathElement "d"
        "M5 15H4a2 2 0 0 1-2-2V4a2 2 0 0 1 2-2h9a2 2 0 0 1 2 2v1" ;;;
      appendChild svg rectElement ;;;
      appendChild svg pathElement ;;;
      appendChild copyButton svg ;;;
      addEventListener copyButton "click"
        (CbCopyCode block copyButton copyCodeToClipboardCallback) true ;;;
      appendChild block copyButton
  end.

(** The fallback text of the click handler:
    [block.querySelector('code')?.innerText || ''] *)
Definition visible_code_text (block : nat) : M string :=
  do code <- querySelector block [by_tag "code"];
  match code with
  | Some c => do t <- get_innerText c; ret (if truthy t then t else "")
  | None => ret ""
  end.

(** The click listener of the copy button, lines 554 to 570.  The
    [try]/[catch] is the match on the two decoders, which throw by
    answering [None]. *)
Definition copyCode_click (block copyButton : nat)
    (copyCodeToClipboardCallback : string → nat → M unit) : M unit :=
  do encodedCode <- getAttribute block "data-code";
  do codeToCopy <-
    match encodedCode with
    | Some enc =>
        if truthy enc then
          match atob enc ≫= decodeURIComponent with
          | Some code => ret code
          | None =>
              console_print "Error decoding base64 code:" ;;;
              visible_code_text block
          end
        else
          console_print "Code block missing data-code attribute." ;;;
          visible_code_text block
    | None =>
        console_print "Code block missing data-code attribute." ;;;
        visible_code_text block
    end;
  copyCodeToClipboardCallback codeToCopy copyButton.

Definition addMessageActionButtons (messageElement : nat) (content : string)
    (currentTranslations : gmap string string)
    (copyMessageContentCallback regenerateMessageCallback deleteMessageCallback : nat)
    : M unit :=
  do messageId <- dataset messageElement "message-id";
  match messageId with
  | None => ret tt
  | Some messageId =>
      if negb (truthy messageId) then ret tt
      else
        do existing <- querySelector messageElement [by_class ["message-actions"]];
        match existing with
        | Some _ => ret tt
        | None =>
            do messageActions <- createElement "div";
            set_className messageActions "message-actions" ;;;
            do copyButton <- createElement "button";
            classList_add copyButton "copy-button" ;;;
            setAttribute copyButton "title" (translate "copyAll" [] currentTranslations) ;;;
            set_innerHTML copyButton copy_icon_html ;;;
            addEventListener copyButton "click"
              (CbCopyMessage messageElement content copyButton copyMessageContentCallback)
              true ;;;
            do regenerateButton <- createElement "button";
            set_className regenerateButton "message-action-btn regenerate-btn" ;;;
            setAttribute regenerateButton "title"
              (translate "regenerate" [] currentTranslations) ;;;
            set_innerHTML regenerateButton regenerate_icon_html ;;;
            addEventListener regenerateButton "click"
              (CbRegenerate messageId regenerateMessageCallback) true ;;;
            do deleteButton <- createElement "button";
            set_className deleteButton "message-action-btn delete-btn" ;;;
            setAttribute deleteButton "title"
              (translate "deleteMessage" [] currentTranslations) ;;;
            set_innerHTML deleteButton delete_icon_html ;;;
            addEventListener deleteButton "click"
              (CbDelete messageId deleteMessageCallback) true ;;;
            forEach [copyButton; regenerateButton; deleteButton]
              (λ button, appendChild messageActions button) ;;;
            appendChild messageElement messageActions
        end
  end.



(** What runs when a timer fires: the body of the function that was
    given to [setTimeout]. *)
Definition fire_timer (action : timer_action) : M unit :=
  match action with
  | THideConnectionStatus elements message =>
      do status <- deref (connectionStatus elements);
      do text <- get_textContent status;
      if decide (text = message) then set_style status "display" "none" else ret tt
  | THideToast toast => classList_remove toast "show"
  | TResizeTextarea elements => resizeTextarea elements
  | TFadeChatStatus elements message =>
      do status <- deref (chatStatusMessage elements);
      set_style status "opacity" "0" ;;;
      set_style status "transform" "translateY(5px)" ;;;
      setTimeout (THideChatStatus elements message) 300
  | THideChatStatus elements message =>
      do status <- deref (chatStatusMessage elements);
      do text <- get_textContent status;
      if decide (text = message) then set_style status "display" "none" else ret tt
  | TRestoreCopyCode buttonElement originalHTML =>
      set_innerHTML buttonElement originalHTML ;;;
      set_disabled buttonElement false
  | TRestoreCopyMessage buttonElement newSVG originalSVGCopy =>
      do inside <- contains buttonElement newSVG;
      (if inside then replaceChild buttonElement originalSVGCopy newSVG else ret tt) ;;;
      set_disabled buttonElement false
  end.

(** The listeners the file registers on the input box. *)
Definition resizeOnInput (elements : Elements) : M unit := resizeTextarea elements.

(** ** Properties *)

(** *** Numbers *)

Definition is_nan (a : jsnum) : bool :=
  match a with NaN => true | _ => false end.

Lemma js_or_not_nan a d : is_nan d = false → is_nan (js_or a d) = false.
Proof. unfold js_or. destruct a as [| |p|]; simpl; try done. by destruct (Qeq_bool p 0). Qed.

Lemma js_le_refl a : is_nan a = false → js_le a a = true.
Proof.
  destruct a; simpl; try done. intros _. apply Qle_bool_iff, Qle_refl.
Qed.

Lemma js_lt_true_le a b : js_lt a b = true → js_le a b = true.
Proof.
  destruct a as [| |p|], b as [| |q|]; simpl; try done.
  rewrite negb_true_iff. intros H. apply Qle_bool_iff.
  destruct (Qlt_le_dec p q) as [Hlt|Hle].
  - by apply Qlt_le_weak.
  - apply Qle_bool_iff in Hle. congruence.
Qed.

Lemma js_lt_false_le a b :
  is_nan a = false → is_nan b = false → js_lt a b = false → js_le b a = true.
Proof.
  destruct a, b; simpl; try done. intros _ _. by rewrite negb_false_iff.
Qed.

Lemma js_max_not_nan a b :
  is_nan a = false → is_nan b = false → is_nan (js_max a b) = false.
Proof. destruct a, b; simpl; try done; by destruct (negb _). Qed.

(** The clamp of [resizeTextarea] stays within its bounds. *)
Lemma js_clamp_bounds lo x hi :
  is_nan lo = false → is_nan x = false → is_nan hi = false →
  js_le lo hi = true →
  js_le lo (js_min (js_max lo x) hi) = true ∧ js_le (js_min (js_max lo x) hi) hi = true.
Proof.
  intros Hlo Hx Hhi Hle.
  assert (Hm : is_nan (js_max lo x) = false) by by apply js_max_not_nan.
  assert (Hlom : js_le lo (js_max lo x) = true).
  { unfold js_max. destruct lo, x; try done; simpl.
    all: try (destruct (negb _) eqn:E; [by apply (js_lt_true_le (Fin _) (Fin _))
                                       | by apply (js_le_refl (Fin _))]).
    all: apply Qle_bool_iff, Qle_refl. }
  assert (Hmin : js_min (js_max lo x) hi =
                 if js_lt hi (js_max lo x) then hi else js_max lo x).
  { unfold js_min. destruct (js_max lo x), hi; done. }
  rewrite Hmin. destruct (js_lt hi (js_max lo x)) eqn:E.
  - split; [done | by apply js_le_refl].
  - split; [done | by apply js_lt_false_le].
Qed.

(** *** The heap *)

Lemma fresh_id_None (m : gmap nat Node) : m !! fresh_id m = None.
Proof. unfold fresh_id. apply not_elem_of_dom. apply is_fresh. Qed.

Lemma fresh_id_ne (m : gmap nat Node) n : is_Some (m !! n) → n ≠ fresh_id m.
Proof. intros [e He] ->. by rewrite fresh_id_None in He. Qed.

Lemma get_style_set (w : World) n k v :
  is_Some (nodes w !! n) →
  get_style (alter_node (with_style (insert k v)) n w) n k = Some v.
Proof.
  intros [e He]. unfold get_style. simpl. rewrite lookup_alter_eq, He. simpl.
  apply lookup_insert_eq.
Qed.

Lemma get_style_set_ne (w : World) n n' k k' v :
  k ≠ k' →
  get_style (alter_node (with_style (insert k v)) n w) n' k' = get_style w n' k'.
Proof.
  intros Hk. unfold get_style. simpl. rewrite lookup_alter.
  case_decide as E; [subst n'|done].
  destruct (nodes w !! n); simpl; [|done]. by rewrite lookup_insert_ne.
Qed.

Lemma alter_is_Some (f : Node → Node) n n' (m : gmap nat Node) :
  is_Some (alter f n m !! n') ↔ is_Some (m !! n').
Proof.
  rewrite lookup_alter. case_decide; [subst|done]. by rewrite fmap_is_Some.
Qed.

Lemma alter_node_is_Some f n n' (w : World) :
  is_Some (nodes (alter_node f n w) !! n') ↔ is_Some (nodes w !! n').
Proof.
  simpl. rewrite lookup_alter. case_decide; [subst|done].
  by rewrite fmap_is_Some.
Qed.

(** *** [resizeTextarea] *)

(** C8.  Whatever the state of the text box, [resizeTextarea] sets its
    height to [N + 'px'] with [N = min(max(scrollHeight, minHeight), maxHeight)],
    where [minHeight] is the parsed CSS min-height, or 32 when that is [NaN]
    or zero, and [maxHeight] the parsed CSS max-height, or 160 likewise; it
    sets [overflowY] to ['scroll'] exactly when [scrollHeight > maxHeight]
    and to ['hidden'] otherwise; and [minHeight <= N <= maxHeight] whenever
    [minHeight <= maxHeight]. *)
Theorem resizeTextarea_clamps (elements : Elements) (textarea : nat) (w : World) :
  userInput elements = Some textarea →
  is_Some (nodes w !! textarea) →
  let w0 := alter_node (with_style (insert "height" "auto")) textarea w in
  let scrollHeight := of_Z (layout_scrollHeight w0 textarea) in
  let cssMin := parseFloat (computedStyle w0 textarea "minHeight") in
  let cssMax := parseFloat (computedStyle w0 textarea "maxHeight") in
  let minHeight := js_or cssMin (of_Z 32) in
  let maxHeight := js_or cssMax (of_Z 160) in
  let N := js_min (js_max minHeight scrollHeight) maxHeight in
  ∃ w',
    resizeTextarea elements w = Ok tt w'
    ∧ get_style w' textarea "height" = Some (numToString N +:+ "px")
    ∧ get_style w' textarea "overflowY"
        = Some (if js_lt maxHeight scrollHeight then "scroll" else "hidden")
    ∧ minHeight = (if js_falsy cssMin then of_Z 32 else cssMin)
    ∧ maxHeight = (if js_falsy cssMax then of_Z 160 else cssMax)
    ∧ (js_le minHeight maxHeight = true →
       js_le minHeight N = true ∧ js_le N maxHeight = true).
Proof.
  intros Hin Hex w0 scrollHeight cssMin cssMax minHeight maxHeight N.
  unfold resizeTextarea. rewrite Hin. cbn. eexists. split; [reflexivity|].
  assert (H0 : is_Some (nodes w0 !! textarea)) by by apply alter_node_is_Some.
  split; [|split; [|split; [|split]]].
  - rewrite get_style_set_ne by done. by apply get_style_set.
  - apply get_style_set. by apply alter_node_is_Some.
  - done.
  - done.
  - apply js_clamp_bounds; try done; by apply js_or_not_nan.
Qed.

(** *** Null guards *)

(** The world without its heap: what a function that only touches
    elements leaves alone. *)
Definition outside_heap (w : World) : World := with_nodes (λ _, ∅) w.

Lemma outside_heap_with_nodes f (w : World) : outside_heap (with_nodes f w) = outside_heap w.
Proof. done. Qed.


(** C3, as amended.  Each of the functions that starts with a null check on
    an element of [elements] returns at once, and leaves the whole world as
    it was, when that element is missing: [showConnectionStatus]
    ([connectionStatus]), [updateConnectionIndicator] ([connectionIndicator]),
    [updateContextStatus] ([contextStatus]), [resizeTextarea] and
    [setupAutoresizeTextarea] ([userInput]), [toggleApiKeyVisibility]
    ([toggleApiKey] or [apiKeyInput]) and [showChatStatusMessage]
    ([chatStatusMessage]).  Three functions have no such check.
    [addThinkingAnimation] and [addMessageToChat], called without an
    element to insert after, throw a [TypeError] when [chatMessages] is
    missing, and have changed nothing but the heap (and the count of ids
    handed out) by then.  [restoreSendButtonAndInput], called while a stream
    is on, throws a [TypeError] when [sendMessage] is missing, after it has
    set [state.isStreaming] to false and printed its line. *)
Theorem null_guards_leave_world_unchanged (elements : Elements) (w : World) :
  (connectionStatus elements = None →
     ∀ message type, showConnectionStatus message type elements w = Ok tt w)
  ∧ (connectionIndicator elements = None →
     ∀ isConnected tr, updateConnectionIndicator isConnected elements tr w = Ok tt w)
  ∧ (contextStatus elements = None →
     ∀ key replacements tr, updateContextStatus key replacements elements tr w = Ok tt w)
  ∧ (userInput elements = None → resizeTextarea elements w = Ok tt w)
  ∧ (userInput elements = None → setupAutoresizeTextarea elements w = Ok tt w)
  ∧ (toggleApiKey elements = None ∨ apiKeyInput elements = None →
     toggleApiKeyVisibility elements w = Ok tt w)
  ∧ (chatStatusMessage elements = None →
     ∀ message type, showChatStatusMessage message type elements w = Ok tt w)
  ∧ (chatMessages elements = None →
     ∀ isUserNearBottom,
       ∃ w', addThinkingAnimation None elements isUserNearBottom w = Throw TypeError w'
             ∧ outside_heap w' = outside_heap w)
  ∧ (chatMessages elements = None →
     ∀ content sender options tr addCopy addActions isUserNearBottom,
       opt_insertAfterElement options = None →
       ∃ w', addMessageToChat content sender options elements tr addCopy addActions
               isUserNearBottom w = Throw TypeError w'
             ∧ outside_heap w' = outside_heap (with_uid_calls (S (uid_calls w)) w))
  ∧ (sendMessage elements = None → isStreaming (chat_state w) = true →
     ∀ tr sendCallback abortCallback,
       restoreSendButtonAndInput elements tr sendCallback abortCallback w
       = Throw TypeError
           (with_chat_state (mkState false)
              (with_console (λ l, l ++ ["Restoring send button and input state..."]) w))).
Proof.
  split; [|split; [|split; [|split; [|split; [|split; [|split; [|split; [|split]]]]]]]].
  - intros H ??. unfold showConnectionStatus. by rewrite H.
  - intros H ??. unfold updateConnectionIndicator. by rewrite H.
  - intros H ???. unfold updateContextStatus. by rewrite H.
  - intros H. unfold resizeTextarea. by rewrite H.
  - intros H. unfold setupAutoresizeTextarea. by rewrite H.
  - intros [H|H]; unfold toggleApiKeyVisibility; rewrite H; [done|].
    by destruct (toggleApiKey elements).
  - intros H ??. unfold showChatStatusMessage. by rewrite H.
  - intros H near. unfold addThinkingAnimation, insert_into_chat. rewrite H.
    eexists. split; [reflexivity|]. by destruct near.
  - intros H content sender options tr addCopy addActions near Hopt.
    unfold addMessageToChat, insert_into_chat. cbv zeta. rewrite H, Hopt.
    eexists. split; [reflexivity|]. done.
  - intros H Hst tr sendCallback abortCallback.
    unfold restoreSendButtonAndInput, bind, get_world. by rewrite Hst, H.
Qed.

(** *** Tab switching *)

(** What one round of [classList.toggle('active', cond)] does to an
    element, [cond] being read off the element itself. *)
Definition set_active (cond : Node → bool) (e : Node) : Node :=
  with_classes (if cond e then token_add "active" else token_remove "active") e.

Definition tab_selected (tabId : string) (e : Node) : bool :=
  bool_decide (attrs e !! "data-tab" = Some tabId).
Definition subtab_selected (subTabId : string) (e : Node) : bool :=
  bool_decide (attrs e !! "data-subtab" = Some subTabId).
Definition id_selected (i : string) (e : Node) : bool :=
  bool_decide (default "" (attrs e !! "id") = i).

Definition toggle_all (cond : Node → bool) (l : list nat) (m : gmap nat Node)
    : gmap nat Node :=
  foldl (λ m n, alter (set_active cond) n m) m l.

Lemma token_add_elem c l : c ∈ token_add c l.
Proof. unfold token_add. case_decide; [done|]. apply elem_of_app. right. by left. Qed.

Lemma token_remove_elem c l : c ∉ token_remove c l.
Proof. unfold token_remove. rewrite list_elem_of_filter. by intros [? _]. Qed.

Lemma token_add_idem c l : token_add c (token_add c l) = token_add c l.
Proof.
  unfold token_add at 1. case_decide as H; [done|]. exfalso. apply H, token_add_elem.
Qed.

Lemma token_remove_idem c l : token_remove c (token_remove c l) = token_remove c l.
Proof.
  unfold token_remove. induction l as [|x l IH]; [done|].
  rewrite filter_cons. case_decide.
  - rewrite filter_cons. case_decide; [|done]. by rewrite IH.
  - done.
Qed.

Lemma set_active_class cond e :
  (∀ f e, cond (with_classes f e) = cond e) →
  node_has_class (set_active cond e) "active" = cond e.
Proof.
  intros _. unfold set_active, node_has_class. simpl. destruct (cond e).
  - apply bool_decide_eq_true. apply token_add_elem.
  - apply bool_decide_eq_false. apply token_remove_elem.
Qed.

Lemma set_active_idem cond e :
  (∀ f e, cond (with_classes f e) = cond e) →
  set_active cond (set_active cond e) = set_active cond e.
Proof.
  intros Hc. unfold set_active. rewrite Hc.
  destruct (cond e); unfold with_classes; simpl; f_equal;
    [apply token_add_idem | apply token_remove_idem].
Qed.

Lemma toggle_all_lookup cond l (m : gmap nat Node) n :
  (∀ f e, cond (with_classes f e) = cond e) →
  toggle_all cond l m !! n
  = if decide (n ∈ l) then set_active cond <$> m !! n else m !! n.
Proof.
  intros Hc. unfold toggle_all. revert m. induction l as [|a l IH]; intros m; cbn [foldl].
  - destruct (decide (n ∈ [])) as [H|H]; [|done]. by apply not_elem_of_nil in H.
  - rewrite IH, lookup_alter.
    assert (Hiff : n ∈ a :: l ↔ a = n ∨ n ∈ l).
    { rewrite elem_of_cons. split; intros [?|?]; auto. }
    destruct (decide (n ∈ l)) as [Hl|Hl], (decide (n ∈ a :: l)) as [Hal|Hal],
             (decide (a = n)) as [Heq|Hne];
      try subst a; try done;
      try (by exfalso; apply Hal, Hiff; auto);
      try (by exfalso; apply Hiff in Hal as [?|?]).
    destruct (m !! n); simpl; [|done]. by rewrite set_active_idem.
Qed.

Lemma with_nodes_compose f g (w : World) :
  with_nodes f (with_nodes g w) = with_nodes (λ m, f (g m)) w.
Proof. done. Qed.

Lemma forEach_set_active cond (f : nat → M unit) l (w : World) :
  (∀ n w, f n w = Ok tt (with_nodes (alter (set_active cond) n) w)) →
  forEach l f w = Ok tt (with_nodes (toggle_all cond l) w).
Proof.
  intros Hf. revert w. induction l as [|a l IH]; intros w.
  - by destruct w.
  - cbn [forEach]. unfold bind. rewrite Hf, IH. by rewrite with_nodes_compose.
Qed.

Lemma toggle_by_dataset key v tab (w : World) :
  (do t <- dataset tab key;
   classList_toggle tab "active" (bool_decide (t = Some v))) w
  = Ok tt (with_nodes
             (alter (set_active (λ e, bool_decide (attrs e !! ("data-" +:+ key) = Some v))) tab) w).
Proof.
  unfold bind, dataset, getAttribute, classList_toggle, modify, alter_node. f_equal.
  unfold with_nodes. f_equal. apply alter_ext. intros e He. unfold get_attr. rewrite He. done.
Qed.

Lemma toggle_by_id v content (w : World) :
  (do i <- get_id content;
   classList_toggle content "active" (bool_decide (i = v))) w
  = Ok tt (with_nodes (alter (set_active (id_selected v)) content) w).
Proof.
  unfold bind, get_id, classList_toggle, modify, alter_node. f_equal.
  unfold with_nodes. f_equal. apply alter_ext. intros e He. unfold get_attr. rewrite He. done.
Qed.

Lemma set_active_attrs cond e : attrs (set_active cond e) = attrs e.
Proof. done. Qed.

(** The state of the two lists after both rounds of toggles. *)
Lemma toggle_two_rounds c1 c2 l1 l2 (m : gmap nat Node) :
  (∀ f e, c1 (with_classes f e) = c1 e) →
  (∀ f e, c2 (with_classes f e) = c2 e) →
  (∀ n, n ∈ l1 → n ∉ l2) →
  let m' := toggle_all c2 l2 (toggle_all c1 l1 m) in
  (∀ n, n ∈ l1 → m' !! n = set_active c1 <$> m !! n)
  ∧ (∀ n, n ∈ l2 → m' !! n = set_active c2 <$> m !! n)
  ∧ (∀ n, n ∉ l1 → n ∉ l2 → m' !! n = m !! n).
Proof.
  intros H1 H2 Hdis m'. subst m'. split; [|split].
  - intros n Hn. rewrite !toggle_all_lookup by done.
    rewrite decide_False by by apply Hdis. by rewrite decide_True.
  - intros n Hn. rewrite !toggle_all_lookup by done.
    rewrite decide_True by done. rewrite decide_False; [done|].
    intros Hn1. by apply (Hdis n).
  - intros n Hn1 Hn2. rewrite !toggle_all_lookup by done.
    by rewrite !decide_False.
Qed.

(** Reading [active] and the deciding attribute back from an element that
    went through a round of toggles. *)
Lemma active_after_toggle cond (m m' : gmap nat Node) n (w' : World) :
  (∀ f e, cond (with_classes f e) = cond e) →
  is_Some (m !! n) →
  nodes w' !! n = set_active cond <$> m !! n →
  ∃ e, m !! n = Some e
       ∧ has_class w' n "active" = cond e
       ∧ (∀ k, get_attr w' n k = attrs e !! k).
Proof.
  intros Hc [e He] Hw. exists e. split; [done|].
  unfold has_class, get_attr. rewrite Hw, He. simpl. split; [|done].
  by apply set_active_class.
Qed.

Lemma switchTab_unfold tabId (elements : Elements) (callback : string → M unit) (w : World) :
  let w1 := with_nodes (λ m, toggle_all (id_selected tabId) (tabContents elements)
                               (toggle_all (tab_selected tabId) (tabs elements) m)) w in
  switchTab tabId elements callback w
  = if decide (tabId = "settings") then
      match document_querySelector [by_class ["settings-nav-btn"; "active"]] w1 with
      | Ok None _ => callback "general" w1
      | Ok (Some _) _ => Ok tt w1
      | Throw e w2 => Throw e w2
      end
    else Ok tt w1.
Proof.
  intros w1. unfold switchTab.
  unfold bind at 1.
  rewrite (forEach_set_active (tab_selected tabId))
    by (intros; apply (toggle_by_dataset "tab")).
  unfold bind at 1.
  rewrite (forEach_set_active (id_selected tabId)) by (intros; apply toggle_by_id).
  rewrite with_nodes_compose. fold w1.
  case_decide; [|done].
  unfold bind. unfold document_querySelector.
  by destruct (head _).
Qed.

Lemma switchSettingsSubTab_unfold subTabId (elements : Elements) (w : World) :
  switchSettingsSubTab subTabId elements w
  = Ok tt (with_nodes
             (λ m, toggle_all (id_selected ("settings-" +:+ subTabId))
                     (settingsSubContents elements)
                     (toggle_all (subtab_selected subTabId) (settingsNavBtns elements) m)) w).
Proof.
  unfold switchSettingsSubTab.
  unfold bind at 1.
  rewrite (forEach_set_active (subtab_selected subTabId))
    by (intros; apply (toggle_by_dataset "subtab")).
  rewrite (forEach_set_active (id_selected ("settings-" +:+ subTabId)))
    by (intros; apply toggle_by_id).
  by rewrite with_nodes_compose.
Qed.

(** C1, as amended.  Let no element be in both [elements.tabs] and
    [elements.tabContents], nor in both [elements.settingsNavBtns] and
    [elements.settingsSubContents], and let the callback return normally and
    leave the tabs and tab contents alone.  Then [switchTab] returns, and
    after it each tab has class [active] if and only if its [dataset.tab] is
    [tabId], and each tab content if and only if its [id] is [tabId]; after
    [switchSettingsSubTab] each nav button is active iff its [dataset.subtab]
    is [subTabId] and each sub-content iff its [id] is ['settings-' + subTabId].
    An element outside the lists a function goes through is not touched by
    that function's toggles (it keeps [active] if it had it); and [switchTab]
    calls the callback, with ['general'], exactly when [tabId] is ['settings']
    and no element matches [.settings-nav-btn.active]. *)
Theorem switchTab_marks_selected (tabId subTabId : string) (elements : Elements)
    (callback : string → M unit) (w : World) :
  (∀ n, n ∈ tabs elements → n ∉ tabContents elements) →
  (∀ n, n ∈ settingsNavBtns elements → n ∉ settingsSubContents elements) →
  (∀ n, n ∈ tabs elements ++ tabContents elements
          ++ settingsNavBtns elements ++ settingsSubContents elements →
        is_Some (nodes w !! n)) →
  (∀ s w1, ∃ w2, callback s w1 = Ok tt w2
     ∧ ∀ n, n ∈ tabs elements ++ tabContents elements → nodes w2 !! n = nodes w1 !! n) →
  (∃ w1 w',
     switchTab tabId elements callback w = Ok tt w'
     ∧ (∀ n, n ∉ tabs elements → n ∉ tabContents elements →
             nodes w1 !! n = nodes w !! n)
     ∧ (tabId = "settings"
        ∧ document_querySelector [by_class ["settings-nav-btn"; "active"]] w1 = Ok None w1 →
        callback "general" w1 = Ok tt w')
     ∧ (¬ (tabId = "settings"
           ∧ document_querySelector [by_class ["settings-nav-btn"; "active"]] w1 = Ok None w1) →
        w' = w1)
     ∧ (∀ tab, tab ∈ tabs elements →
          has_class w' tab "active" = true ↔ get_attr w' tab "data-tab" = Some tabId)
     ∧ (∀ content, content ∈ tabContents elements →
          has_class w' content "active" = true
          ↔ default "" (get_attr w' content "id") = tabId))
  ∧ (∃ w',
     switchSettingsSubTab subTabId elements w = Ok tt w'
     ∧ (∀ n, n ∉ settingsNavBtns elements → n ∉ settingsSubContents elements →
             nodes w' !! n = nodes w !! n)
     ∧ (∀ btn, btn ∈ settingsNavBtns elements →
          has_class w' btn "active" = true ↔ get_attr w' btn "data-subtab" = Some subTabId)
     ∧ (∀ content, content ∈ settingsSubContents elements →
          has_class w' content "active" = true
          ↔ default "" (get_attr w' content "id") = "settings-" +:+ subTabId)).
Proof.
  intros Hdis1 Hdis2 Hex Hcb. split.
  - pose proof (switchTab_unfold tabId elements callback w) as Hsw. cbv zeta in Hsw.
    set (w1 := with_nodes _ w) in Hsw.
    destruct (toggle_two_rounds (tab_selected tabId) (id_selected tabId)
                (tabs elements) (tabContents elements) (nodes w))
      as (Ht & Hc & Hframe); [done..|].
    (* what holds of the world after the toggles carries over to the end *)
    assert (Hgoal : ∀ w', (∀ n, n ∈ tabs elements ++ tabContents elements →
                                nodes w' !! n = nodes w1 !! n) →
      (∀ tab, tab ∈ tabs elements →
          has_class w' tab "active" = true ↔ get_attr w' tab "data-tab" = Some tabId)
      ∧ (∀ content, content ∈ tabContents elements →
          has_class w' content "active" = true
          ↔ default "" (get_attr w' content "id") = tabId)).
    { intros w' Hsame. split.
      - intros tab Hin.
        destruct (active_after_toggle (tab_selected tabId) (nodes w) ∅ tab w')
          as (e & He & Hact & Hattr); [done| | |].
        + apply Hex. apply elem_of_app. by left.
        + rewrite Hsame by (apply elem_of_app; by left). by apply Ht.
        + rewrite Hact, Hattr. unfold tab_selected. by rewrite bool_decide_eq_true.
      - intros content Hin.
        destruct (active_after_toggle (id_selected tabId) (nodes w) ∅ content w')
          as (e & He & Hact & Hattr); [done| | |].
        + apply Hex. rewrite !elem_of_app. right. by left.
        + rewrite Hsame by (rewrite elem_of_app; by right). by apply Hc.
        + rewrite Hact, Hattr. unfold id_selected. by rewrite bool_decide_eq_true. }
    destruct (decide (tabId = "settings")) as [Hs|Hs].
    + destruct (document_querySelector [by_class ["settings-nav-btn"; "active"]] w1)
        as [[a|] w2|] eqn:Hq; [| |by unfold document_querySelector in Hq].
      * assert (w2 = w1) as -> by (unfold document_querySelector in Hq; congruence).
        exists w1, w1. split; [by rewrite Hsw|].
        split; [by apply Hframe|].
        split; [intros [_ ?]; congruence|]. split; [done|]. by apply Hgoal.
      * assert (w2 = w1) as -> by (unfold document_querySelector in Hq; congruence).
        destruct (Hcb "general" w1) as (w' & Hw' & Hsame).
        exists w1, w'. split; [by rewrite Hsw|].
        split; [by apply Hframe|].
        split; [done|]. split; [by intros []|]. by apply Hgoal.
    + exists w1, w1. split; [by rewrite Hsw|]. split; [by apply Hframe|].
      split; [by intros [? _]|]. split; [done|]. by apply Hgoal.
  - rewrite switchSettingsSubTab_unfold. eexists. split; [done|].
    destruct (toggle_two_rounds (subtab_selected subTabId)
                (id_selected ("settings-" +:+ subTabId))
                (settingsNavBtns elements) (settingsSubContents elements) (nodes w))
      as (Ht & Hc & Hframe); [done..|].
    split; [by apply Hframe|]. split.
    + intros btn Hin.
      destruct (active_after_toggle (subtab_selected subTabId) (nodes w) ∅ btn
                  (with_nodes (λ m, toggle_all (id_selected ("settings-" +:+ subTabId))
                     (settingsSubContents elements)
                     (toggle_all (subtab_selected subTabId) (settingsNavBtns elements) m)) w))
        as (e & He & Hact & Hattr); [done| |by apply Ht|].
      * apply Hex. rewrite !elem_of_app. right. right. by left.
      * rewrite Hact, Hattr. unfold subtab_selected. by rewrite bool_decide_eq_true.
    + intros content Hin.
      destruct (active_after_toggle (id_selected ("settings-" +:+ subTabId)) (nodes w) ∅
                  content
                  (with_nodes (λ m, toggle_all (id_selected ("settings-" +:+ subTabId))
                     (settingsSubContents elements)
                     (toggle_all (subtab_selected subTabId) (settingsNavBtns elements) m)) w))
        as (e & He & Hact & Hattr); [done| |by apply Hc|].
      * apply Hex. rewrite !elem_of_app. right. right. by right.
      * rewrite Hact, Hattr. unfold id_selected. by rewrite bool_decide_eq_true.
Qed.

(** *** The copy button of a code block *)

Lemma truthy_or_empty t : (if truthy t then t else "") = t.
Proof. unfold truthy. by destruct (String.eqb_spec t "") as [->|]. Qed.

(** [block.querySelector('code')?.innerText || ''], read off a world. *)
Definition visible_text (w : World) (block : nat) : string :=
  match querySelector block [by_tag "code"] w with
  | Ok (Some code) _ =>
      match get_innerText code w with
      | Ok t _ => t
      | Throw _ _ => ""
      end
  | _ => ""
  end.

Lemma visible_code_text_run block (w : World) f :
  visible_code_text block (with_console f w) = Ok (visible_text w block) (with_console f w).
Proof.
  unfold visible_code_text, visible_text, bind, querySelector, querySelectorAll, bind, ret.
  simpl. destruct (head _) as [code|]; [|done].
  unfold get_innerText, subtree. simpl. by rewrite truthy_or_empty.
Qed.

(** C2.  In the click listener that [addCopyButtonToCodeBlock] installs,
    whenever the [data-code] attribute is absent, or decoding it throws
    (in [atob] or in [decodeURIComponent]), the text handed to
    [copyCodeToClipboardCallback] is the [innerText] of the block's [code]
    child, or the empty string when the block has none.  Nothing but a line
    on the console happens before the callback runs. *)
Theorem copyCode_click_falls_back (block copyButton : nat)
    (copyCodeToClipboardCallback : string → nat → M unit) (w : World) :
  get_attr w block "data-code" = None
  ∨ (∃ enc, get_attr w block "data-code" = Some enc
            ∧ atob enc ≫= decodeURIComponent = None) →
  ∃ line,
    copyCode_click block copyButton copyCodeToClipboardCallback w
    = copyCodeToClipboardCallback (visible_text w block) copyButton
        (with_console (λ l, l ++ [line]) w).
Proof.
  intros H. unfold copyCode_click. unfold bind at 1. unfold getAttribute.
  destruct H as [H|(enc & H & Hdec)]; rewrite H.
  - eexists. unfold bind, console_print, modify.
    by rewrite visible_code_text_run.
  - destruct (truthy enc); [rewrite Hdec|]; eexists; unfold bind, console_print, modify;
      by rewrite visible_code_text_run.
Qed.

(** *** Status messages and their timers *)

Lemma orphan_children_is_Some n n' (m : gmap nat Node) :
  is_Some (orphan_children n m !! n') ↔ is_Some (m !! n').
Proof.
  unfold orphan_children. destruct (m !! n) as [e|]; [|done].
  induction (children e) as [|c l IH]; [done|]. simpl.
  destruct c as [k|s]; [|done]. by rewrite alter_is_Some.
Qed.

Lemma textContent_single (w : World) n e s :
  nodes w !! n = Some e →
  children e = (if decide (s = "") then [] else [CText s]) →
  textContent w n = s.
Proof.
  intros He Hc. unfold textContent.
  destruct (size (nodes w)) as [|f] eqn:Hsz.
  - apply map_size_empty_iff in Hsz. rewrite Hsz in He. by rewrite lookup_empty in He.
  - simpl. rewrite He, Hc. by case_decide.
Qed.

Definition world_of {A} (r : result A) : World :=
  match r with
  | Ok _ w => w
  | Throw _ w => w
  end.

Lemma showConnectionStatus_run message type (elements : Elements) status (w : World) :
  connectionStatus elements = Some status →
  is_Some (nodes w !! status) →
  ∃ w1,
    showConnectionStatus message type elements w = Ok tt w1
    ∧ is_Some (nodes w1 !! status)
    ∧ textContent w1 status = message
    ∧ get_style w1 status "display" = Some "block"
    ∧ timers w1 = timers w ++
        (if decide (type = "success")
         then [(3000, THideConnectionStatus elements message)] else []).
Proof.
  intros Hs Hn. unfold showConnectionStatus. rewrite Hs.
  unfold bind, set_textContent, set_className, set_style, modify.
  set (w1 := alter_node (with_style (insert "display" "block")) status _).
  assert (H1 : is_Some (nodes w1 !! status)).
  { subst w1. simpl. rewrite !alter_is_Some. by apply orphan_children_is_Some. }
  assert (H2 : textContent w1 status = message).
  { pose proof Hn as Hn'. apply (orphan_children_is_Some status status) in Hn' as [e He].
    eapply textContent_single; [subst w1; simpl; by rewrite !lookup_alter_eq, He|done]. }
  assert (H3 : get_style w1 status "display" = Some "block").
  { subst w1. apply get_style_set. simpl. rewrite !alter_is_Some.
    by apply orphan_children_is_Some. }
  assert (H4 : timers w1 = timers w) by done.
  case_decide.
  - eexists. split; [done|]. unfold setTimeout, modify. simpl. by rewrite <- H4.
  - exists w1. unfold ret. by rewrite app_nil_r.
Qed.

Lemma showChatStatusMessage_run message type (elements : Elements) status (w : World) :
  chatStatusMessage elements = Some status →
  is_Some (nodes w !! status) →
  ∃ w1,
    showChatStatusMessage message type elements w = Ok tt w1
    ∧ is_Some (nodes w1 !! status)
    ∧ textContent w1 status = message
    ∧ get_style w1 status "display" = Some "block"
    ∧ timers w1 = timers w ++
        (if decide (type = "success")
         then [(2000, TFadeChatStatus elements message)] else []).
Proof.
  intros Hs Hn. unfold showChatStatusMessage. rewrite Hs.
  unfold bind, set_textContent, set_className, set_style, modify.
  set (w1 := alter_node (with_style (insert "transform" "translateY(0)")) status _).
  assert (H1 : is_Some (nodes w1 !! status)).
  { subst w1. simpl. rewrite !alter_is_Some. by apply orphan_children_is_Some. }
  assert (H2 : textContent w1 status = message).
  { pose proof Hn as Hn'. apply (orphan_children_is_Some status status) in Hn' as [e He].
    eapply textContent_single; [subst w1; simpl; by rewrite !lookup_alter_eq, He|done]. }
  assert (H3 : get_style w1 status "display" = Some "block").
  { subst w1. rewrite !get_style_set_ne by done. apply get_style_set.
    simpl. rewrite !alter_is_Some. by apply orphan_children_is_Some. }
  assert (H4 : timers w1 = timers w) by done.
  case_decide.
  - eexists. split; [done|]. unfold setTimeout, modify. simpl. by rewrite <- H4.
  - exists w1. unfold ret. by rewrite app_nil_r.
Qed.

(** C5, as amended.  [showConnectionStatus] and [showChatStatusMessage]
    show the message ([display] is ['block']) and schedule a timer only when
    the type is ['success'], after 3000 ms and 2000 ms; for any other type
    the call schedules nothing.  The connection timer sets [display] to
    ['none'] if the element's text still equals the message that scheduled
    it, and changes nothing otherwise.  The chat timer sets the opacity to
    ['0'] and the transform to ['translateY(5px)'] whatever the text is, and
    schedules, after 300 ms, a timer that sets [display] to ['none'] if the
    text still equals its message and changes nothing otherwise.  So a
    timer left over from a message with another text does not set the
    [display] of the message now shown to ['none']. *)
Theorem status_fades_after_success (elements : Elements) (message type : string)
    (w : World) :
  (∀ status,
     connectionStatus elements = Some status → is_Some (nodes w !! status) →
     ∃ w1,
       showConnectionStatus message type elements w = Ok tt w1
       ∧ get_style w1 status "display" = Some "block"
       ∧ timers w1 = timers w ++
           (if decide (type = "success")
            then [(3000, THideConnectionStatus elements message)] else [])
       ∧ (∀ w2, fire_timer (THideConnectionStatus elements message) w2
                = Ok tt (if decide (textContent w2 status = message)
                         then alter_node (with_style (insert "display" "none")) status w2
                         else w2))
       ∧ (∀ stale, stale ≠ message →
            fire_timer (THideConnectionStatus elements stale) w1 = Ok tt w1))
  ∧ (∀ status,
     chatStatusMessage elements = Some status → is_Some (nodes w !! status) →
     ∃ w1,
       showChatStatusMessage message type elements w = Ok tt w1
       ∧ get_style w1 status "display" = Some "block"
       ∧ timers w1 = timers w ++
           (if decide (type = "success")
            then [(2000, TFadeChatStatus elements message)] else [])
       ∧ (∀ w2, fire_timer (TFadeChatStatus elements message) w2
                = Ok tt (with_timers (λ l, l ++ [(300, THideChatStatus elements message)])
                           (alter_node (with_style (insert "transform" "translateY(5px)")) status
                              (alter_node (with_style (insert "opacity" "0")) status w2))))
       ∧ (∀ w2, fire_timer (THideChatStatus elements message) w2
                = Ok tt (if decide (textContent w2 status = message)
                         then alter_node (with_style (insert "display" "none")) status w2
                         else w2))
       ∧ (∀ stale, stale ≠ message →
            fire_timer (THideChatStatus elements stale) w1 = Ok tt w1)).
Proof.
  split; intros status Hs Hn.
  - destruct (showConnectionStatus_run message type elements status w Hs Hn)
      as (w1 & Hrun & _ & Htext & Hdisp & Htim).
    exists w1. repeat split; try done.
    + intros w2. unfold fire_timer. rewrite Hs.
      unfold deref, bind, ret, get_textContent, set_style, modify.
      by destruct (decide (textContent w2 status = message)).
    + intros stale Hne. unfold fire_timer. rewrite Hs.
      unfold deref, bind, ret, get_textContent. rewrite Htext. by rewrite decide_False.
  - destruct (showChatStatusMessage_run message type elements status w Hs Hn)
      as (w1 & Hrun & _ & Htext & Hdisp & Htim).
    exists w1. repeat split; try done.
    + intros w2. unfold fire_timer. by rewrite Hs.
    + intros w2. unfold fire_timer. rewrite Hs.
      unfold deref, bind, ret, get_textContent, set_style, modify.
      by destruct (decide (textContent w2 status = message)).
    + intros stale Hne. unfold fire_timer. rewrite Hs.
      unfold deref, bind, ret, get_textContent. rewrite Htext. by rewrite decide_False.
Qed.

(** *** Parsed markup in the heap *)

Lemma size_alter (f : Node → Node) n (m : gmap nat Node) : size (alter f n m) = size m.
Proof. by rewrite <- !size_dom, dom_alter_L. Qed.

Fixpoint HTree_ind' (P : HTree → Prop)
    (Htext : ∀ s, P (HText s))
    (Helem : ∀ e kids, Forall P kids → P (HElem e kids))
    (t : HTree) : P t :=
  match t with
  | HText s => Htext s
  | HElem e kids =>
      Helem e kids
        ((fix all (ts : list HTree) : Forall P ts :=
            match ts with
            | [] => @List.Forall_nil _ P
            | t' :: ts' =>
                @List.Forall_cons _ P t' ts' (HTree_ind' P Htext Helem t') (all ts')
            end) kids)
  end.

(** What bringing markup into heap [m] guarantees of the heap [m'] and the
    children [cs] that come out: the nodes of [m] are as they were, the
    new roots are new nodes, and the children of new nodes are new nodes. *)
Definition alloc_ok (m m' : gmap nat Node) (cs : list child) : Prop :=
  (∀ k, is_Some (m !! k) → m' !! k = m !! k)
  ∧ (∀ c, CNode c ∈ cs → m !! c = None ∧ is_Some (m' !! c))
  ∧ (∀ k e c, m !! k = None → m' !! k = Some e → CNode c ∈ children e →
       m !! c = None ∧ is_Some (m' !! c)).

Lemma alloc_ok_None (m m' : gmap nat Node) cs k :
  alloc_ok m m' cs → m' !! k = None → m !! k = None.
Proof.
  intros (Hold & _ & _) Hk. destruct (m !! k) as [e|] eqn:He; [|done].
  rewrite <- Hk. symmetry. rewrite <- He. apply Hold. by rewrite He.
Qed.

Lemma alloc_ok_is_Some (m m' : gmap nat Node) cs k :
  alloc_ok m m' cs → is_Some (m !! k) → is_Some (m' !! k).
Proof. intros (Hold & _ & _) Hk. by rewrite Hold. Qed.

Lemma alloc_ok_cons (m m1 m2 : gmap nat Node) c cs :
  alloc_ok m m1 [c] → alloc_ok m1 m2 cs → alloc_ok m m2 (c :: cs).
Proof.
  intros H1 H2. pose proof H1 as (Hold1 & Hroot1 & Hnew1).
  pose proof H2 as (Hold2 & Hroot2 & Hnew2). split; [|split].
  - intros k Hk. rewrite Hold2 by by eapply alloc_ok_is_Some. by apply Hold1.
  - intros r Hr. apply elem_of_cons in Hr as [Hr|Hr].
    + destruct (Hroot1 r) as [? ?]; [rewrite Hr; by left|].
      split; [done|]. by eapply alloc_ok_is_Some.
    + destruct (Hroot2 r Hr) as [? ?]. split; [|done]. by eapply alloc_ok_None.
  - intros k e r Hk He Hr. destruct (m1 !! k) as [e1|] eqn:Hk1.
    + rewrite Hold2 in He by by rewrite Hk1. rewrite Hk1 in He. simplify_eq.
      destruct (Hnew1 k e r Hk Hk1 Hr) as [? ?]. split; [done|].
      by eapply alloc_ok_is_Some.
    + destruct (Hnew2 k e r Hk1 He Hr) as [? ?]. split; [|done].
      by eapply alloc_ok_None.
Qed.

Lemma alloc_list_ok p ts :
  Forall (λ t, ∀ p m, alloc_ok m (alloc_tree p t m).1 [(alloc_tree p t m).2]) ts →
  ∀ m, alloc_ok m (alloc_list alloc_tree p ts m).1 (alloc_list alloc_tree p ts m).2.
Proof.
  induction 1 as [|t ts Ht _ IH]; intros m; simpl.
  - split; [done|]. split; [by intros c Hc%elem_of_nil|]. intros k e c H1 H2. congruence.
  - specialize (Ht p m). destruct (alloc_tree p t m) as [m1 c].
    specialize (IH m1). destruct (alloc_list alloc_tree p ts m1) as [m2 cs].
    simpl in *. by eapply alloc_ok_cons.
Qed.

Lemma alloc_tree_ok t : ∀ p m, alloc_ok m (alloc_tree p t m).1 [(alloc_tree p t m).2].
Proof.
  induction t as [s|e kids IH] using HTree_ind'; intros p m.
  - simpl. split; [done|]. split; [|intros k e c H1 H2; congruence].
    intros c Hc. apply list_elem_of_singleton in Hc. done.
  - simpl. set (k0 := fresh_id m).
    set (m1 := <[k0 := with_parent p (with_children (λ _, []) e)]> m).
    pose proof (alloc_list_ok (Some k0) kids IH m1) as Hk.
    destruct (alloc_list alloc_tree (Some k0) kids m1) as [m2 cs]. simpl in *.
    pose proof Hk as (Hold & Hroot & Hnew).
    assert (Hk0 : m !! k0 = None) by apply fresh_id_None.
    assert (Hm1 : ∀ k, k ≠ k0 → m1 !! k = m !! k).
    { intros k ?. subst m1. by rewrite lookup_insert_ne. }
    assert (Hm1k0 : is_Some (m1 !! k0)).
    { subst m1. rewrite lookup_insert_eq. by eexists. }
    split; [|split].
    + intros k Hin. assert (k ≠ k0) by (intros ->; rewrite Hk0 in Hin; by destruct Hin).
      rewrite lookup_alter_ne by done. rewrite Hold; [by apply Hm1|].
      by rewrite Hm1.
    + intros c Hc. apply list_elem_of_singleton in Hc. simplify_eq.
      split; [done|]. rewrite lookup_alter_eq, fmap_is_Some. by rewrite Hold.
    + intros k e' c Hkm He' Hc. destruct (decide (k = k0)) as [->|Hne].
      * rewrite lookup_alter_eq in He'.
        destruct (m2 !! k0) as [e0|]; simpl in He'; [|done]. simplify_eq. simpl in Hc.
        destruct (Hroot c Hc) as [Hc1 Hc2].
        assert (c ≠ k0) by (intros ->; rewrite Hc1 in Hm1k0; by destruct Hm1k0).
        split; [by rewrite <- Hm1|]. by rewrite lookup_alter_ne.
      * rewrite lookup_alter_ne in He' by done.
        destruct (Hnew k e' c) as [Hc1 Hc2]; [by rewrite Hm1|done..|].
        assert (c ≠ k0) by (intros ->; rewrite Hc1 in Hm1k0; by destruct Hm1k0).
        split; [by rewrite <- Hm1|]. by rewrite lookup_alter_ne.
Qed.

Lemma alloc_forest_ok p ts (m : gmap nat Node) :
  alloc_ok m (alloc_forest p ts m).1 (alloc_forest p ts m).2.
Proof.
  apply alloc_list_ok. apply Forall_forall. intros t _. apply alloc_tree_ok.
Qed.

















Lemma orphan_children_lookup n e (m : gmap nat Node) k :
  m !! n = Some e →
  orphan_children n m !! k
  = if decide (CNode k ∈ children e) then with_parent None <$> m !! k else m !! k.
Proof.
  intros He. unfold orphan_children. rewrite He. clear He.
  induction (children e) as [|c l IH]; cbn [foldr].
  - destruct (decide (CNode k ∈ [])) as [H|H]; [|done]. by apply not_elem_of_nil in H.
  - destruct c as [k0|s]; simpl.
    + destruct (decide (k0 = k)) as [->|Hne].
      * rewrite lookup_alter_eq, IH.
        destruct (decide (CNode k ∈ CNode k :: l)) as [_|Hn];
          [|exfalso; apply Hn; by left].
        destruct (decide (CNode k ∈ l)); [|done]. by destruct (m !! k).
      * rewrite lookup_alter_ne, IH by done.
        destruct (decide (CNode k ∈ l)) as [Hl|Hl],
                 (decide (CNode k ∈ CNode k0 :: l)) as [Hc|Hc]; try done.
        -- exfalso. apply Hc. by right.
        -- exfalso. apply elem_of_cons in Hc as [?|?]; [congruence|done].
    + rewrite IH. destruct (decide (CNode k ∈ l)) as [Hl|Hl],
                 (decide (CNode k ∈ CText s :: l)) as [Hc|Hc]; try done.
      * exfalso. apply Hc. by right.
      * exfalso. apply elem_of_cons in Hc as [?|?]; [congruence|done].
Qed.




(** *** What a computation leaves alone *)

(** [m] never changes what [obs] observes of the world, whether it returns
    or throws. *)
Definition preserves {X A} (obs : World → X) (m : M A) : Prop :=
  ∀ w, obs (world_of (m w)) = obs w.

Lemma preserves_ret {X A} (obs : World → X) (a : A) : preserves obs (ret a).
Proof. by intros w. Qed.

Lemma preserves_throw {X A} (obs : World → X) e : preserves obs (@throw A e).
Proof. by intros w. Qed.

Lemma preserves_bind {X A B} (obs : World → X) (m : M A) (k : A → M B) :
  preserves obs m → (∀ a, preserves obs (k a)) → preserves obs (bind m k).
Proof.
  intros Hm Hk w. unfold bind. specialize (Hm w).
  destruct (m w) as [a w'|e w']; simpl in *; [|done]. by rewrite Hk.
Qed.

Lemma preserves_forEach {X A} (obs : World → X) (l : list A) (f : A → M unit) :
  (∀ a, preserves obs (f a)) → preserves obs (forEach l f).
Proof.
  intros Hf. induction l as [|a l IH]; simpl.
  - apply preserves_ret.
  - apply preserves_bind; [apply Hf|by intros _].
Qed.

Lemma preserves_modify {X} (obs : World → X) (f : World → World) :
  (∀ w, obs (f w) = obs w) → preserves obs (modify f).
Proof. intros Hf w. apply Hf. Qed.

Lemma preserves_deref {X} (obs : World → X) o : preserves obs (deref o).
Proof. by destruct o. Qed.

Lemma preserves_replaceChild {X} (obs : World → X) p new old :
  (∀ f w, obs (with_nodes f w) = obs w) → preserves obs (replaceChild p new old).
Proof.
  intros Hb w. unfold replaceChild.
  destruct (_ ≫= _) as [q|]; [|done]. case_decide; [|done]. simpl. apply Hb.
Qed.

Lemma preserves_cloneNode_deep {X} (obs : World → X) n :
  (∀ f w, obs (with_nodes f w) = obs w) → preserves obs (cloneNode_deep n).
Proof.
  intros Hb w. unfold cloneNode_deep. destruct (subtree w n) as [t|]; [|done].
  destruct (alloc_tree _ _ _) as [m [k|s]]; [|done]. simpl. apply Hb.
Qed.

Lemma preserves_set_document_title {X} (obs : World → X) s :
  (∀ f w, obs (with_nodes f w) = obs w) → preserves obs (set_document_title s).
Proof.
  intros Hb w.
  unfold set_document_title, bind, documentElement, get_world, svg_title_child,
    title_element, head_element, createElement, prependChild, set_textContent, appendChild,
    modify, ret.
  repeat case_match; simplify_eq; simpl; rewrite ?Hb; done.
Qed.

Lemma preserves_set_lang {X} (obs : World → X) n v :
  (∀ f w, obs (with_nodes f w) = obs w) → (∀ f w, obs (with_own_props f w) = obs w) →
  preserves obs (set_lang n v).
Proof.
  intros Hb Ht w. unfold set_lang, bind, get_world, setAttribute, modify, alter_node.
  repeat case_match; simpl; rewrite ?Hb, ?Ht; done.
Qed.

Lemma preserves_set_type {X} (obs : World → X) n v :
  (∀ f w, obs (with_nodes f w) = obs w) → (∀ f w, obs (with_own_props f w) = obs w) →
  preserves obs (set_type n v).
Proof.
  intros Hb Ht w. unfold set_type, setAttribute, modify, alter_node.
  repeat case_match; simpl; rewrite ?Hb, ?Ht; done.
Qed.

(** Step through a computation: binds and loops by the lemmas above, case
    distinctions by cases, and a single operation by computing what it
    does to the observed part of the world. *)
Ltac frame_step :=
  match goal with
  | |- preserves _ (bind _ _) => apply preserves_bind; [|intros ?]
  | |- preserves _ (set_type _ _) => apply preserves_set_type; by intros
  | |- preserves _ (set_lang _ _) => apply preserves_set_lang; by intros
  | |- preserves _ (set_document_title _) => apply preserves_set_document_title; by intros
  | |- preserves _ (forEach _ _) => apply preserves_forEach; intros ?
  | |- preserves _ (ret _) => apply preserves_ret
  | |- preserves _ (deref _) => apply preserves_deref
  | |- preserves _ (replaceChild _ _ _) => apply preserves_replaceChild; by intros
  | |- preserves _ (cloneNode_deep _) => apply preserves_cloneNode_deep; by intros
  | |- preserves _ (match ?x with _ => _ end) => destruct x
  | |- preserves _ (if ?b then _ else _) => destruct b
  | |- preserves _ _ => solve [auto]
  | |- preserves _ _ => by intros ?
  end.

Ltac frame := repeat frame_step.

(** *** [restoreSendButtonAndInput] *)



(** *** Timers *)





















(** *** The body of a message *)

Definition children_of (w : World) (n : nat) : list child :=
  match nodes w !! n with
  | Some e => children e
  | None => []
  end.

Lemma detach_is_Some c n (m : gmap nat Node) : is_Some (detach c m !! n) ↔ is_Some (m !! n).
Proof.
  unfold detach. destruct (m !! c) as [e|]; [|done].
  destruct (parent e); [|done]. by rewrite !alter_is_Some.
Qed.

Lemma filter_not_elem (x : child) (l : list child) :
  x ∉ l → filter (λ y, y ≠ x) l = l.
Proof.
  induction l as [|y l IH]; [done|]. intros Hx.
  apply not_elem_of_cons in Hx as [Hne Hl].
  rewrite filter_cons. rewrite decide_True by done. by rewrite IH.
Qed.

(** The children of [p] after [p.appendChild(c)], when [c] was not among
    them: [c] comes last. *)
Lemma appendChild_children p c (w : World) :
  is_Some (nodes w !! p) → CNode c ∉ children_of w p →
  children_of (world_of (appendChild p c w)) p = children_of w p ++ [CNode c].
Proof.
  intros [e He] Hc. unfold children_of in *. rewrite He in *. simpl.
  rewrite lookup_alter_eq.
  assert (Hd : ∃ e', detach c (nodes w) !! p = Some e' ∧ children e' = children e).
  { unfold detach. destruct (nodes w !! c) as [ec|] eqn:Hec; [|by exists e].
    destruct (parent ec) as [q|]; [|by exists e].
    rewrite lookup_alter. destruct (decide (q = p)) as [->|Hq].
    - rewrite lookup_alter. destruct (decide (c = p)) as [->|Hcp].
      + rewrite He. simpl. eexists. split; [done|]. simpl. by apply filter_not_elem.
      + rewrite He. simpl. eexists. split; [done|]. simpl. by apply filter_not_elem.
    - rewrite lookup_alter. destruct (decide (c = p)) as [->|Hcp].
      + rewrite He. simpl. by eexists.
      + by exists e. }
  destruct Hd as (e' & He' & Hch).
  rewrite lookup_alter. destruct (decide (c = p)) as [->|Hcp].
  - rewrite He'. simpl. by rewrite Hch.
  - rewrite He'. simpl. by rewrite Hch.
Qed.

Lemma appendChild_is_Some p c n (w : World) :
  is_Some (nodes (world_of (appendChild p c w)) !! n) ↔ is_Some (nodes w !! n).
Proof. simpl. rewrite !alter_is_Some. apply detach_is_Some. Qed.





Lemma matches_class (m : gmap nat Node) c a :
  matches m [by_class [c]] a = true →
  ∃ e, m !! a = Some e ∧ node_has_class e c = true.
Proof.
  unfold matches. simpl. rewrite andb_true_iff. intros [H _].
  unfold matches_compound in H. destruct (m !! a) as [e|]; [|done].
  exists e. split; [done|]. unfold node_matches in H. simpl in H.
  by destruct (node_has_class e c).
Qed.

Lemma querySelector_class n c (w : World) :
  ∃ r, querySelector n [by_class [c]] w = Ok r w
       ∧ ∀ a, r = Some a → has_class w a c = true.
Proof.
  unfold querySelector, bind, querySelectorAll, ret. eexists. split; [done|].
  intros a Ha. apply head_Some_elem_of in Ha. apply list_elem_of_filter in Ha as [Ha _].
  apply matches_class in Ha as (e & He & Hc). unfold has_class. by rewrite He.
Qed.

Lemma children_of_scrolled f (w : World) n :
  children_of (with_scrolled f w) n = children_of w n.
Proof. done. Qed.
























(** *** Buttons are added once *)

(** Heap [m'] still has node [n], with the classes it has in [m]. *)
Definition same_classes (n : nat) (m m' : gmap nat Node) : Prop :=
  ∀ e, m !! n = Some e → ∃ e', m' !! n = Some e' ∧ classes e' = classes e.

Lemma same_classes_refl n m : same_classes n m m.
Proof. intros e He. by exists e. Qed.

Lemma same_classes_trans n m1 m2 m3 :
  same_classes n m1 m2 → same_classes n m2 m3 → same_classes n m1 m3.
Proof.
  intros H12 H23 e He. destruct (H12 e He) as (e2 & He2 & Hc2).
  destruct (H23 e2 He2) as (e3 & He3 & Hc3). exists e3. split; [done|congruence].
Qed.

Lemma same_classes_alter n k (f : Node → Node) m :
  (∀ e, classes (f e) = classes e) → same_classes n m (alter f k m).
Proof.
  intros Hf e He. rewrite lookup_alter. case_decide; [subst|by exists e].
  rewrite He. simpl. by eexists.
Qed.

Lemma same_classes_alter_ne n k (f : Node → Node) m :
  k ≠ n → same_classes n m (alter f k m).
Proof. intros Hne e He. rewrite lookup_alter_ne by done. by exists e. Qed.

Lemma same_classes_detach n c m : same_classes n m (detach c m).
Proof.
  unfold detach. destruct (m !! c) as [ec|]; [|apply same_classes_refl].
  destruct (parent ec); [|apply same_classes_refl].
  eapply same_classes_trans; by apply same_classes_alter.
Qed.

Lemma same_classes_orphan n k m : same_classes n m (orphan_children k m).
Proof.
  unfold orphan_children. destruct (m !! k) as [ek|]; [|apply same_classes_refl].
  induction (children ek) as [|c l IH]; [apply same_classes_refl|]. simpl.
  destruct c; [|done]. eapply same_classes_trans; [done|]. by apply same_classes_alter.
Qed.

Lemma same_classes_alloc n p ts m : same_classes n m (alloc_forest p ts m).1.
Proof.
  destruct (alloc_forest_ok p ts m) as (Hold & _). intros e He. exists e.
  split; [|done]. rewrite Hold; [done|by rewrite He].
Qed.

(** [m] returns, and node [n] is still there afterwards, with its classes. *)
Definition steady {A} (n : nat) (m : M A) : Prop :=
  ∀ w, is_Some (nodes w !! n) →
    ∃ a w', m w = Ok a w' ∧ same_classes n (nodes w) (nodes w').

Lemma steady_bind {A B} n (m : M A) (k : A → M B) :
  steady n m → (∀ a, steady n (k a)) → steady n (bind m k).
Proof.
  intros Hm Hk w Hn. destruct (Hm w Hn) as (a & w1 & Hrun & Hs). unfold bind. rewrite Hrun.
  destruct (Hk a w1) as (b & w2 & Hrun2 & Hs2).
  { destruct Hn as [e He]. destruct (Hs e He) as (e' & He' & _). by rewrite He'. }
  exists b, w2. split; [done|]. by eapply same_classes_trans.
Qed.

Lemma steady_create {B} n t (k : nat → M B) :
  (∀ c, c ≠ n → steady n (k c)) → steady n (bind (createElement t) k).
Proof.
  intros Hk w Hn. unfold bind, createElement.
  assert (Hne : fresh_id (nodes w) ≠ n) by (apply not_eq_sym, fresh_id_ne, Hn).
  destruct (Hk _ Hne (with_nodes (insert (fresh_id (nodes w)) (new_element t)) w))
    as (b & w2 & Hrun & Hs).
  { simpl. by rewrite lookup_insert_ne. }
  exists b, w2. split; [done|]. eapply same_classes_trans; [|done].
  intros e He. exists e. simpl. by rewrite lookup_insert_ne.
Qed.

Lemma steady_forEach {A} n (l : list A) (f : A → M unit) :
  (∀ a, steady n (f a)) → steady n (forEach l f).
Proof.
  intros Hf. induction l as [|a l IH]; simpl.
  - intros w _. exists tt, w. split; [done|apply same_classes_refl].
  - apply steady_bind; [apply Hf|by intros _].
Qed.

Lemma steady_heap {A} n (a : A) (f : gmap nat Node → gmap nat Node) :
  (∀ m, same_classes n m (f m)) → steady n (λ w, Ok a (with_nodes f w)).
Proof. intros Hf w _. exists a, (with_nodes f w). split; [done|apply Hf]. Qed.

Lemma steady_read {A} n (g : World → A) : steady n (λ w, Ok (g w) w).
Proof. intros w _. exists (g w), w. split; [done|apply same_classes_refl]. Qed.

Lemma steady_appendChild n p c : steady n (appendChild p c).
Proof.
  apply (steady_heap n tt). intros m.
  eapply same_classes_trans; [apply same_classes_detach|].
  eapply same_classes_trans; by apply same_classes_alter.
Qed.

Lemma steady_set_innerHTML n k s : steady n (set_innerHTML k s).
Proof.
  apply (steady_heap n tt). intros m.
  pose proof (same_classes_alloc n (Some k) (parseHTML s) (orphan_children k m)) as Ha.
  destruct (alloc_forest (Some k) (parseHTML s) (orphan_children k m)) as [m' cs].
  eapply same_classes_trans; [apply same_classes_orphan|].
  eapply same_classes_trans; [apply Ha|]. by apply same_classes_alter.
Qed.

Lemma steady_createElement n t : steady n (createElement t).
Proof.
  intros w Hn. unfold createElement. eexists _, _. split; [done|].
  intros e He. exists e. simpl. rewrite lookup_insert_ne; [done|].
  by apply not_eq_sym, fresh_id_ne.
Qed.

Ltac steady_step :=
  match goal with
  | |- steady _ (bind (createElement _) _) => apply steady_create; intros ? ?
  | |- steady _ (bind _ _) => apply steady_bind; [|intros ?]
  | |- steady _ (forEach _ _) => apply steady_forEach; intros ?
  | |- steady _ (createElement _) => apply steady_createElement
  | |- steady _ (appendChild _ _) => apply steady_appendChild
  | |- steady _ (set_innerHTML _ _) => apply steady_set_innerHTML
  | |- steady _ (setAttribute _ _ _) =>
      apply (steady_heap _ tt); intros ?; by apply same_classes_alter
  | |- steady _ (addEventListener _ _ _ _) =>
      apply (steady_heap _ tt); intros ?; by apply same_classes_alter
  | |- steady _ (classList_add _ _) =>
      apply (steady_heap _ tt); intros ?; by apply same_classes_alter_ne
  | |- steady _ (set_className _ _) =>
      apply (steady_heap _ tt); intros ?; by apply same_classes_alter_ne
  end.

(** [m] returns with [c] among the children of [p]. *)
Definition attaches (p c : nat) (m : M unit) : Prop :=
  ∀ w, is_Some (nodes w !! p) →
    ∃ w', m w = Ok tt w' ∧ is_Some (nodes w' !! p) ∧ CNode c ∈ children_of w' p.

Lemma attaches_bind {A} p c (m : M A) (k : A → M unit) :
  steady p m → (∀ a, attaches p c (k a)) → attaches p c (bind m k).
Proof.
  intros Hm Hk w Hp. destruct (Hm w Hp) as (a & w1 & Hrun & Hs).
  unfold bind. rewrite Hrun. apply Hk.
  destruct Hp as [e He]. destruct (Hs e He) as (e' & He' & _). by rewrite He'.
Qed.

Lemma attaches_appendChild p c : attaches p c (appendChild p c).
Proof.
  intros w Hp. exists (world_of (appendChild p c w)).
  split; [done|]. split; [by apply appendChild_is_Some|].
  apply (appendChild_is_Some p c p) in Hp. destruct Hp as [e He].
  unfold children_of. rewrite He. simpl in He.
  rewrite lookup_alter_eq in He.
  destruct (alter _ c _ !! p) as [e0|]; simpl in He; [|done]. simplify_eq. simpl.
  apply elem_of_app. right. by left.
Qed.

Lemma head_is_Some_elem {A} (x : A) (l : list A) : x ∈ l → is_Some (head l).
Proof. destruct l; [by intros ?%elem_of_nil|by eexists]. Qed.

(** [querySelector] finds something when a child carries the class. *)
Lemma querySelector_finds_child p b c (w : World) :
  is_Some (nodes w !! p) → CNode b ∈ children_of w p → has_class w b c = true →
  ∃ x, querySelector p [by_class [c]] w = Ok (Some x) w.
Proof.
  intros [e He] Hb Hc. unfold querySelector, bind, querySelectorAll, ret.
  match goal with |- context [head ?l] => assert (Hl : is_Some (head l)) end.
  { apply (head_is_Some_elem b). apply list_elem_of_filter. split.
    - unfold has_class in Hc. unfold matches, matches_compound. simpl.
      destruct (nodes w !! b) as [eb|]; [|done].
      unfold node_matches. simpl. rewrite Hc. simpl.
      by destruct (ancestors _ _ _).
    - destruct (size (nodes w)) as [|f] eqn:Hsz.
      { apply map_size_empty_iff in Hsz. rewrite Hsz in He. by rewrite lookup_empty in He. }
      simpl. rewrite He. unfold children_of in Hb. rewrite He in Hb.
      apply list_elem_of_In, in_flat_map. exists (CNode b).
      split; [by apply list_elem_of_In|]. by left. }
  destruct Hl as [x Hx]. exists x. by rewrite Hx.
Qed.

Lemma attaches_create p c t (k : nat → M unit) :
  (∀ x, x ≠ p → attaches p c (k x)) → attaches p c (bind (createElement t) k).
Proof.
  intros Hk w Hp. unfold bind, createElement. apply Hk.
  - by apply not_eq_sym, fresh_id_ne.
  - simpl. rewrite lookup_insert_ne; [done|]. by apply not_eq_sym, fresh_id_ne.
Qed.

Ltac attaches_step :=
  match goal with
  | |- attaches _ _ (bind (createElement _) _) => apply attaches_create; intros ? ?
  | |- attaches _ _ (bind _ _) => apply attaches_bind; [repeat steady_step|intros ?]
  | |- attaches _ _ (appendChild _ _) => apply attaches_appendChild
  end.

Lemma has_class_steady {A} n c (m : M A) (w : World) :
  steady n m → has_class w n c = true →
  ∃ a w', m w = Ok a w' ∧ has_class w' n c = true.
Proof.
  intros Hm Hc. unfold has_class in Hc.
  destruct (nodes w !! n) as [e|] eqn:He; [|done].
  destruct (Hm w) as (a & w' & Hrun & Hs); [by rewrite He|].
  exists a, w'. split; [done|]. destruct (Hs e He) as (e' & He' & Hcl).
  unfold has_class. rewrite He'. unfold node_has_class in *. by rewrite Hcl.
Qed.

Lemma addCopyButtonToCodeBlock_first block tr cb (w : World) :
  is_Some (nodes w !! block) →
  querySelector block [by_class ["code-copy-button"]] w = Ok None w →
  ∃ w1,
    addCopyButtonToCodeBlock block tr cb w = Ok tt w1
    ∧ is_Some (nodes w1 !! block)
    ∧ CNode (fresh_id (nodes w)) ∈ children_of w1 block
    ∧ has_class w1 (fresh_id (nodes w)) "code-copy-button" = true.
Proof.
  intros Hb Hq. unfold addCopyButtonToCodeBlock. unfold bind at 1. rewrite Hq.
  unfold bind at 1. unfold createElement at 1. set (btn := fresh_id (nodes w)).
  unfold bind at 1. unfold classList_add, modify.
  set (w1 := alter_node _ btn _).
  assert (Hne : block ≠ btn) by by apply fresh_id_ne.
  assert (Hb1 : is_Some (nodes w1 !! block)).
  { subst w1. simpl. by rewrite lookup_alter_ne, lookup_insert_ne. }
  assert (Hc1 : has_class w1 btn "code-copy-button" = true).
  { subst w1. unfold has_class. simpl. by rewrite lookup_alter_eq, lookup_insert_eq. }
  match goal with |- ∃ w2, ?m w1 = Ok tt w2 ∧ _ => set (rest := m) end.
  assert (Hat : attaches block btn rest) by (subst rest; repeat attaches_step).
  assert (Hst : steady btn rest) by (subst rest; repeat steady_step).
  destruct (Hat w1 Hb1) as (w2 & Hrun & Hb2 & Hin).
  destruct (has_class_steady btn "code-copy-button" rest w1 Hst Hc1) as ([] & w2' & Hrun' & Hc2).
  assert (w2' = w2) as -> by congruence.
  by exists w2.
Qed.

Lemma addMessageActionButtons_first messageElement content tr c r d (w : World) id :
  is_Some (nodes w !! messageElement) →
  get_attr w messageElement "data-message-id" = Some id → id ≠ "" →
  querySelector messageElement [by_class ["message-actions"]] w = Ok None w →
  ∃ w1,
    addMessageActionButtons messageElement content tr c r d w = Ok tt w1
    ∧ is_Some (nodes w1 !! messageElement)
    ∧ CNode (fresh_id (nodes w)) ∈ children_of w1 messageElement
    ∧ has_class w1 (fresh_id (nodes w)) "message-actions" = true.
Proof.
  intros Hm Hid Hne Hq. unfold addMessageActionButtons.
  unfold bind at 1. unfold dataset, getAttribute.
  change ("data-" +:+ "message-id") with "data-message-id". rewrite Hid.
  assert (Ht : truthy id = true).
  { unfold truthy. by destruct (String.eqb_spec id ""). }
  cbv beta iota. rewrite Ht. change (negb true) with false. cbv beta iota.
  unfold bind at 1. rewrite Hq.
  unfold bind at 1. unfold createElement at 1. set (actions := fresh_id (nodes w)).
  unfold bind at 1. unfold set_className at 1. unfold modify.
  set (w1 := alter_node _ actions _).
  assert (Hna : messageElement ≠ actions) by by apply fresh_id_ne.
  assert (Hm1 : is_Some (nodes w1 !! messageElement)).
  { subst w1. simpl. by rewrite lookup_alter_ne, lookup_insert_ne. }
  assert (Hc1 : has_class w1 actions "message-actions" = true).
  { subst w1. unfold has_class. simpl. rewrite lookup_alter_eq, lookup_insert_eq. simpl.
    by vm_compute. }
  match goal with |- ∃ w2, ?m w1 = Ok tt w2 ∧ _ => set (rest := m) end.
  assert (Hat : attaches messageElement actions rest) by (subst rest; repeat attaches_step).
  assert (Hst : steady actions rest) by (subst rest; repeat steady_step).
  destruct (Hat w1 Hm1) as (w2 & Hrun & Hb2 & Hin).
  destruct (has_class_steady actions "message-actions" rest w1 Hst Hc1)
    as ([] & w2' & Hrun' & Hc2).
  assert (w2' = w2) as -> by congruence.
  by exists w2.
Qed.

Lemma addCopyButtonToCodeBlock_guard block tr cb (w : World) found :
  querySelector block [by_class ["code-copy-button"]] w = Ok (Some found) w →
  addCopyButtonToCodeBlock block tr cb w = Ok tt w.
Proof. intros Hq. unfold addCopyButtonToCodeBlock. unfold bind at 1. by rewrite Hq. Qed.

Lemma addMessageActionButtons_guard messageElement content tr c r d (w : World) found :
  querySelector messageElement [by_class ["message-actions"]] w = Ok (Some found) w →
  addMessageActionButtons messageElement content tr c r d w = Ok tt w.
Proof.
  intros Hq. unfold addMessageActionButtons. unfold bind at 1. unfold dataset, getAttribute.
  destruct (get_attr w messageElement _) as [id|]; [|done].
  destruct (truthy id); [|done]. simpl. unfold bind at 1. by rewrite Hq.
Qed.

Lemma addMessageActionButtons_no_id messageElement content tr c r d (w : World) :
  get_attr w messageElement "data-message-id" = None
  ∨ get_attr w messageElement "data-message-id" = Some "" →
  addMessageActionButtons messageElement content tr c r d w = Ok tt w.
Proof.
  intros H. unfold addMessageActionButtons. unfold bind at 1. unfold dataset, getAttribute.
  change ("data-" +:+ "message-id") with "data-message-id". by destruct H as [-> | ->].
Qed.

(** Node [p] is in the heap with children [L], themselves in the heap. *)
Definition has_children (p : nat) (L : list child) (m : gmap nat Node) : Prop :=
  (∃ e, m !! p = Some e ∧ children e = L) ∧ ∀ k, CNode k ∈ L → is_Some (m !! k).

Lemma has_children_alter p L k (f : Node → Node) m :
  (∀ e, children (f e) = children e) →
  has_children p L m → has_children p L (alter f k m).
Proof.
  intros Hf [(e & He & HL) Hin]. split.
  - rewrite lookup_alter. case_decide; [subst|by exists e].
    rewrite He. simpl. eexists. split; [done|]. by rewrite Hf.
  - intros x Hx. rewrite alter_is_Some. by apply Hin.
Qed.

Lemma has_children_alter_ne p L k (f : Node → Node) m :
  k ≠ p → has_children p L m → has_children p L (alter f k m).
Proof.
  intros Hne [(e & He & HL) Hin]. split.
  - rewrite lookup_alter_ne by done. by exists e.
  - intros x Hx. rewrite alter_is_Some. by apply Hin.
Qed.

Lemma has_children_unfilter p L c q m :
  CNode c ∉ L → has_children p L m →
  has_children p L (alter (with_children (filter (λ x, x ≠ CNode c))) q m).
Proof.
  intros Hc [(e & He & HL) Hin]. split.
  - rewrite lookup_alter. case_decide; [subst q|by exists e].
    rewrite He. simpl. eexists. split; [done|]. simpl.
    rewrite HL. by apply filter_not_elem.
  - intros x Hx. rewrite alter_is_Some. by apply Hin.
Qed.

Lemma has_children_detach p L c m :
  CNode c ∉ L → has_children p L m → has_children p L (detach c m).
Proof.
  intros Hc H. unfold detach. destruct (m !! c) as [ec|]; [|done].
  destruct (parent ec); [|done].
  apply has_children_unfilter; [done|]. by apply has_children_alter.
Qed.

Lemma has_children_orphan p L k m :
  has_children p L m → has_children p L (orphan_children k m).
Proof.
  intros H. unfold orphan_children. destruct (m !! k) as [ek|]; [|done].
  induction (children ek) as [|c l IH]; [done|]. simpl.
  destruct c; [|done]. by apply has_children_alter.
Qed.

Lemma has_children_alloc p L q ts m :
  has_children p L m → has_children p L (alloc_forest q ts m).1.
Proof.
  intros [(e & He & HL) Hin]. destruct (alloc_forest_ok q ts m) as (Hold & _). split.
  - exists e. split; [|done]. rewrite Hold; [done|by rewrite He].
  - intros x Hx. rewrite Hold by by apply Hin. by apply Hin.
Qed.

Lemma has_children_fresh p L m :
  has_children p L m → fresh_id m ≠ p ∧ CNode (fresh_id m) ∉ L.
Proof.
  intros [(e & He & HL) Hin]. split.
  - apply not_eq_sym, fresh_id_ne. by rewrite He.
  - intros Hx. apply Hin in Hx. destruct Hx as [ex Hex]. by rewrite fresh_id_None in Hex.
Qed.

Lemma has_children_insert_fresh p L m e0 :
  has_children p L m → has_children p L (<[fresh_id m := e0]> m).
Proof.
  intros H. pose proof (has_children_fresh p L m H) as [Hne Hnot].
  destruct H as [(e & He & HL) Hin]. split.
  - exists e. by rewrite lookup_insert_ne.
  - intros x Hx. rewrite lookup_insert_ne; [by apply Hin|].
    intros <-. by apply Hnot.
Qed.

(** [m] returns and leaves the child list [L] of [p] as it is. *)
Definition beside {A} (p : nat) (L : list child) (m : M A) : Prop :=
  ∀ w, has_children p L (nodes w) →
    ∃ a w', m w = Ok a w' ∧ has_children p L (nodes w').

Lemma beside_bind {A B} p L (m : M A) (k : A → M B) :
  beside p L m → (∀ a, beside p L (k a)) → beside p L (bind m k).
Proof.
  intros Hm Hk w Hw. destruct (Hm w Hw) as (a & w1 & Hrun & H1).
  unfold bind. rewrite Hrun. by apply Hk.
Qed.

Lemma beside_create {B} p L t (k : nat → M B) :
  (∀ c, c ≠ p → CNode c ∉ L → beside p L (k c)) →
  beside p L (bind (createElement t) k).
Proof.
  intros Hk w Hw. unfold bind, createElement.
  destruct (has_children_fresh p L (nodes w) Hw) as [Hne Hnot].
  apply Hk; [done..|]. simpl. by apply has_children_insert_fresh.
Qed.

Lemma beside_forEach {A} p L (l : list A) (f : A → M unit) :
  (∀ a, beside p L (f a)) → beside p L (forEach l f).
Proof.
  intros Hf. induction l as [|a l IH]; simpl.
  - intros w Hw. by exists tt, w.
  - apply beside_bind; [apply Hf|by intros _].
Qed.

Lemma beside_heap {A} p L (a : A) (f : gmap nat Node → gmap nat Node) :
  (∀ m, has_children p L m → has_children p L (f m)) →
  beside p L (λ w, Ok a (with_nodes f w)).
Proof. intros Hf w Hw. exists a, (with_nodes f w). split; [done|]. by apply Hf. Qed.

Lemma beside_appendChild p L q c :
  q ≠ p → CNode c ∉ L → beside p L (appendChild q c).
Proof.
  intros Hq Hc. apply (beside_heap p L tt). intros m Hm.
  apply has_children_alter_ne; [done|]. apply has_children_alter; [done|].
  by apply has_children_detach.
Qed.

Lemma beside_set_innerHTML p L k s :
  k ≠ p → beside p L (set_innerHTML k s).
Proof.
  intros Hk. apply (beside_heap p L tt). intros m Hm.
  pose proof (has_children_alloc p L (Some k) (parseHTML s) (orphan_children k m)
                (has_children_orphan p L k m Hm)) as Ha.
  destruct (alloc_forest (Some k) (parseHTML s) (orphan_children k m)) as [m' cs].
  by apply has_children_alter_ne.
Qed.

Ltac beside_step :=
  match goal with
  | |- beside _ _ (bind (createElement _) _) => apply beside_create; intros ? ? ?
  | |- beside _ _ (bind _ _) => apply beside_bind; [|intros ?]
  | |- beside _ _ (forEach (_ :: _) _) => cbn [forEach]
  | |- beside _ _ (ret _) => by intros w' Hw'; eexists _, w'
  | |- beside _ _ (forEach _ _) => apply beside_forEach; intros ?
  | |- beside _ _ (appendChild _ _) => by apply beside_appendChild
  | |- beside _ _ (set_innerHTML _ _) => by apply beside_set_innerHTML
  | |- beside _ _ (setAttribute _ _ _) =>
      apply (beside_heap _ _ tt); intros ? ?; by apply has_children_alter
  | |- beside _ _ (addEventListener _ _ _ _) =>
      apply (beside_heap _ _ tt); intros ? ?; by apply has_children_alter
  | |- beside _ _ (classList_add _ _) =>
      apply (beside_heap _ _ tt); intros ? ?; by apply has_children_alter
  | |- beside _ _ (set_className _ _) =>
      apply (beside_heap _ _ tt); intros ? ?; by apply has_children_alter
  end.

(** [m] returns with [c] added at the end of the children [L] of [p]. *)
Definition appends (p : nat) (L : list child) (c : nat) (m : M unit) : Prop :=
  ∀ w, has_children p L (nodes w) →
    ∃ w', m w = Ok tt w' ∧ children_of w' p = L ++ [CNode c].

Lemma appends_bind {A} p L c (m : M A) (k : A → M unit) :
  beside p L m → (∀ a, appends p L c (k a)) → appends p L c (bind m k).
Proof.
  intros Hm Hk w Hw. destruct (Hm w Hw) as (a & w1 & Hrun & H1).
  unfold bind. rewrite Hrun. by apply Hk.
Qed.

Lemma appends_create p L c t (k : nat → M unit) :
  (∀ x, x ≠ p → CNode x ∉ L → appends p L c (k x)) →
  appends p L c (bind (createElement t) k).
Proof.
  intros Hk w Hw. unfold bind, createElement.
  destruct (has_children_fresh p L (nodes w) Hw) as [Hne Hnot].
  apply Hk; [done..|]. simpl. by apply has_children_insert_fresh.
Qed.

Lemma appends_new p L t (k : nat → M unit) (w : World) :
  (∀ x, x ≠ p → CNode x ∉ L → appends p L x (k x)) →
  has_children p L (nodes w) →
  ∃ w', bind (createElement t) k w = Ok tt w'
        ∧ children_of w' p = L ++ [CNode (fresh_id (nodes w))].
Proof.
  intros Hk Hw. unfold bind, createElement.
  destruct (has_children_fresh p L (nodes w) Hw) as [Hne Hnot].
  apply Hk; [done..|]. simpl. by apply has_children_insert_fresh.
Qed.

Lemma appends_appendChild p L c : CNode c ∉ L → appends p L c (appendChild p c).
Proof.
  intros Hc w [(e & He & HL) _]. exists (world_of (appendChild p c w)). split; [done|].
  rewrite appendChild_children.
  - unfold children_of. by rewrite He, HL.
  - by rewrite He.
  - unfold children_of. by rewrite He, HL.
Qed.

Ltac appends_step :=
  match goal with
  | |- appends _ _ _ (bind (createElement _) _) => apply appends_create; intros ? ? ?
  | |- appends _ _ _ (bind _ _) => apply appends_bind; [repeat beside_step|intros ?]
  | |- appends _ _ _ (appendChild _ _) => by apply appends_appendChild
  end.

Lemma addCopyButtonToCodeBlock_appends block tr cb (w : World) L :
  has_children block L (nodes w) →
  querySelector block [by_class ["code-copy-button"]] w = Ok None w →
  ∃ w1,
    addCopyButtonToCodeBlock block tr cb w = Ok tt w1
    ∧ children_of w1 block = L ++ [CNode (fresh_id (nodes w))].
Proof.
  intros Hw Hq. unfold addCopyButtonToCodeBlock. unfold bind at 1. rewrite Hq.
  apply appends_new; [|done]. intros btn Hne Hnot.
  repeat appends_step.
Qed.

Lemma addMessageActionButtons_appends messageElement content tr c r d (w : World) id L :
  has_children messageElement L (nodes w) →
  get_attr w messageElement "data-message-id" = Some id → id ≠ "" →
  querySelector messageElement [by_class ["message-actions"]] w = Ok None w →
  ∃ w1,
    addMessageActionButtons messageElement content tr c r d w = Ok tt w1
    ∧ children_of w1 messageElement = L ++ [CNode (fresh_id (nodes w))].
Proof.
  intros Hw Hid Hne Hq. unfold addMessageActionButtons.
  unfold bind at 1. unfold dataset, getAttribute.
  change ("data-" +:+ "message-id") with "data-message-id". rewrite Hid.
  assert (Ht : truthy id = true).
  { unfold truthy. by destruct (String.eqb_spec id ""). }
  cbv beta iota. rewrite Ht. change (negb true) with false. cbv beta iota.
  unfold bind at 1. rewrite Hq.
  apply appends_new; [|done]. intros actions Hna Hnot.
  repeat appends_step.
Qed.

(** C9.  [addCopyButtonToCodeBlock] returns without changing anything when
    the block already has a [.code-copy-button] descendant, and so does
    [addMessageActionButtons] when the message already has a
    [.message-actions] descendant, or has no [dataset.messageId] (or an
    empty one).  After a call on an element of the page the descendant is
    there, so a second call changes nothing: a block gets one copy button
    and a message one group of action buttons, however often the functions
    are called.  The call that finds no such descendant adds exactly one
    child, a new element, after the children the block (the message) had. *)
Theorem buttons_are_added_once (w : World) :
  (∀ block tr cb found,
     querySelector block [by_class ["code-copy-button"]] w = Ok (Some found) w →
     addCopyButtonToCodeBlock block tr cb w = Ok tt w)
  ∧ (∀ block tr cb tr' cb',
     is_Some (nodes w !! block) →
     ∃ w1 found,
       addCopyButtonToCodeBlock block tr cb w = Ok tt w1
       ∧ querySelector block [by_class ["code-copy-button"]] w1 = Ok (Some found) w1
       ∧ addCopyButtonToCodeBlock block tr' cb' w1 = Ok tt w1)
  ∧ (∀ messageElement content tr c r d found,
     querySelector messageElement [by_class ["message-actions"]] w = Ok (Some found) w →
     addMessageActionButtons messageElement content tr c r d w = Ok tt w)
  ∧ (∀ messageElement content tr c r d,
     get_attr w messageElement "data-message-id" = None
     ∨ get_attr w messageElement "data-message-id" = Some "" →
     addMessageActionButtons messageElement content tr c r d w = Ok tt w)
  ∧ (∀ messageElement content tr c r d content' tr' c' r' d',
     is_Some (nodes w !! messageElement) →
     ∃ w1,
       addMessageActionButtons messageElement content tr c r d w = Ok tt w1
       ∧ addMessageActionButtons messageElement content' tr' c' r' d' w1 = Ok tt w1)
  ∧ (∀ block tr cb L,
     has_children block L (nodes w) →
     querySelector block [by_class ["code-copy-button"]] w = Ok None w →
     ∃ w1,
       addCopyButtonToCodeBlock block tr cb w = Ok tt w1
       ∧ nodes w !! fresh_id (nodes w) = None
       ∧ children_of w1 block = L ++ [CNode (fresh_id (nodes w))])
  ∧ (∀ messageElement content tr c r d id L,
     has_children messageElement L (nodes w) →
     get_attr w messageElement "data-message-id" = Some id → id ≠ "" →
     querySelector messageElement [by_class ["message-actions"]] w = Ok None w →
     ∃ w1,
       addMessageActionButtons messageElement content tr c r d w = Ok tt w1
       ∧ nodes w !! fresh_id (nodes w) = None
       ∧ children_of w1 messageElement = L ++ [CNode (fresh_id (nodes w))]).
Proof.
  split; [intros; by eapply addCopyButtonToCodeBlock_guard|].
  split.
  { intros block tr cb tr' cb' Hb.
    destruct (querySelector_class block "code-copy-button" w) as ([found|] & Hq & _).
    - exists w, found. split; [by eapply addCopyButtonToCodeBlock_guard|].
      split; [done|]. by eapply addCopyButtonToCodeBlock_guard.
    - destruct (addCopyButtonToCodeBlock_first block tr cb w Hb Hq)
        as (w1 & Hrun & Hb1 & Hin & Hc).
      destruct (querySelector_finds_child block _ "code-copy-button" w1 Hb1 Hin Hc)
        as [found Hf].
      exists w1, found. split; [done|]. split; [done|].
      by eapply addCopyButtonToCodeBlock_guard. }
  split; [intros; by eapply addMessageActionButtons_guard|].
  split; [intros; by apply addMessageActionButtons_no_id|].
  split.
  2: { split.
       - intros block tr cb L HL Hq.
         destruct (addCopyButtonToCodeBlock_appends block tr cb w L HL Hq)
           as (w1 & Hrun & Hch).
         exists w1. split; [done|]. split; [apply fresh_id_None|done].
       - intros messageElement content tr c r d id L HL Hid Hne Hq.
         destruct (addMessageActionButtons_appends messageElement content tr c r d
                     w id L HL Hid Hne Hq) as (w1 & Hrun & Hch).
         exists w1. split; [done|]. split; [apply fresh_id_None|done]. }
  intros messageElement content tr c r d content' tr' c' r' d' Hm.
  destruct (get_attr w messageElement "data-message-id") as [id|] eqn:Hid.
  2: { exists w. split; apply addMessageActionButtons_no_id; by left. }
  destruct (decide (id = "")) as [->|Hne].
  { exists w. split; apply addMessageActionButtons_no_id; by right. }
  destruct (querySelector_class messageElement "message-actions" w) as ([found|] & Hq & _).
  - exists w. split; by eapply addMessageActionButtons_guard.
  - destruct (addMessageActionButtons_first messageElement content tr c r d w id Hm Hid Hne Hq)
      as (w1 & Hrun & Hb1 & Hin & Hc).
    destruct (querySelector_finds_child messageElement _ "message-actions" w1 Hb1 Hin Hc)
      as [found Hf].
    exists w1. split; [done|]. by eapply addMessageActionButtons_guard.
Qed.

(** ** Further properties *)

(** *** The translation helper and the footer *)

Lemma string_length_app (s t : string) :
  String.length (s +:+ t) = String.length s + String.length t.
Proof. induction s as [|a s IH]; simpl; [done|]. by rewrite IH. Qed.

Lemma translate_no_replacements key (tr : gmap string string) :
  translate key [] tr
  = match tr !! key with
    | Some t => if decide (t = "") then key else t
    | None => key
    end.
Proof.
  unfold translate. simpl. destruct (tr !! key) as [t|]; [|done].
  unfold truthy. destruct (String.eqb_spec t "") as [->|Hne]; simpl; [done|].
  by rewrite decide_False.
Qed.

Lemma translate_nonempty key (tr : gmap string string) :
  key ≠ "" → translate key [] tr ≠ "".
Proof.
  intros Hk. rewrite translate_no_replacements.
  destruct (tr !! key) as [t|]; [|done]. by case_decide.
Qed.

Lemma translate_value_no_replacements key (tr : gmap string string) :
  translate_value key [] tr
  = Some (match tr !! key with
          | Some t => TrString (if decide (t = "") then key else t)
          | None =>
              if decide (key ∈ object_prototype_members) then TrMember key
              else TrString key
          end).
Proof.
  unfold translate_value. simpl. destruct (tr !! key) as [t|]; [|done].
  unfold truthy. destruct (String.eqb_spec t "") as [->|Hne]; simpl; [done|].
  by rewrite decide_False.
Qed.

(** Where [_] returns a string, it is the string [translate] gives: at a
    key the translations have an entry for, and at every key that is no
    name of [Object.prototype]. *)
Lemma translate_value_string key rs (tr : gmap string string) :
  is_Some (tr !! key) ∨ key ∉ object_prototype_members →
  translate_value key rs tr = Some (TrString (translate key rs tr)).
Proof.
  intros H. unfold translate_value, translate.
  assert (Hstart :
    match tr !! key with
    | Some t => TrString (if truthy t then t else key)
    | None => if decide (key ∈ object_prototype_members) then TrMember key else TrString key
    end
    = TrString (match tr !! key with
                | Some t => if truthy t then t else key
                | None => key
                end)).
  { destruct (tr !! key) as [t|]; [done|]. destruct H as [[? H]|H]; [done|].
    by rewrite decide_False. }
  rewrite Hstart. clear Hstart H.
  generalize (match tr !! key with
              | Some t => if truthy t then t else key
              | None => key
              end).
  induction rs as [|r rs IH]; intros s; simpl; [done|]. apply IH.
Qed.

Lemma translate_value_thrown (rs : list (string * string)) :
  foldl (λ translation r,
           match translation with
           | Some (TrString s) => Some (TrString (js_replace s ("{" +:+ r.1 +:+ "}") r.2))
           | _ => None
           end) None rs = None.
Proof. induction rs as [|r rs IH]; simpl; [done|]. apply IH. Qed.

(** The keys that the file passes to [_] as literals are no names of
    [Object.prototype]: for them [translate] is what [_] returns. *)
Lemma literal_keys_are_ordinary :
  Forall (λ key, key ∉ object_prototype_members)
    ["imageAlt"; "connectionIndicatorConnected"; "connectionIndicatorDisconnected";
     "contextStatusPrefix"; "sendMessageTitle"; "copyCode"; "copyAll"; "regenerate";
     "deleteMessage"; "htmlLang"; "pageTitle"; "modelLabel"; "modelSelectLabel";
     "agentLabel"; "agentSelectLabel"; "clearContextTitle"; "closePanelTitle";
     "imagePreviewAltTranslated"; "uploadImageTitle"; "userInputPlaceholder"; "chatTab";
     "settingsTab"; "generalSettingsNav"; "agentSettingsNav"; "modelSettingsNav";
     "generalSettingsHeading"; "languageLabel"; "exportChatLabel"; "exportFormatMarkdown";
     "exportFormatText"; "exportButton"; "agentSettingsHeading"; "agentsListHeading";
     "addNewAgentTitle"; "importAgentConfigTitle"; "exportAgentConfigTitle";
     "deleteConfirmHeading"; "cancel"; "delete"; "modelSettingsHeading"; "apiKeyLabel";
     "apiKeyPlaceholder"; "toggleApiKeyVisibilityTitleTranslated";
     "modelSelectLabelSettings"; "save"; "themeToggleTitle"].
Proof.
  repeat (apply List.Forall_cons;
          [intros H; by repeat (apply elem_of_cons in H as [H|H]; [discriminate H|]);
             apply elem_of_nil in H|]).
  apply List.Forall_nil.
Qed.

(** X1.  The helper [_] returns the entry the translations have for the
    key, and the key itself when that entry is the empty string.  Without
    an entry it returns the key, unless the key is a name that every object
    inherits from [Object.prototype] (['constructor'], ['toString'], ...):
    then it returns that inherited member, which is no string, and throws
    a [TypeError] as soon as there is a placeholder to replace.  The
    placeholders are replaced one after the other, each in the result of
    the replacements before it. *)
Theorem translate_falls_back_to_key (key : string) (tr : gmap string string) :
  (∀ t, tr !! key = Some t → t ≠ "" → translate_value key [] tr = Some (TrString t))
  ∧ (tr !! key = Some "" → translate_value key [] tr = Some (TrString key))
  ∧ (tr !! key = None → key ∉ object_prototype_members →
     translate_value key [] tr = Some (TrString key)
     ∧ ∀ rs, translate_value key rs tr = translate_value key rs ∅)
  ∧ (tr !! key = None → key ∈ object_prototype_members →
     translate_value key [] tr = Some (TrMember key)
     ∧ ∀ r rs, translate_value key (r :: rs) tr = None)
  ∧ (∀ rs p v,
       translate_value key (rs ++ [(p, v)]) tr
       = match translate_value key rs tr with
         | Some (TrString s) => Some (TrString (js_replace s ("{" +:+ p +:+ "}") v))
         | _ => None
         end)
  ∧ (is_Some (tr !! key) ∨ key ∉ object_prototype_members →
     ∀ rs, translate_value key rs tr = Some (TrString (translate key rs tr))).
Proof.
  split; [|split; [|split; [|split; [|split]]]].
  - intros t Ht Hne. rewrite translate_value_no_replacements, Ht. by rewrite decide_False.
  - intros Ht. by rewrite translate_value_no_replacements, Ht.
  - intros Ht Hk. split.
    + rewrite translate_value_no_replacements, Ht. by rewrite decide_False.
    + intros rs. unfold translate_value. by rewrite Ht, lookup_empty.
  - intros Ht Hk. split.
    + rewrite translate_value_no_replacements, Ht. by rewrite decide_True.
    + intros r rs. unfold translate_value. rewrite Ht, decide_True by done. simpl.
      by apply translate_value_thrown.
  - intros rs p v. unfold translate_value. by rewrite foldl_app.
  - intros H rs. by apply translate_value_string.
Qed.

(** What [el.textContent = s] does to the heap. *)
Lemma set_textContent_lookup n s e (w : World) :
  nodes w !! n = Some e →
  ∃ w',
    set_textContent n s w = Ok tt w'
    ∧ outside_heap w' = outside_heap w
    ∧ nodes w' !! n
      = Some (with_children (λ _, if decide (s = "") then [] else [CText s])
                (if decide (CNode n ∈ children e) then with_parent None e else e))
    ∧ (∀ k, k ≠ n →
         nodes w' !! k
         = if decide (CNode k ∈ children e) then with_parent None <$> nodes w !! k
           else nodes w !! k)
    ∧ textContent w' n = s.
Proof.
  intros He. eexists. split; [reflexivity|]. split; [done|].
  assert (Hn : nodes (with_nodes (λ m, alter (with_children
                 (λ _, if decide (s = "") then [] else [CText s])) n
                 (orphan_children n m)) w) !! n
               = Some (with_children (λ _, if decide (s = "") then [] else [CText s])
                        (if decide (CNode n ∈ children e) then with_parent None e else e))).
  { simpl. rewrite lookup_alter_eq, (orphan_children_lookup n e) by done.
    rewrite He. by destruct (decide (CNode n ∈ children e)). }
  split; [exact Hn|]. split.
  - intros k Hk. simpl. rewrite lookup_alter_ne by done.
    by rewrite (orphan_children_lookup n e).
  - eapply textContent_single; [exact Hn|done].
Qed.

(** X2.  [updateConnectionIndicator] on an indicator of the page: its class
    list becomes the one class ['connected'] or ['disconnected'], whatever
    classes it had, and its content the one text node with the translated
    label (the key itself when there is no translation).  Its other fields
    are kept, its former element children are detached and nothing else
    changes. *)
Theorem updateConnectionIndicator_shows_state (isConnected : bool) (elements : Elements)
    (tr : gmap string string) (indicator : nat) (e : Node) (w : World) :
  connectionIndicator elements = Some indicator →
  nodes w !! indicator = Some e →
  let label :=
    translate (if isConnected then "connectionIndicatorConnected"
               else "connectionIndicatorDisconnected") [] tr in
  ∃ w' e',
    updateConnectionIndicator isConnected elements tr w = Ok tt w'
    ∧ outside_heap w' = outside_heap w
    ∧ nodes w' !! indicator = Some e'
    ∧ classes e' = [if isConnected then "connected" else "disconnected"]
    ∧ children e' = [CText label]
    ∧ textContent w' indicator = label
    ∧ tag e' = tag e ∧ attrs e' = attrs e ∧ style e' = style e
    ∧ listeners e' = listeners e ∧ disabled e' = disabled e
    ∧ (∀ k, k ≠ indicator →
         nodes w' !! k
         = if decide (CNode k ∈ children e) then with_parent None <$> nodes w !! k
           else nodes w !! k).
Proof.
  intros Hi He label. unfold updateConnectionIndicator. rewrite Hi.
  unfold bind at 1. unfold set_className, modify.
  set (w1 := alter_node _ indicator w).
  set (e1 := with_classes (λ _, token_set (tokens
                (if isConnected then "connected" else "disconnected"))) e).
  assert (He1 : nodes w1 !! indicator = Some e1).
  { subst w1 e1. simpl. by rewrite lookup_alter_eq, He. }
  destruct (set_textContent_lookup indicator label e1 w1 He1)
    as (w' & Hrun & Hout & Hn & Hoth & Htxt).
  assert (Hl : label ≠ "").
  { subst label. apply translate_nonempty. by destruct isConnected. }
  rewrite decide_False in Hn by done.
  eexists w', _. split.
  { subst label. destruct isConnected; exact Hrun. }
  split; [by rewrite Hout|]. split; [exact Hn|].
  split; [by destruct isConnected; case_decide|].
  split; [done|]. split; [done|].
  repeat split; try by case_decide.
  intros k Hk. rewrite Hoth by done. subst w1 e1. simpl.
  by rewrite lookup_alter_ne.
Qed.


(** *** The input box *)

(** X4.  [setupAutoresizeTextarea] appends an ['input'] and a ['paste']
    listener to the input box and schedules one resize, and changes nothing
    else.  The listeners are function expressions, new objects at every
    call, so a second call registers them a second time: the function is
    meant to be called once. *)
Theorem setupAutoresizeTextarea_registers_again (elements : Elements) (textarea : nat)
    (e : Node) (w : World) :
  userInput elements = Some textarea →
  nodes w !! textarea = Some e →
  let added := [("input", CbResizeOnInput elements); ("paste", CbResizeOnPaste elements)] in
  ∃ w1 w2,
    setupAutoresizeTextarea elements w = Ok tt w1
    ∧ nodes w1 = <[textarea := with_listeners (λ l, l ++ added) e]> (nodes w)
    ∧ timers w1 = timers w ++ [(0, TResizeTextarea elements)]
    ∧ outside_heap (with_timers (λ _, []) w1) = outside_heap (with_timers (λ _, []) w)
    ∧ setupAutoresizeTextarea elements w1 = Ok tt w2
    ∧ nodes w2 = <[textarea := with_listeners (λ l, l ++ added ++ added) e]> (nodes w)
    ∧ timers w2 = timers w ++ [(0, TResizeTextarea elements); (0, TResizeTextarea elements)].
Proof.
  intros Hu He added. unfold setupAutoresizeTextarea. rewrite Hu.
  eexists _, _. split; [reflexivity|].
  assert (H1 : ∀ f g (m : gmap nat Node) e0,
             m !! textarea = Some e0 →
             alter (with_listeners g) textarea (alter (with_listeners f) textarea m)
             = <[textarea := with_listeners (λ l, g (f l)) e0]> m).
  { intros f g m e0 Hm. apply map_eq. intros k.
    destruct (decide (k = textarea)) as [->|Hk].
    - by rewrite !lookup_alter_eq, lookup_insert_eq, Hm.
    - by rewrite !lookup_alter_ne, lookup_insert_ne. }
  split.
  { simpl. rewrite (H1 _ _ _ _ He). f_equal. unfold with_listeners. simpl. f_equal.
    by rewrite <- app_assoc. }
  split; [done|]. split; [done|]. split; [reflexivity|]. split; [|simpl; by rewrite <- app_assoc].
  simpl. rewrite (H1 _ _ _ _ He).
  erewrite (H1 _ _ (<[textarea:=_]> (nodes w))) by by rewrite lookup_insert_eq.
  rewrite insert_insert_eq. f_equal. unfold with_listeners. simpl. f_equal.
  by rewrite <- !app_assoc.
Qed.

(** *** The click listener of the copy button, when the code decodes *)

(** X5.  When the block's [data-code] attribute is not empty and decodes,
    the click listener hands the decoded text to the callback and does
    nothing before: nothing is printed.  An empty [data-code] counts as a
    missing one: nothing is decoded, a warning is printed and the visible
    text is copied. *)
Theorem copyCode_click_decodes (block copyButton : nat)
    (copyCodeToClipboardCallback : string → nat → M unit) (w : World) :
  (∀ enc code,
     get_attr w block "data-code" = Some enc → enc ≠ "" →
     atob enc ≫= decodeURIComponent = Some code →
     copyCode_click block copyButton copyCodeToClipboardCallback w
     = copyCodeToClipboardCallback code copyButton w)
  ∧ (get_attr w block "data-code" = Some "" →
     copyCode_click block copyButton copyCodeToClipboardCallback w
     = copyCodeToClipboardCallback (visible_text w block) copyButton
         (with_console (λ l, l ++ ["Code block missing data-code attribute."]) w)).
Proof.
  split.
  - intros enc code Ha Hne Hdec. unfold copyCode_click. unfold bind at 1.
    unfold getAttribute. rewrite Ha.
    assert (Ht : truthy enc = true).
    { unfold truthy. by destruct (String.eqb_spec enc ""). }
    cbv beta iota. rewrite Ht, Hdec. reflexivity.
  - intros Ha. unfold copyCode_click. unfold bind at 1. unfold getAttribute. rewrite Ha.
    unfold bind, console_print, modify. simpl. by rewrite visible_code_text_run.
Qed.

(** *** Selectors on a heap that changes *)

Lemma descendants_alter fuel (f : Node → Node) n (m : gmap nat Node) k :
  (∀ e, children (f e) = children e) →
  descendants fuel (alter f n m) k = descendants fuel m k.
Proof.
  intros Hf. revert k. induction fuel as [|fuel IH]; intros k; [done|]. simpl.
  assert (Hc : children <$> alter f n m !! k = children <$> m !! k).
  { rewrite lookup_alter. case_decide; [subst|done].
    destruct (m !! k); simpl; [|done]. by rewrite Hf. }
  destruct (alter f n m !! k) as [e1|], (m !! k) as [e2|]; simpl in Hc; try done.
  injection Hc as ->. apply flat_map_ext. intros [c|s]; [|done]. by rewrite IH.
Qed.

Lemma ancestors_alter fuel (f : Node → Node) n (m : gmap nat Node) k :
  (∀ e, parent (f e) = parent e) →
  ancestors fuel (alter f n m) k = ancestors fuel m k.
Proof.
  intros Hf. revert k. induction fuel as [|fuel IH]; intros k; [done|]. simpl.
  assert (Hp : (e ← alter f n m !! k; parent e) = (e ← m !! k; parent e)).
  { rewrite lookup_alter. case_decide; [subst|done].
    destruct (m !! k); simpl; [|done]. by rewrite Hf. }
  rewrite Hp. destruct (e ← m !! k; parent e); [|done]. by rewrite IH.
Qed.

Lemma matches_compound_alter (f : Node → Node) n (m : gmap nat Node) k c :
  (∀ e, node_matches (f e) c = node_matches e c) →
  matches_compound (alter f n m) k c = matches_compound m k c.
Proof.
  intros Hf. unfold matches_compound. rewrite lookup_alter.
  case_decide; [subst|done]. destruct (m !! k); simpl; [|done]. by rewrite Hf.
Qed.

Lemma match_chain_alter (f : Node → Node) n (m : gmap nat Node) cs ancs :
  (∀ e c, c ∈ cs → node_matches (f e) c = node_matches e c) →
  match_chain (alter f n m) cs ancs = match_chain m cs ancs.
Proof.
  revert cs. induction ancs as [|a ancs IH]; intros cs Hf; destruct cs as [|c cs]; try done.
  simpl. rewrite matches_compound_alter by (intros; apply Hf; by left).
  rewrite (IH cs) by (intros; apply Hf; by right).
  by rewrite (IH (c :: cs)).
Qed.

Lemma matches_alter (f : Node → Node) n (m : gmap nat Node) sel k :
  (∀ e, parent (f e) = parent e) →
  (∀ e c, c ∈ sel → node_matches (f e) c = node_matches e c) →
  matches (alter f n m) sel k = matches m sel k.
Proof.
  intros Hp Hf. unfold matches.
  destruct (reverse sel) as [|c outer] eqn:Hr; [done|].
  assert (Hin : ∀ x, x ∈ c :: outer → x ∈ sel).
  { intros x Hx. apply elem_of_reverse. by rewrite Hr. }
  rewrite matches_compound_alter by (intros; apply Hf, Hin; by left).
  rewrite size_alter, ancestors_alter by done.
  by rewrite match_chain_alter by (intros; apply Hf, Hin; by right).
Qed.

(** A change of one element that keeps what a selector looks at, and the
    shape of the tree, does not change what [document.querySelector] finds. *)
Lemma document_querySelector_alter (f : Node → Node) n sel (w : World) r :
  (∀ e, parent (f e) = parent e) →
  (∀ e, children (f e) = children e) →
  (∀ e c, c ∈ sel → node_matches (f e) c = node_matches e c) →
  document_querySelector sel w = Ok r w →
  document_querySelector sel (alter_node f n w) = Ok r (alter_node f n w).
Proof.
  intros Hp Hc Hf Hq. unfold document_querySelector in *. simpl.
  injection Hq as <-. f_equal. f_equal.
  rewrite size_alter. rewrite descendants_alter by done.
  apply list_filter_iff. intros k. by rewrite matches_alter.
Qed.

Lemma document_querySelector_found sel (w : World) :
  ∃ r, document_querySelector sel w = Ok r w
       ∧ ∀ k, r = Some k → matches (nodes w) sel k = true.
Proof.
  eexists. split; [reflexivity|]. intros k Hk.
  apply head_Some_elem_of in Hk. by apply list_elem_of_filter in Hk as [Hk _].
Qed.

Lemma matches_is_Some (m : gmap nat Node) sel k :
  matches m sel k = true → is_Some (m !! k).
Proof.
  unfold matches. destruct (reverse sel) as [|c outer]; [done|].
  rewrite andb_true_iff. intros [H _]. unfold matches_compound in H.
  by destruct (m !! k).
Qed.

Lemma matches_id (m : gmap nat Node) i k :
  matches m [by_id i] k = true → ∃ e, m !! k = Some e ∧ attrs e !! "id" = Some i.
Proof.
  unfold matches. simpl. rewrite andb_true_iff. intros [H _].
  unfold matches_compound in H. destruct (m !! k) as [e|]; [|done].
  exists e. split; [done|]. unfold node_matches in H. simpl in H.
  rewrite !andb_true_r in H. by apply bool_decide_eq_true in H.
Qed.

(** *** The visibility of the API key *)

Lemma type_property_of_readonly t :
  t ∈ ["textarea"; "select"; "fieldset"; "output"] → type_property_of t = TypeReadonly.
Proof.
  intros H. repeat (apply elem_of_cons in H as [->|H]; [by vm_compute|]).
  by apply elem_of_nil in H.
Qed.

Lemma toggleApiKeyVisibility_run (elements : Elements) btn input e (w : World) r1 r2 :
  toggleApiKey elements = Some btn → apiKeyInput elements = Some input →
  nodes w !! input = Some e → tag e = "input" →
  getElementById "eye-icon" w = Ok r1 w →
  getElementById "eye-slash-icon" w = Ok r2 w →
  let shown := bool_decide (lower <$> attrs e !! "type" = Some "password") in
  let w1 := alter_node (with_attrs (insert "type" (if shown then "text" else "password")))
              input w in
  toggleApiKeyVisibility elements w
  = Ok tt match r1, r2 with
          | Some eye, Some slash =>
              alter_node (with_style (insert "display"
                            (if shown then "inline-block" else "none"))) slash
                (alter_node (with_style (insert "display"
                               (if shown then "none" else "inline-block"))) eye w1)
          | _, _ => w1
          end.
Proof.
  intros Hb Hi He Htag H1 H2 shown w1. unfold toggleApiKeyVisibility. rewrite Hb, Hi.
  unfold bind at 1. unfold type_is_password. rewrite He, Htag.
  change (type_property_of "input") with TypeInput. cbv beta iota. fold shown.
  unfold bind at 1. unfold set_type. rewrite He, Htag.
  change (type_property_of "input") with TypeInput. cbv beta iota.
  unfold setAttribute, modify. fold w1.
  assert (Hid : ∀ i r, getElementById i w = Ok r w → getElementById i w1 = Ok r w1).
  { intros i r Hr. unfold getElementById in *. subst w1.
    apply document_querySelector_alter; [done..| |done].
    intros e0 c Hc. apply list_elem_of_singleton in Hc as ->.
    unfold node_matches. simpl. by rewrite lookup_insert_ne. }
  unfold bind at 1. rewrite (Hid _ _ H1). unfold bind at 1. rewrite (Hid _ _ H2).
  destruct r1 as [eye|], r2 as [slash|]; try done.
  destruct shown; reflexivity.
Qed.

(** X6.  On an [input] element, [toggleApiKeyVisibility] flips the type
    between password and text: a [type] attribute that spells [password],
    in letters of either case, becomes ['text'], and anything else, also a
    missing attribute, becomes ['password'].  When the page has both icons,
    the eye is hidden and the struck-out eye shown exactly when the key has
    become visible, and no other element changes; when an icon is missing
    the type is flipped all the same and nothing else happens.  Two calls
    bring a password or text input back to the type it had, written in
    lower case.  On a [textarea], [select], [fieldset] or [output] element,
    whose [type] has a getter only, the call throws a [TypeError] and
    changes nothing. *)
Theorem toggleApiKeyVisibility_flips (elements : Elements) (btn input : nat) (e : Node)
    (w : World) :
  toggleApiKey elements = Some btn → apiKeyInput elements = Some input →
  nodes w !! input = Some e →
  (tag e = "input" →
   let shown := bool_decide (lower <$> attrs e !! "type" = Some "password") in
   let w1 := alter_node (with_attrs (insert "type" (if shown then "text" else "password")))
               input w in
   ∃ w',
     toggleApiKeyVisibility elements w = Ok tt w'
     ∧ get_attr w' input "type" = Some (if shown then "text" else "password")
     ∧ outside_heap w' = outside_heap w
     ∧ (∀ eye slash,
          getElementById "eye-icon" w = Ok (Some eye) w →
          getElementById "eye-slash-icon" w = Ok (Some slash) w →
          eye ≠ slash
          ∧ get_style w' eye "display" = Some (if shown then "none" else "inline-block")
          ∧ get_style w' slash "display" = Some (if shown then "inline-block" else "none")
          ∧ ∀ k, k ≠ eye → k ≠ slash → nodes w' !! k = nodes w1 !! k)
     ∧ (getElementById "eye-icon" w = Ok None w
        ∨ getElementById "eye-slash-icon" w = Ok None w → w' = w1)
     ∧ (lower <$> attrs e !! "type" = Some "password"
        ∨ lower <$> attrs e !! "type" = Some "text" →
        ∃ w'', toggleApiKeyVisibility elements w' = Ok tt w''
               ∧ get_attr w'' input "type" = lower <$> attrs e !! "type"))
  ∧ (tag e ∈ ["textarea"; "select"; "fieldset"; "output"] →
     toggleApiKeyVisibility elements w = Throw TypeError w).
Proof.
  intros Hb Hi He. split; [intros Htag shown w1|]; cycle 1.
  { intros Htag. unfold toggleApiKeyVisibility. rewrite Hb, Hi.
    unfold bind at 1. unfold type_is_password. rewrite He.
    rewrite (type_property_of_readonly _ Htag). cbv beta iota.
    unfold bind at 1. unfold set_type. rewrite He.
    by rewrite (type_property_of_readonly _ Htag). }
  destruct (document_querySelector_found [by_id "eye-icon"] w) as (r1 & Hr1 & Hm1).
  destruct (document_querySelector_found [by_id "eye-slash-icon"] w) as (r2 & Hr2 & Hm2).
  pose proof (toggleApiKeyVisibility_run elements btn input e w r1 r2 Hb Hi He Htag Hr1 Hr2)
    as Hrun.
  cbv zeta in Hrun. fold shown in Hrun. fold w1 in Hrun.
  set (w' := match r1, r2 with Some _, Some _ => _ | _, _ => _ end) in Hrun.
  assert (Hw1 : ∃ e1, nodes w1 !! input = Some e1
                      ∧ attrs e1 !! "type" = Some (if shown then "text" else "password")
                      ∧ tag e1 = "input").
  { subst w1. simpl. rewrite lookup_alter_eq, He. simpl. eexists. split; [done|].
    simpl. by rewrite lookup_insert_eq. }
  assert (Hsty : ∀ k v (w0 : World) e0,
             nodes w0 !! input = Some e0 →
             ∃ e0', nodes (alter_node (with_style (insert "display" v)) k w0) !! input
                    = Some e0'
                    ∧ attrs e0' = attrs e0 ∧ tag e0' = tag e0).
  { intros k v w0 e0 H0. cbn [nodes alter_node with_nodes].
    destruct (decide (k = input)) as [->|Hk].
    - rewrite lookup_alter_eq, H0. by eexists.
    - rewrite lookup_alter_ne, H0 by done. by eexists. }
  assert (Hty : ∃ e', nodes w' !! input = Some e'
                      ∧ attrs e' !! "type" = Some (if shown then "text" else "password")
                      ∧ tag e' = "input").
  { destruct Hw1 as (e1 & He1 & Ht1 & Htag1).
    subst w'. destruct r1 as [eye|], r2 as [slash|]; try by exists e1.
    destruct (Hsty eye (if shown then "none" else "inline-block") w1 e1 He1)
      as (e2 & He2 & Ha2 & Htag2).
    destruct (Hsty slash (if shown then "inline-block" else "none") _ e2 He2)
      as (e3 & He3 & Ha3 & Htag3).
    exists e3. split; [done|]. split; congruence. }
  assert (Hga : get_attr w' input "type" = Some (if shown then "text" else "password")).
  { destruct Hty as (e' & He' & Ht' & _). unfold get_attr. by rewrite He'. }
  exists w'. split; [exact Hrun|]. split; [exact Hga|].
  split.
  { subst w' w1. by destruct r1, r2. }
  split.
  { intros eye slash He1 He2. unfold getElementById in He1, He2.
    rewrite Hr1 in He1. rewrite Hr2 in He2. injection He1 as ->. injection He2 as ->.
    destruct (matches_id _ _ _ (Hm1 eye eq_refl)) as (ee & Hee & Hide).
    destruct (matches_id _ _ _ (Hm2 slash eq_refl)) as (es & Hes & Hids).
    assert (Hne : eye ≠ slash) by (intros ->; congruence).
    split; [done|]. subst w'. cbv beta iota. split.
    { etrans; [|apply (get_style_set w1 eye); apply alter_node_is_Some; by rewrite Hee].
      unfold get_style at 1. cbn [nodes alter_node with_nodes].
      by rewrite lookup_alter_ne. }
    split.
    { apply get_style_set. subst w1. rewrite !alter_node_is_Some. by rewrite Hes. }
    intros k Hk1 Hk2. cbn [nodes alter_node with_nodes]. by rewrite !lookup_alter_ne. }
  split.
  { intros [H|H]; unfold getElementById in H.
    - rewrite Hr1 in H. injection H as ->. done.
    - rewrite Hr2 in H. injection H as ->. subst w'. by destruct r1. }
  intros Horig. destruct Hty as (e' & He' & Ht' & Htag').
  destruct (document_querySelector_found [by_id "eye-icon"] w') as (r1' & Hr1' & _).
  destruct (document_querySelector_found [by_id "eye-slash-icon"] w') as (r2' & Hr2' & _).
  pose proof (toggleApiKeyVisibility_run elements btn input e' w' r1' r2'
                Hb Hi He' Htag' Hr1' Hr2') as Hrun'.
  cbv zeta in Hrun'. eexists. split; [exact Hrun'|].
  assert (Hback : Some (if bool_decide (lower <$> attrs e' !! "type" = Some "password")
                        then "text" else "password")
                  = lower <$> attrs e !! "type").
  { rewrite Ht'. subst shown. destruct Horig as [-> | ->]; by vm_compute. }
  rewrite <- Hback.
  set (v := if bool_decide _ then "text" else "password").
  assert (Hfin : ∃ ef, nodes (alter_node (with_attrs (insert "type" v)) input w') !! input
                       = Some ef ∧ attrs ef !! "type" = Some v).
  { cbn [nodes alter_node with_nodes]. rewrite lookup_alter_eq, He'. simpl.
    eexists. split; [done|]. simpl. by rewrite lookup_insert_eq. }
  destruct Hfin as (ef & Hef & Hav).
  destruct r1' as [eye'|], r2' as [slash'|];
    try (unfold get_attr; by rewrite Hef).
  destruct (Hsty eye' (if bool_decide (lower <$> attrs e' !! "type" = Some "password")
                       then "none" else "inline-block") _ ef Hef) as (e2 & He2 & Ha2 & _).
  destruct (Hsty slash' (if bool_decide (lower <$> attrs e' !! "type" = Some "password")
                         then "inline-block" else "none") _ e2 He2) as (e3 & He3 & Ha3 & _).
  unfold get_attr. rewrite He3. simpl. by rewrite Ha3, Ha2.
Qed.

(** *** The toast *)

Lemma token_set_elem c acc l :
  c ∈ acc → c ∈ foldl (λ acc c, token_add c acc) acc l.
Proof.
  revert acc. induction l as [|x l IH]; intros acc Hc; [done|]. simpl.
  apply IH. unfold token_add. case_decide; [done|]. apply elem_of_app. by left.
Qed.

Lemma token_remove_other c d l : d ≠ c → d ∈ l → d ∈ token_remove c l.
Proof. intros Hne Hd. unfold token_remove. by apply list_elem_of_filter. Qed.

(** What [showToast] does with the toast element once it has one. *)
Lemma showToast_tail toast message type e (w : World) :
  nodes w !! toast = Some e →
  ∃ w' e',
    (set_textContent toast message ;;;
     set_className toast ("toast " +:+ type) ;;;
     classList_add toast "show" ;;;
     setTimeout (THideToast toast) 2000) w = Ok tt w'
    ∧ nodes w' !! toast = Some e'
    ∧ classes e' = token_add "show" (token_set (tokens ("toast " +:+ type)))
    ∧ children e' = (if decide (message = "") then [] else [CText message])
    ∧ tag e' = tag e ∧ attrs e' = attrs e ∧ style e' = style e
    ∧ listeners e' = listeners e
    ∧ (CNode toast ∉ children e → parent e' = parent e)
    ∧ timers w' = timers w ++ [(2000, THideToast toast)]
    ∧ outside_heap (with_timers (λ _, []) w') = outside_heap (with_timers (λ _, []) w)
    ∧ (∀ k, k ≠ toast →
         nodes w' !! k
         = if decide (CNode k ∈ children e) then with_parent None <$> nodes w !! k
           else nodes w !! k).
Proof.
  intros He.
  destruct (set_textContent_lookup toast message e w He) as (w1 & Hrun & Hout & Hn & Hoth & _).
  unfold bind at 1. rewrite Hrun.
  eexists _, _. split; [reflexivity|].
  cbn [nodes alter_node with_nodes with_timers timers].
  rewrite !lookup_alter_eq, Hn. cbn [fmap option_fmap option_map].
  split; [reflexivity|]. split; [reflexivity|]. split; [reflexivity|].
  split; [by destruct (decide (CNode toast ∈ children e))|].
  split; [by destruct (decide (CNode toast ∈ children e))|].
  split; [by destruct (decide (CNode toast ∈ children e))|].
  split; [by destruct (decide (CNode toast ∈ children e))|].
  split; [intros Hc; by destruct (decide (CNode toast ∈ children e))|].
  split; [by rewrite (f_equal timers Hout : timers w1 = timers w)|].
  split; [exact (f_equal (with_timers (λ _, [])) Hout)|].
  intros k Hk. rewrite !lookup_alter_ne by done. by apply Hoth.
Qed.

Lemma toast_classes type :
  "toast" ∈ token_add "show" (token_set (tokens ("toast " +:+ type)))
  ∧ "show" ∈ token_add "show" (token_set (tokens ("toast " +:+ type)))
  ∧ "toast" ∈ token_remove "show" (token_add "show" (token_set (tokens ("toast " +:+ type))))
  ∧ "show" ∉ token_remove "show" (token_add "show" (token_set (tokens ("toast " +:+ type)))).
Proof.
  assert (H : "toast" ∈ token_add "show" (token_set (tokens ("toast " +:+ type)))).
  { unfold token_add at 1. case_decide; [|apply elem_of_app; left];
      change (tokens ("toast " +:+ type)) with ("toast" :: tokens type);
      unfold token_set; simpl; apply token_set_elem; by left. }
  split; [done|]. split; [apply token_add_elem|].
  split; [by apply token_remove_other|apply token_remove_elem].
Qed.

(** X8.  [showToast] uses the first [.toast] element of the document when
    there is one, and creates no element then; otherwise it creates one
    [div] and appends it to the body, as its last child.  In both cases the
    toast ends with its classes set to ['toast'], the type and ['show']
    (the classes it had are gone), with the message as its text, and with
    one timer of 2000 ms pending;
    when that timer fires the class ['show'] goes, and ['toast'] and the
    text stay. *)
Theorem showToast_shows_then_hides (message type : string) (w : World) :
  let shown (toast : nat) (w' : World) :=
    has_class w' toast "toast" = true
    ∧ has_class w' toast "show" = true
    ∧ (classes <$> nodes w' !! toast)
      = Some (token_add "show" (token_set ("toast" :: tokens type)))
    ∧ textContent w' toast = message
    ∧ timers w' = timers w ++ [(2000, THideToast toast)]
    ∧ outside_heap (with_timers (λ _, []) w') = outside_heap (with_timers (λ _, []) w)
    ∧ ∃ w'', fire_timer (THideToast toast) w' = Ok tt w''
             ∧ has_class w'' toast "show" = false
             ∧ has_class w'' toast "toast" = true
             ∧ textContent w'' toast = message in
  (∀ toast,
     document_querySelector [by_class ["toast"]] w = Ok (Some toast) w →
     ∃ w',
       showToast message type w = Ok tt w'
       ∧ shown toast w'
       ∧ (∀ k, nodes w !! k = None → nodes w' !! k = None))
  ∧ (document_querySelector [by_class ["toast"]] w = Ok None w →
     is_Some (nodes w !! doc_body w) →
     let toast := fresh_id (nodes w) in
     ∃ w',
       showToast message type w = Ok tt w'
       ∧ shown toast w'
       ∧ nodes w !! toast = None
       ∧ (tag <$> nodes w' !! toast) = Some "div"
       ∧ (nodes w' !! toast ≫= parent) = Some (doc_body w)
       ∧ children_of w' (doc_body w) = children_of w (doc_body w) ++ [CNode toast]
       ∧ (∀ k, k ≠ toast → k ≠ doc_body w → nodes w' !! k = nodes w !! k)).
Proof.
  intros shown.
  assert (Hshown : ∀ toast (w' : World) e',
            nodes w' !! toast = Some e' →
            classes e' = token_add "show" (token_set (tokens ("toast " +:+ type))) →
            children e' = (if decide (message = "") then [] else [CText message]) →
            timers w' = timers w ++ [(2000, THideToast toast)] →
            outside_heap (with_timers (λ _, []) w') = outside_heap (with_timers (λ _, []) w) →
            shown toast w').
  { intros toast w' e' He' Hcl Hch Htm Hout.
    destruct (toast_classes type) as (Ht & Hs & Ht' & Hs').
    unfold shown. unfold has_class. rewrite He'. unfold node_has_class. rewrite Hcl.
    split; [by apply bool_decide_eq_true|]. split; [by apply bool_decide_eq_true|].
    split; [cbn [fmap option_fmap option_map]; f_equal; exact Hcl|].
    split; [by eapply textContent_single|]. split; [done|]. split; [done|].
    eexists. split; [reflexivity|]. cbn [nodes alter_node with_nodes].
    rewrite lookup_alter_eq, He'. cbn [fmap option_fmap option_map classes with_classes].
    rewrite Hcl. split; [by apply bool_decide_eq_false|].
    split; [by apply bool_decide_eq_true|].
    eapply textContent_single;
      [cbn [nodes alter_node with_nodes]; by rewrite lookup_alter_eq, He'|done]. }
  split.
  - intros toast Hq. destruct (document_querySelector_found [by_class ["toast"]] w)
      as (r & Hr & Hm).
    rewrite Hr in Hq. injection Hq as ->.
    destruct (matches_is_Some _ _ _ (Hm toast eq_refl)) as [e He].
    destruct (showToast_tail toast message type e w He)
      as (w' & e' & Hrun & He' & Hcl & Hch & _ & _ & _ & _ & _ & Htm & Hout & Hoth).
    exists w'. split.
    { unfold showToast. unfold bind at 1. rewrite Hr. unfold bind at 1. exact Hrun. }
    split; [by eapply Hshown|].
    intros k Hk. assert (k ≠ toast) by (intros ->; congruence).
    rewrite Hoth by done. rewrite Hk. by destruct (decide (CNode k ∈ children e)).
  - intros Hq [eb Hb] toast.
    assert (Hfresh : nodes w !! toast = None) by apply fresh_id_None.
    assert (Hne : doc_body w ≠ toast) by (intros Heq; rewrite Heq in Hb; congruence).
    set (w1 := with_nodes (λ m,
                 alter (with_children (λ l, l ++ [CNode toast])) (doc_body w)
                   (alter (with_parent (Some (doc_body w))) toast
                      (alter (with_classes (λ _, token_set (tokens "toast"))) toast
                         (<[toast := new_element "div"]> m)))) w).
    assert (Hpre : (do t <- createElement "div";
                    set_className t "toast" ;;;
                    do w0 <- get_world;
                    appendChild (doc_body w0) t ;;;
                    ret t) w = Ok toast w1).
    { unfold bind at 1. unfold createElement. fold toast.
      unfold bind at 1. unfold set_className, modify.
      unfold bind at 1. unfold get_world. unfold bind at 1.
      unfold appendChild, modify, ret, alter_node, with_nodes.
      cbn [nodes doc_body chat_state doc_root own_props timers gemini console scrolled
           uid_calls].
      unfold detach. rewrite lookup_alter_eq, lookup_insert_eq.
      cbn [fmap option_fmap option_map parent with_classes new_element].
      reflexivity. }
    assert (H1 : nodes w1 !! toast
                 = Some (with_parent (Some (doc_body w))
                           (with_classes (λ _, token_set (tokens "toast"))
                              (new_element "div")))).
    { subst w1. cbn [nodes with_nodes].
      by rewrite lookup_alter_ne, !lookup_alter_eq, lookup_insert_eq. }
    destruct (showToast_tail toast message type _ w1 H1)
      as (w' & e' & Hrun & He' & Hcl & Hch & Htag & _ & _ & _ & Hpar & Htm & Hout & Hoth).
    exists w'. split.
    { unfold showToast. unfold bind at 1. rewrite Hq. unfold bind at 1.
      fold toast in Hpre. rewrite Hpre. exact Hrun. }
    split; [eapply Hshown; [exact He'|exact Hcl|exact Hch|exact Htm|exact Hout]|].
    split; [done|].
    split; [rewrite He'; simpl; by rewrite Htag|]. split; [rewrite He'; simpl; by apply Hpar, not_elem_of_nil|].
    split.
    { unfold children_of. rewrite Hoth by done. simpl. subst w1. cbn [nodes with_nodes].
      rewrite lookup_alter_eq, lookup_alter_ne, lookup_alter_ne, lookup_insert_ne by done.
      by rewrite Hb. }
    intros k Hk1 Hk2. rewrite Hoth by done. simpl. subst w1. cbn [nodes with_nodes].
    by rewrite !lookup_alter_ne, lookup_insert_ne.
Qed.

(** *** Switching to the tab already shown *)

Lemma token_remove_add c l : token_remove c (token_add c l) = token_remove c l.
Proof.
  unfold token_add. case_decide; [done|]. unfold token_remove.
  rewrite filter_app, filter_cons, decide_False by (intros H'; by apply H').
  by rewrite filter_nil, app_nil_r.
Qed.

Lemma token_add_other c d l : d ≠ c → d ∈ token_add c l ↔ d ∈ l.
Proof.
  intros Hne. unfold token_add. case_decide; [done|].
  rewrite elem_of_app, list_elem_of_singleton.
  split; [intros [?|?]; [done|congruence]|intros; by left].
Qed.

Lemma token_remove_other_iff c d l : d ≠ c → d ∈ token_remove c l ↔ d ∈ l.
Proof.
  intros Hne. unfold token_remove. rewrite list_elem_of_filter.
  split; [by intros [_ ?]|by intros].
Qed.

(** One element in one round of toggles: first by [c1], if it is in the
    first list, then by [c2], if it is in the second. *)
Definition toggled (c1 c2 : Node → bool) (b1 b2 : bool) (e : Node) : Node :=
  let e1 := if b1 then set_active c1 e else e in
  if b2 then set_active c2 e1 else e1.

Lemma toggled_idem c1 c2 b1 b2 e :
  (∀ f e, c1 (with_classes f e) = c1 e) →
  (∀ f e, c2 (with_classes f e) = c2 e) →
  toggled c1 c2 b1 b2 (toggled c1 c2 b1 b2 e) = toggled c1 c2 b1 b2 e.
Proof.
  intros H1 H2. unfold toggled, set_active.
  destruct b1, b2; rewrite ?H1, ?H2; try done;
    destruct (c1 e), (c2 e); unfold with_classes; simpl; f_equal;
    rewrite ?token_remove_add, ?token_add_idem, ?token_remove_idem,
            ?token_remove_add, ?token_add_idem, ?token_remove_idem; done.
Qed.

Lemma toggled_frame c1 c2 b1 b2 e :
  toggled c1 c2 b1 b2 e = with_classes (λ _, classes (toggled c1 c2 b1 b2 e)) e
  ∧ ∀ c, c ≠ "active" → c ∈ classes (toggled c1 c2 b1 b2 e) ↔ c ∈ classes e.
Proof.
  unfold toggled, set_active. split.
  - by destruct b1, b2, e.
  - intros c Hc. destruct b1, b2; simpl; try done;
      repeat match goal with |- context [if ?b then _ else _] => destruct b end;
      by rewrite ?token_add_other, ?token_remove_other_iff, ?token_add_other,
                 ?token_remove_other_iff by done.
Qed.

Lemma toggle_rounds_lookup c1 c2 l1 l2 (m : gmap nat Node) n :
  (∀ f e, c1 (with_classes f e) = c1 e) →
  (∀ f e, c2 (with_classes f e) = c2 e) →
  toggle_all c2 l2 (toggle_all c1 l1 m) !! n
  = toggled c1 c2 (bool_decide (n ∈ l1)) (bool_decide (n ∈ l2)) <$> m !! n.
Proof.
  intros H1 H2. rewrite !toggle_all_lookup by done. unfold toggled.
  destruct (decide (n ∈ l1)) as [Hn1|Hn1], (decide (n ∈ l2)) as [Hn2|Hn2];
    rewrite ?(bool_decide_eq_true_2 _ Hn1), ?(bool_decide_eq_false_2 _ Hn1),
            ?(bool_decide_eq_true_2 _ Hn2), ?(bool_decide_eq_false_2 _ Hn2);
    by destruct (m !! n).
Qed.

Lemma toggle_rounds_idem c1 c2 l1 l2 (m : gmap nat Node) :
  (∀ f e, c1 (with_classes f e) = c1 e) →
  (∀ f e, c2 (with_classes f e) = c2 e) →
  let T m := toggle_all c2 l2 (toggle_all c1 l1 m) in
  T (T m) = T m.
Proof.
  intros H1 H2 T. apply map_eq. intros n. unfold T.
  rewrite !toggle_rounds_lookup by done.
  destruct (m !! n) as [e|]; [|done]. simpl. by rewrite toggled_idem.
Qed.

(** X9.  Switching to the sub-tab, or to the tab, that is already shown
    changes nothing: a second [switchSettingsSubTab] with the same
    argument leaves the page as the first one left it, and so does a second
    [switchTab] for a tab other than ['settings'] (for which the callback is
    not called).  Neither function creates or removes an element, and of an
    element they change nothing but the presence of the class ['active']. *)
Theorem switching_twice_is_switching_once (tabId subTabId : string) (elements : Elements)
    (callback : string → M unit) (w : World) :
  let unchanged_but_active (w' : World) :=
    outside_heap w' = outside_heap w
    ∧ (∀ k, nodes w !! k = None → nodes w' !! k = None)
    ∧ (∀ k e, nodes w !! k = Some e →
         ∃ e', nodes w' !! k = Some e'
               ∧ e' = with_classes (λ _, classes e') e
               ∧ ∀ c, c ≠ "active" → c ∈ classes e' ↔ c ∈ classes e) in
  (∃ w',
     switchSettingsSubTab subTabId elements w = Ok tt w'
     ∧ switchSettingsSubTab subTabId elements w' = Ok tt w'
     ∧ unchanged_but_active w')
  ∧ (tabId ≠ "settings" →
     ∃ w',
       switchTab tabId elements callback w = Ok tt w'
       ∧ switchTab tabId elements callback w' = Ok tt w'
       ∧ unchanged_but_active w').
Proof.
  intros unchanged_but_active.
  assert (Hfr : ∀ c1 c2 l1 l2,
            (∀ f e, c1 (with_classes f e) = c1 e) →
            (∀ f e, c2 (with_classes f e) = c2 e) →
            unchanged_but_active
              (with_nodes (λ m, toggle_all c2 l2 (toggle_all c1 l1 m)) w)).
  { intros c1 c2 l1 l2 H1 H2. split; [done|]. split.
    - intros k Hk. cbn [nodes with_nodes]. by rewrite toggle_rounds_lookup, Hk.
    - intros k e Hk. cbn [nodes with_nodes]. rewrite toggle_rounds_lookup, Hk by done.
      eexists. split; [done|]. apply toggled_frame. }
  split.
  - eexists. split; [apply switchSettingsSubTab_unfold|]. split.
    + rewrite switchSettingsSubTab_unfold, with_nodes_compose.
      pose proof (toggle_rounds_idem (subtab_selected subTabId)
                    (id_selected ("settings-" +:+ subTabId)) (settingsNavBtns elements)
                    (settingsSubContents elements) (nodes w)) as Hi.
      cbv zeta in Hi. unfold with_nodes. cbn [nodes]. by rewrite Hi.
    + by apply Hfr.
  - intros Hne. eexists. split.
    { rewrite switchTab_unfold. by rewrite decide_False. }
    split.
    + rewrite switchTab_unfold. rewrite decide_False by done.
      rewrite with_nodes_compose.
      pose proof (toggle_rounds_idem (tab_selected tabId) (id_selected tabId)
                    (tabs elements) (tabContents elements) (nodes w)) as Hi.
      cbv zeta in Hi. unfold with_nodes. cbn [nodes]. by rewrite Hi.
    + by apply Hfr.
Qed.

(** *** New messages in the chat *)

(** The insertion step, for a new element that is attached nowhere yet. *)
Lemma insert_into_chat_run insertAfterElement (elements : Elements) new cm e_new (w : World) :
  chatMessages elements = Some cm →
  nodes w !! new = Some e_new → parent e_new = None →
  insert_into_chat insertAfterElement elements new w
  = Ok tt (with_nodes (λ m,
      alter (with_children (λ l,
               match insertAfterElement with
               | Some a =>
                   if bool_decide ((e ← nodes w !! a; parent e) = Some cm)
                   then insert_after a new l else l ++ [CNode new]
               | None => l ++ [CNode new]
               end)) cm
        (alter (with_parent (Some cm)) new m)) w).
Proof.
  intros Hcm Hnew Hpar. unfold insert_into_chat.
  assert (Hd : detach new (nodes w) = nodes w).
  { unfold detach. by rewrite Hnew, Hpar. }
  destruct insertAfterElement as [a|].
  - unfold bind at 1. unfold bind at 1. unfold parentNode. cbv beta iota. unfold ret.
    rewrite Hcm. destruct (bool_decide _) eqn:Hb.
    + apply bool_decide_eq_true in Hb. unfold insertAdjacentElement_afterend, modify.
      unfold with_nodes. rewrite Hb, Hd. reflexivity.
    + unfold bind, deref, ret, appendChild, modify. unfold with_nodes. by rewrite Hd.
  - unfold bind, ret, deref. rewrite Hcm. unfold ret, appendChild, modify, with_nodes.
    by rewrite Hd.
Qed.

Lemma insert_after_middle a new l1 l2 :
  CNode a ∉ l1 →
  insert_after a new (l1 ++ CNode a :: l2) = l1 ++ CNode a :: CNode new :: l2.
Proof.
  induction l1 as [|x l1 IH]; intros Hn; simpl.
  - by rewrite decide_True.
  - apply not_elem_of_cons in Hn as [Hx Hl]. rewrite decide_False by done.
    by rewrite IH.
Qed.

Lemma sender_class_is_new sender : sender +:+ "-message" ∉ ["message"].
Proof.
  intros H. apply list_elem_of_singleton in H. apply (f_equal String.length) in H.
  rewrite string_length_app in H. simpl in H. lia.
Qed.

(** X10.  [addMessageToChat] for a streaming message returns right after
    the insertion: the new element is a [div] with the classes ['message']
    and [sender + '-message'], the id that [generateUniqueId] answered in
    [dataset.messageId], no content (the text it was given is not
    rendered), no listener; the callbacks are not called, nothing is
    scrolled and no other element changes but the chat.  The element goes
    right after [insertAfterElement] when that is a child of the chat, and
    to the end of the chat otherwise. *)
Theorem addMessageToChat_streaming_inserts_empty (content : option string)
    (sender : string) (options : Options) (elements : Elements)
    (currentTranslations : gmap string string)
    (addCopyButtonToCodeBlock : nat → M unit)
    (addMessageActionButtons : nat → string → M unit)
    (isUserNearBottom : bool) (cm : nat) (ecm : Node) (w : World) :
  sender = "user" ∨ sender = "bot" →
  opt_isStreaming options = true →
  chatMessages elements = Some cm → nodes w !! cm = Some ecm →
  let msg := fresh_id (nodes w) in
  ∃ w',
    addMessageToChat content sender options elements currentTranslations
      addCopyButtonToCodeBlock addMessageActionButtons isUserNearBottom w = Ok msg w'
    ∧ nodes w !! msg = None
    ∧ nodes w' !! msg
      = Some (mkNode "div" {["data-message-id" := generateUniqueId (uid_calls w)]}
                ["message"; sender +:+ "-message"] ∅ false (Some cm) [] [])
    ∧ outside_heap w' = outside_heap (with_uid_calls (S (uid_calls w)) w)
    ∧ (∀ k, k ≠ msg → k ≠ cm → nodes w' !! k = nodes w !! k)
    ∧ (∃ ecm', nodes w' !! cm = Some ecm'
               ∧ ecm' = with_children (λ _, children ecm') ecm)
    ∧ (opt_insertAfterElement options = None →
       children_of w' cm = children ecm ++ [CNode msg])
    ∧ (∀ a, opt_insertAfterElement options = Some a →
            (e ← nodes w !! a; parent e) ≠ Some cm →
            children_of w' cm = children ecm ++ [CNode msg])
    ∧ (∀ a l1 l2, opt_insertAfterElement options = Some a →
            (e ← nodes w !! a; parent e) = Some cm →
            children ecm = l1 ++ CNode a :: l2 → CNode a ∉ l1 →
            children_of w' cm = l1 ++ CNode a :: CNode msg :: l2).
Proof.
  intros _ Hs Hcm Hecm msg. unfold addMessageToChat. rewrite Hs.
  assert (Hfresh : nodes w !! msg = None) by apply fresh_id_None.
  assert (Hne : cm ≠ msg) by (intros ->; congruence).
  set (e0 := mkNode "div" {["data-message-id" := generateUniqueId (uid_calls w)]}
               ["message"; sender +:+ "-message"] ∅ false None [] []).
  set (w3 := with_uid_calls (S (uid_calls w)) (with_nodes (insert msg e0) w)).
  assert (Hpre : ∀ (B : Type) (k : nat → M B),
            (do messageElement <- createElement "div";
             classList_add messageElement "message" ;;;
             classList_add messageElement (sender +:+ "-message") ;;;
             do messageId <- call_generateUniqueId;
             set_dataset messageElement "message-id" messageId ;;;
             k messageElement) w = k msg w3).
  { intros B k. unfold bind at 1. unfold createElement. fold msg.
    unfold bind at 1. unfold classList_add at 1. unfold modify.
    unfold bind at 1. unfold classList_add at 1. unfold modify.
    unfold bind at 1. unfold call_generateUniqueId.
    unfold bind at 1. unfold set_dataset, setAttribute, modify.
    f_equal. subst w3 e0. unfold alter_node, with_uid_calls, with_nodes.
    cbn [nodes chat_state doc_root doc_body own_props timers gemini console scrolled
         uid_calls].
    f_equal. rewrite !alter_insert_eq. f_equal. unfold new_element, with_attrs, with_classes.
    cbn [tag attrs classes style disabled parent children listeners].
    change ("data-" +:+ "message-id") with "data-message-id". rewrite insert_empty.
    assert (token_add (sender +:+ "-message") (token_add "message" [])
            = ["message"; sender +:+ "-message"]) as ->; [|done].
    unfold token_add at 2. rewrite decide_False by apply not_elem_of_nil.
    unfold token_add. by rewrite decide_False by apply sender_class_is_new. }
  assert (H3 : nodes w3 !! msg = Some e0) by (subst w3; simpl; by rewrite lookup_insert_eq).
  pose proof (insert_into_chat_run (opt_insertAfterElement options) elements msg cm e0 w3
                Hcm H3 eq_refl) as Hins.
  set (place := λ l : list child,
         match opt_insertAfterElement options with
         | Some a =>
             if bool_decide ((e ← nodes w3 !! a; parent e) = Some cm)
             then insert_after a msg l else l ++ [CNode msg]
         | None => l ++ [CNode msg]
         end) in Hins.
  assert (Hpar : ∀ a, (e ← nodes w3 !! a; parent e) = (e ← nodes w !! a; parent e)).
  { intros a. subst w3. cbn [nodes with_uid_calls with_nodes].
    destruct (decide (a = msg)) as [->|Ha].
    - by rewrite lookup_insert_eq, Hfresh.
    - by rewrite lookup_insert_ne. }
  eexists. split.
  { cbv zeta. etrans; [apply Hpre|]. unfold bind at 1. rewrite Hins. reflexivity. }
  cbn [nodes with_nodes]. split; [done|]. split.
  { rewrite lookup_alter_ne, lookup_alter_eq, H3 by done. reflexivity. }
  split; [reflexivity|]. split.
  { intros k Hk1 Hk2. rewrite !lookup_alter_ne by done. subst w3. simpl.
    by rewrite lookup_insert_ne. }
  assert (Hc : alter (with_children place) cm (alter (with_parent (Some cm)) msg (nodes w3))
               !! cm = Some (with_children place ecm)).
  { rewrite lookup_alter_eq, lookup_alter_ne by done. subst w3. simpl.
    by rewrite lookup_insert_ne, Hecm. }
  split; [eexists; split; [exact Hc|done]|].
  unfold children_of. cbn [nodes with_nodes]. rewrite Hc. cbn [children with_children].
  subst place. cbv beta. split; [by intros ->|]. split.
  - intros a -> Hp. rewrite Hpar. by rewrite bool_decide_eq_false_2.
  - intros a l1 l2 -> Hp Hl Hn. rewrite Hpar, bool_decide_eq_true_2 by done.
    rewrite Hl. by apply insert_after_middle.
Qed.

(** *** The thinking animation *)

Lemma bind_createElement {B} t (k : nat → M B) (w : World) :
  bind (createElement t) k w
  = k (fresh_id (nodes w)) (with_nodes (insert (fresh_id (nodes w)) (new_element t)) w).
Proof. done. Qed.

Lemma bind_assoc {A B C} (m : M A) (k : A → M B) (k' : B → M C) (w : World) :
  bind (bind m k) k' w = bind m (λ a, bind (k a) k') w.
Proof. unfold bind. by destruct (m w). Qed.

Lemma bind_ret {A B} (a : A) (k : A → M B) (w : World) : bind (ret a) k w = k a w.
Proof. done. Qed.

(** [p.appendChild(c)] for an element [c] that is attached nowhere. *)
Lemma appendChild_detached p c ec (w : World) :
  nodes w !! c = Some ec → parent ec = None →
  appendChild p c w
  = Ok tt (with_nodes (λ m, alter (with_children (λ l, l ++ [CNode c])) p
                              (alter (with_parent (Some p)) c m)) w).
Proof.
  intros Hc Hp. unfold appendChild, modify, with_nodes. unfold detach. by rewrite Hc, Hp.
Qed.

(** Symbolic execution on the heap: the fields of the world are exposed,
    a new element gets a name and the facts that make it new, and the heap
    is kept as the initial heap with the new elements inserted. *)
Ltac world_fields :=
  cbn [nodes chat_state doc_root doc_body own_props timers gemini console scrolled uid_calls
       with_nodes alter_node with_scrolled with_timers with_console with_chat_state
       with_gemini with_uid_calls with_own_props].

Ltac split_fresh H :=
  repeat rewrite lookup_insert_None in H;
  repeat match type of H with
         | _ ∧ _ => let H' := fresh "Hne" in
                    destruct H as [H H']; pose proof (not_eq_sym H')
         end.

Ltac run_create k Hk :=
  rewrite ?bind_assoc; rewrite bind_createElement; world_fields;
  match goal with
  | |- context [fresh_id ?m] =>
      pose proof (fresh_id_None m) as Hk; set (k := fresh_id m) in *; clearbody k
  end;
  unfold with_nodes; world_fields; split_fresh Hk.

Ltac heap_norm :=
  repeat first [rewrite alter_insert_eq | rewrite alter_insert_ne by done].

Ltac heap_lookup :=
  world_fields;
  repeat first [rewrite lookup_insert_eq | rewrite lookup_insert_ne by done
               | rewrite lookup_alter_eq | rewrite lookup_alter_ne by done].

Lemma bind_classList_add {B} n c (k : unit → M B) (w : World) :
  bind (classList_add n c) k w = k tt (alter_node (with_classes (token_add c)) n w).
Proof. done. Qed.

Lemma bind_set_className {B} n s (k : unit → M B) (w : World) :
  bind (set_className n s) k w
  = k tt (alter_node (with_classes (λ _, token_set (tokens s))) n w).
Proof. done. Qed.

Lemma bind_setAttribute {B} n a v (k : unit → M B) (w : World) :
  bind (setAttribute n a v) k w = k tt (alter_node (with_attrs (insert a v)) n w).
Proof. done. Qed.

Lemma bind_set_disabled {B} n b (k : unit → M B) (w : World) :
  bind (set_disabled n b) k w = k tt (alter_node (with_disabled b) n w).
Proof. done. Qed.

Lemma bind_addEventListener_fresh {B} n type cb (k : unit → M B) (w : World) :
  bind (addEventListener n type cb true) k w
  = k tt (alter_node (with_listeners (λ l, l ++ [(type, cb)])) n w).
Proof. done. Qed.

Ltac run_modify :=
  rewrite ?bind_assoc;
  first [rewrite bind_classList_add | rewrite bind_set_className
        | rewrite bind_setAttribute | rewrite bind_set_disabled
        | rewrite bind_addEventListener_fresh];
  unfold alter_node, with_nodes; world_fields; heap_norm.

Lemma bind_appendChild_detached {B} p c ec (k : unit → M B) (w : World) :
  nodes w !! c = Some ec → parent ec = None →
  bind (appendChild p c) k w
  = k tt (with_nodes (λ m, alter (with_children (λ l, l ++ [CNode c])) p
                             (alter (with_parent (Some p)) c m)) w).
Proof. intros Hc Hp. unfold bind. by rewrite (appendChild_detached p c ec). Qed.

Ltac run_appendChild :=
  rewrite ?bind_assoc;
  erewrite bind_appendChild_detached; [|heap_lookup; reflexivity|reflexivity];
  unfold with_nodes; world_fields; heap_norm.

(** X11.  [addThinkingAnimation] builds, out of five new elements, a [div]
    with the classes ['message'], ['bot-message'] and ['thinking'] whose
    one child is a [div.thinking-dots] with three empty [span]s, and
    returns the outer [div].  It goes right after [insertAfterElement] when
    that is a child of the chat, and to the end of the chat otherwise; it
    is scrolled into view exactly when the user is near the bottom.  No
    element of the page changes but the chat, which gets the one child. *)
Theorem addThinkingAnimation_builds_three_dots (insertAfterElement : option nat)
    (elements : Elements) (isUserNearBottom : bool) (cm : nat) (ecm : Node) (w : World) :
  chatMessages elements = Some cm → nodes w !! cm = Some ecm →
  let thinking := fresh_id (nodes w) in
  ∃ w' dots dot1 dot2 dot3,
    addThinkingAnimation insertAfterElement elements isUserNearBottom w = Ok thinking w'
    ∧ NoDup [thinking; dots; dot1; dot2; dot3]
    ∧ (∀ k, k ∈ [thinking; dots; dot1; dot2; dot3] → nodes w !! k = None)
    ∧ nodes w' !! thinking
      = Some (mkNode "div" ∅ ["message"; "bot-message"; "thinking"] ∅ false (Some cm)
                [CNode dots] [])
    ∧ nodes w' !! dots
      = Some (mkNode "div" ∅ ["thinking-dots"] ∅ false (Some thinking)
                [CNode dot1; CNode dot2; CNode dot3] [])
    ∧ (∀ k, k ∈ [dot1; dot2; dot3] →
         nodes w' !! k = Some (mkNode "span" ∅ [] ∅ false (Some dots) [] []))
    ∧ outside_heap w'
      = outside_heap (with_scrolled (λ l, l ++ if isUserNearBottom then [thinking] else []) w)
    ∧ (∀ k, k ∉ [thinking; dots; dot1; dot2; dot3] → k ≠ cm →
         nodes w' !! k = nodes w !! k)
    ∧ (∃ ecm', nodes w' !! cm = Some ecm'
               ∧ ecm' = with_children (λ _, children ecm') ecm)
    ∧ (insertAfterElement = None →
       children_of w' cm = children ecm ++ [CNode thinking])
    ∧ (∀ a, insertAfterElement = Some a →
            (e ← nodes w !! a; parent e) ≠ Some cm →
            children_of w' cm = children ecm ++ [CNode thinking])
    ∧ (∀ a l1 l2, insertAfterElement = Some a →
            (e ← nodes w !! a; parent e) = Some cm →
            children ecm = l1 ++ CNode a :: l2 → CNode a ∉ l1 →
            children_of w' cm = l1 ++ CNode a :: CNode thinking :: l2).
Proof.
  intros Hcm Hecm thinking. unfold addThinkingAnimation.
  rewrite bind_createElement.
  pose proof (fresh_id_None (nodes w)) as Ht. fold thinking in Ht |- *.
  assert (Hcmt : cm ≠ thinking) by (intros ->; congruence).
  unfold with_nodes; world_fields.
  run_modify. run_modify. run_modify.
  run_create d Hfd. assert (cm ≠ d) by (intros ->; congruence). run_modify.
  cbn [seq forEach].
  run_create s1 Hf1. assert (cm ≠ s1) by (intros ->; congruence). run_appendChild.
  run_create s2 Hf2. assert (cm ≠ s2) by (intros ->; congruence). run_appendChild.
  run_create s3 Hf3. assert (cm ≠ s3) by (intros ->; congruence). run_appendChild.
  rewrite ?bind_assoc, bind_ret.
  run_appendChild.
  match goal with |- ∃ _ _ _ _ _, bind _ _ ?W0 = _ ∧ _ => set (W := W0) end.
  assert (Hpar : ∀ a, (e ← nodes W !! a; parent e) = Some cm
                      ↔ (e ← nodes w !! a; parent e) = Some cm).
  { intros a. subst W. world_fields.
    destruct (decide (a = s3)) as [->|]; [heap_lookup; rewrite Hf3; simpl; split; congruence|].
    destruct (decide (a = s2)) as [->|]; [heap_lookup; rewrite Hf2; simpl; split; congruence|].
    destruct (decide (a = s1)) as [->|]; [heap_lookup; rewrite Hf1; simpl; split; congruence|].
    destruct (decide (a = d)) as [->|]; [heap_lookup; rewrite Hfd; simpl; split; congruence|].
    destruct (decide (a = thinking)) as [->|];
      [heap_lookup; rewrite Ht; simpl; split; congruence|].
    by heap_lookup. }
  unfold bind at 1.
  erewrite insert_into_chat_run; [|exact Hcm|subst W; heap_lookup; reflexivity|reflexivity].
  set (place := λ l : list child,
         match insertAfterElement with
         | Some a =>
             if bool_decide ((e ← nodes W !! a; parent e) = Some cm)
             then insert_after a thinking l else l ++ [CNode thinking]
         | None => l ++ [CNode thinking]
         end).
  subst W. unfold with_nodes; world_fields. heap_norm.
  assert (Hplace : (insertAfterElement = None →
                      place (children ecm) = children ecm ++ [CNode thinking])
                   ∧ (∀ a, insertAfterElement = Some a →
                        (e ← nodes w !! a; parent e) ≠ Some cm →
                        place (children ecm) = children ecm ++ [CNode thinking])
                   ∧ (∀ a l1 l2, insertAfterElement = Some a →
                        (e ← nodes w !! a; parent e) = Some cm →
                        children ecm = l1 ++ CNode a :: l2 → CNode a ∉ l1 →
                        place (children ecm) = l1 ++ CNode a :: CNode thinking :: l2)).
  { subst place. cbv beta. split; [by intros ->|]. split.
    - intros a -> Hp. rewrite bool_decide_eq_false_2; [done|]. by rewrite Hpar.
    - intros a l1 l2 -> Hp Hl Hn. rewrite bool_decide_eq_true_2 by by rewrite Hpar.
      rewrite Hl. by apply insert_after_middle. }
  clearbody place.
  destruct isUserNearBottom;
    (eexists _, d, s1, s2, s3; split; [reflexivity|]; world_fields;
     split;
     [repeat (apply NoDup_cons_2;
              [rewrite ?not_elem_of_cons; repeat split; try done; apply not_elem_of_nil|]);
      apply NoDup_nil_2|];
     split;
     [intros k Hk; repeat (apply elem_of_cons in Hk as [->|Hk]; [done|]);
      by apply elem_of_nil in Hk|];
     split; [by heap_lookup|];
     split; [by heap_lookup|];
     split;
     [intros k Hk; repeat (apply elem_of_cons in Hk as [->|Hk]; [by heap_lookup|]);
      by apply elem_of_nil in Hk|];
     split; [unfold outside_heap, with_scrolled, with_nodes; world_fields;
             by rewrite ?app_nil_r|];
     split;
     [intros k Hk Hkcm; rewrite !not_elem_of_cons in Hk;
      destruct Hk as (? & ? & ? & ? & ? & _); by heap_lookup|];
     unfold children_of; world_fields; heap_lookup; rewrite Hecm;
     cbn [fmap option_fmap option_map children with_children];
     split; [eexists; split; [reflexivity|done]|exact Hplace]).
Qed.

(** *** A page without the chat *)

Lemma bind_call_generateUniqueId {B} (k : string → M B) (w : World) :
  bind call_generateUniqueId k w
  = k (generateUniqueId (uid_calls w)) (with_uid_calls (S (uid_calls w)) w).
Proof. done. Qed.



(** *** Scrolling *)

(** [m] returns, and changes nothing but the heap. *)
Definition quiet {A} (m : M A) : Prop :=
  ∀ w, ∃ a w', m w = Ok a w' ∧ outside_heap w' = outside_heap w.

(** [m] ends by running [rest], in a world where the elements [l] have been
    scrolled into view and nothing else but the heap has changed. *)
Definition then_runs {B} (l : list nat) (rest : M B) (m : M B) : Prop :=
  ∀ w, ∃ w1,
    outside_heap w1 = outside_heap (with_scrolled (λ s, s ++ l) w)
    ∧ m w = rest w1.

Lemma quiet_bind {A B} (m : M A) (k : A → M B) :
  quiet m → (∀ a, quiet (k a)) → quiet (bind m k).
Proof.
  intros Hm Hk w. destruct (Hm w) as (a & w1 & Hrun & H1).
  destruct (Hk a w1) as (b & w2 & Hrun2 & H2).
  exists b, w2. unfold bind. rewrite Hrun. split; [done|]. by rewrite H2.
Qed.

Lemma quiet_forEach {A} (l : list A) (f : A → M unit) :
  (∀ a, quiet (f a)) → quiet (forEach l f).
Proof.
  intros Hf. induction l as [|a l IH]; simpl.
  - intros w. by exists tt, w.
  - apply quiet_bind; [apply Hf|by intros _].
Qed.

Lemma then_runs_bind {A B} l (rest : M B) (m : M A) (k : A → M B) :
  quiet m → (∀ a, then_runs l rest (k a)) → then_runs l rest (bind m k).
Proof.
  intros Hm Hk w. destruct (Hm w) as (a & w1 & Hrun & H1).
  destruct (Hk a w1) as (w2 & H2 & Hrun2).
  exists w2. split.
  - rewrite H2. unfold outside_heap, with_scrolled, with_nodes in *. simpl in *.
    by injection H1 as -> -> -> -> -> -> -> -> ->.
  - rewrite <- Hrun2. unfold bind. by rewrite Hrun.
Qed.

Lemma then_runs_scroll {B} (b : bool) n (rest : M B) :
  then_runs (if b then [n] else []) rest
    ((if b then scrollIntoView n else ret tt) ;;; rest).
Proof.
  intros w. destruct b.
  - eexists. split; reflexivity.
  - exists w. split; [|done]. unfold outside_heap, with_scrolled, with_nodes. simpl.
    by rewrite app_nil_r.
Qed.

Lemma then_runs_scroll_last (b : bool) n :
  then_runs (if b then [n] else []) (ret tt) (if b then scrollIntoView n else ret tt).
Proof.
  intros w. destruct b.
  - eexists. split; reflexivity.
  - exists w. split; [|done]. unfold outside_heap, with_scrolled, with_nodes. simpl.
    by rewrite app_nil_r.
Qed.

Ltac quiet_step :=
  match goal with
  | |- quiet (bind _ _) => apply quiet_bind; [|intros ?]
  | |- quiet (forEach _ _) => apply quiet_forEach; intros ?
  | |- quiet (match ?x with _ => _ end) => destruct x
  | |- quiet (if ?b then _ else _) => destruct b
  | |- quiet _ => solve [auto]
  | |- quiet _ => by (intros ?; eexists _, _; split; reflexivity)
  end.

Lemma quiet_insert_into_chat insertAfterElement (elements : Elements) cm new :
  chatMessages elements = Some cm → quiet (insert_into_chat insertAfterElement elements new).
Proof.
  intros Hcm. unfold insert_into_chat. rewrite Hcm. apply quiet_bind.
  - destruct insertAfterElement; repeat quiet_step.
  - intros b. destruct insertAfterElement, b; repeat quiet_step.
Qed.

(** X13.  The message functions scroll by one rule.
    [updateStreamingMessage] scrolls the message into view exactly when the
    user is near the bottom, and changes nothing else outside the tree: it
    never throws, prints nothing, schedules nothing.  [addMessageToChat]
    (not streaming) scrolls the new message exactly when [forceScroll] is
    set or the user is near the bottom, and [finalizeBotMessage] exactly
    when the user is near the bottom, after the callbacks and before
    [restoreSendButtonAndInput], which runs last (callbacks that return and
    touch nothing but the tree assumed). *)
Theorem scrolling_follows_the_reader (messageElement : nat) (content : string)
    (isUserNearBottom : bool) (elements : Elements) (w : World) :
  (∃ w',
     updateStreamingMessage messageElement content isUserNearBottom elements w = Ok tt w'
     ∧ outside_heap w'
       = outside_heap
           (with_scrolled (λ s, s ++ if isUserNearBottom then [messageElement] else []) w))
  ∧ (∀ (addCopy : nat → M unit) (addActions : nat → string → M unit),
       (∀ b, quiet (addCopy b)) → (∀ m c, quiet (addActions m c)) →
       (∀ m, quiet (renderDynamicContent m elements)) →
       (∀ (restore : M unit),
          ∃ w1,
            finalizeBotMessage messageElement content addCopy addActions restore
              isUserNearBottom elements w = restore w1
            ∧ outside_heap w1
              = outside_heap
                  (with_scrolled
                     (λ s, s ++ if isUserNearBottom then [messageElement] else []) w))
       ∧ (∀ optional sender options tr cm,
            sender = "user" ∨ sender = "bot" →
            chatMessages elements = Some cm → opt_isStreaming options = false →
            let msg := fresh_id (nodes w) in
            ∃ w',
              addMessageToChat optional sender options elements tr addCopy addActions
                isUserNearBottom w = Ok msg w'
              ∧ outside_heap w'
                = outside_heap
                    (with_scrolled
                       (λ s, s ++ if opt_forceScroll options || isUserNearBottom
                                  then [msg] else [])
                       (with_uid_calls (S (uid_calls w)) w)))).
Proof.
  split; [|intros addCopy addActions Hcopy Hact Hrdc; split].
  - assert (H : then_runs (if isUserNearBottom then [messageElement] else []) (ret tt)
                  (updateStreamingMessage messageElement content isUserNearBottom elements)).
    { unfold updateStreamingMessage.
      repeat (apply then_runs_bind; [solve [repeat quiet_step]|intros ?]).
      apply then_runs_scroll_last. }
    destruct (H w) as (w1 & H1 & Hrun). by exists w1.
  - intros restore.
    assert (H : then_runs (if isUserNearBottom then [messageElement] else []) restore
                  (finalizeBotMessage messageElement content addCopy addActions restore
                     isUserNearBottom elements)).
    { unfold finalizeBotMessage.
      repeat (apply then_runs_bind; [solve [repeat quiet_step]|intros ?]).
      apply then_runs_scroll. }
    destruct (H w) as (w1 & H1 & Hrun). by exists w1.
  - intros optional sender options tr cm _ Hcm Hs msg.
    unfold addMessageToChat. rewrite Hs. cbv zeta.
    rewrite bind_createElement. fold msg.
    rewrite bind_classList_add, bind_classList_add, bind_call_generateUniqueId.
    unfold set_dataset. rewrite bind_setAttribute.
    match goal with |- ∃ _, ?m ?W0 = _ ∧ _ => set (W := W0); set (rest := m) end.
    assert (H : then_runs (if opt_forceScroll options || isUserNearBottom then [msg] else [])
                  (ret msg) rest).
    { subst rest.
      apply then_runs_bind; [by eapply quiet_insert_into_chat|intros ?].
      repeat (apply then_runs_bind; [solve [repeat quiet_step]|intros ?]).
      apply then_runs_scroll. }
    destruct (H W) as (w1 & H1 & Hrun). exists w1. split; [done|]. by rewrite H1.
Qed.

(** *** Exceptions while a message is finalized *)

(** [m] throws [e], having changed nothing but the heap. *)
Definition throws {A} (e : exn) (m : M A) : Prop :=
  ∀ w, ∃ w', m w = Throw e w' ∧ outside_heap w' = outside_heap w.

Lemma throws_bind {A B} e (m : M A) (k : A → M B) :
  quiet m → (∀ a, throws e (k a)) → throws e (bind m k).
Proof.
  intros Hm Hk w. destruct (Hm w) as (a & w1 & Hrun & H1).
  destruct (Hk a w1) as (w2 & Hrun2 & H2).
  exists w2. unfold bind. rewrite Hrun. split; [done|]. by rewrite H2.
Qed.

Lemma throws_first {A B} e (m : M A) (k : A → M B) : throws e m → throws e (bind m k).
Proof.
  intros Hm w. destruct (Hm w) as (w1 & Hrun & H1).
  exists w1. unfold bind. by rewrite Hrun.
Qed.

Lemma restoreSendButtonAndInput_clears (elements : Elements) tr send abort (w : World) :
  isStreaming (chat_state (world_of (restoreSendButtonAndInput elements tr send abort w)))
  = false.
Proof.
  unfold restoreSendButtonAndInput. unfold bind at 1. unfold get_world. cbv beta iota.
  destruct (isStreaming (chat_state w)) eqn:Hst; [|by simpl].
  change (negb true) with false. cbv beta iota.
  unfold bind at 1. unfold console_print, modify.
  unfold bind at 1. unfold modify.
  match goal with |- context [world_of (?k ?x)] =>
    assert (Hk : preserves chat_state k); [|by rewrite (Hk x)]
  end.
  unfold set_innerHTML. frame.
Qed.

(** X14.  [finalizeBotMessage] calls [restoreSendButtonAndInput] last and
    catches nothing.  So when everything before it returns, the call ends
    with the send button restored and [state.isStreaming] false; but when a
    step before it throws (a callback, or [renderDynamicContent]), the
    exception leaves the function at once and the button is not restored:
    with a [renderDynamicContent] that throws, [state.isStreaming] is left
    as it was and nothing is scrolled. *)
Theorem finalizeBotMessage_restores_last (messageElement : nat) (finalContent : string)
    (addCopy : nat → M unit) (addActions : nat → string → M unit)
    (isUserNearBottom : bool) (elements : Elements) (tr : gmap string string)
    (sendCallback abortCallback : callback) (w : World) :
  let restore := restoreSendButtonAndInput elements tr sendCallback abortCallback in
  let finalize (last : M unit) :=
    finalizeBotMessage messageElement finalContent addCopy addActions last
      isUserNearBottom elements in
  (∀ w1, finalize (ret tt) w = Ok tt w1 →
     finalize restore w = restore w1
     ∧ isStreaming (chat_state (world_of (finalize restore w))) = false)
  ∧ (∀ e w1, finalize (ret tt) w = Throw e w1 → finalize restore w = Throw e w1)
  ∧ (∀ e, (∀ b, quiet (addCopy b)) → (∀ m c, quiet (addActions m c)) →
          throws e (renderDynamicContent messageElement elements) →
          ∃ w1, finalize restore w = Throw e w1
                ∧ chat_state w1 = chat_state w ∧ scrolled w1 = scrolled w).
Proof.
  intros restore finalize.
  assert (Hsplit : ∀ last, finalize last w
            = match finalize (ret tt) w with
              | Ok _ w1 => last w1
              | Throw e w1 => Throw e w1
              end).
  { intros last. subst finalize. unfold finalizeBotMessage, bind, ret.
    repeat match goal with
           | |- context [match ?x with Ok _ _ => _ | Throw _ _ => _ end] =>
               lazymatch x with
               | context [match _ with Ok _ _ => _ | Throw _ _ => _ end] => fail
               | _ => destruct x as [[] ?|? ?] || destruct x as [? ?|? ?]
               end
           end; try done. }
  split; [|split].
  - intros w1 Hok. rewrite Hsplit, Hok. split; [done|].
    apply restoreSendButtonAndInput_clears.
  - intros e w1 Hthrow. by rewrite Hsplit, Hthrow.
  - intros e Hcopy Hact Hrdc.
    assert (H : throws e (finalize restore)).
    { subst finalize. unfold finalizeBotMessage.
      repeat (apply throws_bind; [solve [repeat quiet_step]|intros ?]).
      by apply throws_first. }
    destruct (H w) as (w1 & Hrun & Hout). exists w1. split; [done|].
    split; [exact (f_equal chat_state Hout)|exact (f_equal scrolled Hout)].
Qed.

(** *** Feedback on the copy buttons *)







(** *** The static labels of the page *)

(** [e'] is [e] with other labels: the same element but for the attributes
    that [updateUIElementsWithTranslations] writes, and for its place in
    the tree. *)
Definition relabelled (e e' : Node) : Prop :=
  tag e' = tag e ∧ classes e' = classes e ∧ style e' = style e
  ∧ listeners e' = listeners e ∧ disabled e' = disabled e
  ∧ ∀ a, a ∉ ["lang"; "aria-label"; "title"; "alt"; "placeholder"] →
         attrs e' !! a = attrs e !! a.

Lemma relabelled_refl e : relabelled e e.
Proof. by repeat split. Qed.

Lemma relabelled_trans e1 e2 e3 : relabelled e1 e2 → relabelled e2 e3 → relabelled e1 e3.
Proof.
  intros (H1 & H2 & H3 & H4 & H5 & H6) (G1 & G2 & G3 & G4 & G5 & G6).
  repeat split; try congruence. intros a Ha. by rewrite G6, H6.
Qed.

(** [e'] is [e] at another place of the tree: all but its [parent] and
    its [children] is as it was. *)
Definition kept (e e' : Node) : Prop :=
  tag e' = tag e ∧ attrs e' = attrs e ∧ classes e' = classes e ∧ style e' = style e
  ∧ listeners e' = listeners e ∧ disabled e' = disabled e.

(** Heap [m'] has the elements of [m] and no other, each one [kept]. *)
Definition reshaped (m m' : gmap nat Node) : Prop :=
  ∀ j, match m !! j with
       | Some e => ∃ e', m' !! j = Some e' ∧ kept e e'
       | None => m' !! j = None
       end.

Lemma kept_refl e : kept e e.
Proof. by repeat split. Qed.

Lemma kept_trans e1 e2 e3 : kept e1 e2 → kept e2 e3 → kept e1 e3.
Proof.
  intros (H1 & H2 & H3 & H4 & H5 & H6) (G1 & G2 & G3 & G4 & G5 & G6).
  repeat split; congruence.
Qed.

Lemma kept_relabelled e e' : kept e e' → relabelled e e'.
Proof. intros (H1 & H2 & H3 & H4 & H5 & H6). repeat split; try done. intros a _. by rewrite H2. Qed.

Lemma reshaped_refl m : reshaped m m.
Proof. intros j. destruct (m !! j) as [e|]; [|done]. exists e. split; [done|apply kept_refl]. Qed.

Lemma reshaped_trans m1 m2 m3 : reshaped m1 m2 → reshaped m2 m3 → reshaped m1 m3.
Proof.
  intros H1 H2 j. specialize (H1 j). specialize (H2 j). destruct (m1 !! j) as [e|].
  - destruct H1 as (e' & He' & K). rewrite He' in H2. destruct H2 as (e'' & He'' & K').
    exists e''. split; [done|]. by eapply kept_trans.
  - by rewrite H1 in H2.
Qed.

Lemma reshaped_alter (f : Node → Node) k m : (∀ e, kept e (f e)) → reshaped m (alter f k m).
Proof.
  intros Hf j. rewrite lookup_alter. destruct (decide (k = j)) as [->|Hk].
  - destruct (m !! j) as [e|]; [|done]. simpl. by exists (f e).
  - destruct (m !! j) as [e|]; [|done]. exists e. split; [done|apply kept_refl].
Qed.

Lemma reshaped_detach c m : reshaped m (detach c m).
Proof.
  unfold detach. destruct (m !! c) as [e|]; [|apply reshaped_refl].
  destruct (parent e) as [q|]; [|apply reshaped_refl].
  eapply reshaped_trans; apply reshaped_alter; by intros ?.
Qed.

Lemma reshaped_orphan n m : reshaped m (orphan_children n m).
Proof.
  unfold orphan_children. destruct (m !! n) as [e|]; [|apply reshaped_refl].
  induction (children e) as [|c l IH]; simpl; [apply reshaped_refl|].
  destruct c as [k|t]; [|done].
  eapply reshaped_trans; [exact IH|]. apply reshaped_alter. by intros ?.
Qed.

Lemma reshaped_set_textContent n cs m :
  reshaped m (alter (with_children (λ _, cs)) n (orphan_children n m)).
Proof.
  eapply reshaped_trans; [apply reshaped_orphan|]. apply reshaped_alter. by intros ?.
Qed.

Lemma reshaped_appendChild p c m :
  reshaped m (alter (with_children (λ l, l ++ [CNode c])) p
                (alter (with_parent (Some p)) c (detach c m))).
Proof.
  eapply reshaped_trans; [apply reshaped_detach|].
  eapply reshaped_trans; apply reshaped_alter; by intros ?.
Qed.

(** What [document.title = s] does to the page: it creates at most one
    element, a [title], and changes no element but in its place in the tree
    and its children. *)
Lemma set_document_title_run s (w : World) :
  ∃ w1, set_document_title s w = Ok tt w1
        ∧ outside_heap w1 = outside_heap w
        ∧ (reshaped (nodes w) (nodes w1)
           ∨ reshaped (<[fresh_id (nodes w) := new_element "title"]> (nodes w)) (nodes w1)).
Proof.
  unfold set_document_title. unfold bind at 1. unfold documentElement.
  destruct (nodes w !! doc_root w) as [er|] eqn:Hr.
  2: { exists w. split; [done|]. split; [done|]. left. apply reshaped_refl. }
  unfold bind at 1. unfold get_world.
  destruct (decide (element_is w SVG "svg" (doc_root w))) as [Hsvg|Hsvg].
  - unfold bind at 1. unfold svg_title_child.
    match goal with |- context [head ?l] => destruct (head l) as [t|] end.
    + eexists. split; [reflexivity|]. split; [done|]. left.
      cbn [nodes with_nodes]. apply reshaped_set_textContent.
    + rewrite bind_createElement. eexists. split; [reflexivity|]. split; [done|]. right.
      cbn [nodes with_nodes].
      eapply reshaped_trans; [|apply reshaped_set_textContent].
      eapply reshaped_trans; apply reshaped_alter; by intros ?.
  - destruct (decide (namespace_of w (doc_root w) = HTML)) as [Hhtml|Hhtml].
    2: { exists w. split; [done|]. split; [done|]. left. apply reshaped_refl. }
    unfold bind at 1. unfold title_element.
    match goal with |- context [head ?l] => destruct (head l) as [t|] end.
    + unfold bind at 1. unfold head_element.
      eexists. split; [reflexivity|]. split; [done|]. left.
      cbn [nodes with_nodes]. apply reshaped_set_textContent.
    + unfold bind at 1. unfold head_element.
      match goal with |- context [match ?x with Some _ => _ | None => ret tt end] =>
        destruct x as [h|] end.
      * rewrite bind_createElement. eexists. split; [reflexivity|]. split; [done|]. right.
        cbn [nodes with_nodes].
        eapply reshaped_trans; [apply reshaped_appendChild|].
        apply reshaped_set_textContent.
      * exists w. split; [done|]. split; [done|]. left. apply reshaped_refl.
Qed.

(** The state of the page while the labels are written, [w1] being the
    page at the first of them: the document element has its [lang], every
    element is still there, relabelled, and there is no new one. *)
Definition labelling (w1 : World) (root : nat) (lang : option string) (w : World) : Prop :=
  outside_heap w = outside_heap w1
  ∧ get_attr w root "lang" = lang
  ∧ ∀ k, match nodes w1 !! k with
         | Some e => ∃ e', nodes w !! k = Some e' ∧ relabelled e e'
         | None => nodes w !! k = None
         end.

Definition keeps (P : World → Prop) (m : M unit) : Prop :=
  ∀ w, P w → ∃ w', m w = Ok tt w' ∧ P w'.

Lemma keeps_bind P (m k : M unit) : keeps P m → keeps P k → keeps P (m ;;; k).
Proof.
  intros Hm Hk w Hw. destruct (Hm w Hw) as (w1 & Hrun & H1).
  unfold bind. rewrite Hrun. by apply Hk.
Qed.

Lemma keeps_after P (a b rest : M unit) (w w2 : World) :
  (a ;;; b) w = Ok tt w2 → P w2 → keeps P rest →
  ∃ w', (a ;;; b ;;; rest) w = Ok tt w' ∧ P w'.
Proof.
  intros Hab H2 Hrest. unfold bind in *.
  destruct (a w) as [[] w1|]; [|done]. destruct (b w1) as [[] w2'|]; [|done].
  injection Hab as ->. by apply Hrest.
Qed.

(** One step of the labelling: every element keeps its labels, or has one
    attribute [attr] written, and the world outside the heap is as before. *)
Lemma labelling_step w1 root lang (w w' : World) attr :
  attr ∈ ["aria-label"; "title"; "alt"; "placeholder"] →
  outside_heap w' = outside_heap w →
  (∀ j, match nodes w !! j with
        | Some e => ∃ e', nodes w' !! j = Some e'
                          ∧ tag e' = tag e ∧ classes e' = classes e ∧ style e' = style e
                          ∧ listeners e' = listeners e ∧ disabled e' = disabled e
                          ∧ ∀ a, a ≠ attr → attrs e' !! a = attrs e !! a
        | None => nodes w' !! j = None
        end) →
  labelling w1 root lang w → labelling w1 root lang w'.
Proof.
  intros Hattr Hout Hstep (Ho & Hl & Hold).
  assert (Hlang : attr ≠ "lang").
  { intros ->. by repeat (apply elem_of_cons in Hattr as [?|Hattr]; [done|]);
      apply elem_of_nil in Hattr. }
  split; [by rewrite Hout|]. split.
  - unfold get_attr in *. specialize (Hstep root).
    destruct (nodes w !! root) as [e|]; [|by rewrite Hstep].
    destruct Hstep as (e' & -> & _ & _ & _ & _ & _ & Ha). simpl in *.
    by rewrite Ha.
  - intros k. specialize (Hold k). specialize (Hstep k).
    destruct (nodes w1 !! k) as [e|].
    + destruct Hold as (e1 & He1 & Hrel). rewrite He1 in Hstep.
      destruct Hstep as (e' & He' & H1 & H2 & H3 & H4 & H5 & H6).
      exists e'. split; [done|]. eapply relabelled_trans; [exact Hrel|].
      repeat split; try done. intros a Ha. apply H6. intros ->. apply Ha. by right.
    + by rewrite Hold in Hstep.
Qed.

Ltac in_list := solve [repeat first [left | right]].

Lemma setText_keeps w1 root lang sel s :
  keeps (labelling w1 root lang)
    (do el <- document_querySelector sel;
     match el with Some e => set_textContent e s | None => ret tt end).
Proof.
  intros w Hw. destruct (document_querySelector_found sel w) as (r & Hr & Hm).
  unfold bind. rewrite Hr. destruct r as [k|]; [|by exists w].
  destruct (matches_is_Some _ _ _ (Hm k eq_refl)) as [ek Hek].
  destruct (set_textContent_lookup k s ek w Hek) as (w' & Hrun & Hout & Hn & Hoth & _).
  exists w'. split; [done|].
  apply (labelling_step w1 root lang w w' "title"); [in_list|done| |done].
  intros j. destruct (decide (j = k)) as [->|Hj].
  - rewrite Hek, Hn.
    destruct (decide (CNode k ∈ children ek)); eexists; (split; [done|]); by repeat split.
  - rewrite (Hoth j Hj). destruct (decide (CNode j ∈ children ek));
      destruct (nodes w !! j) as [ej|]; try done; simpl; eexists; by repeat split.
Qed.

Lemma setAttr_keeps w1 root lang sel attr s :
  attr ∈ ["aria-label"; "title"; "alt"; "placeholder"] →
  keeps (labelling w1 root lang)
    (do el <- document_querySelector sel;
     match el with Some e => setAttribute e attr s | None => ret tt end).
Proof.
  intros Hattr w Hw. destruct (document_querySelector_found sel w) as (r & Hr & Hm).
  unfold bind. rewrite Hr. destruct r as [k|]; [|by exists w].
  eexists. split; [reflexivity|].
  apply (labelling_step w1 root lang w _ attr); [done|done| |done].
  intros j. cbn [nodes alter_node with_nodes]. rewrite lookup_alter.
  destruct (decide (k = j)) as [->|Hj].
  - destruct (nodes w !! j) as [e|]; [|done]. simpl. eexists. split; [done|].
    repeat split; try done. intros a Ha. simpl. by rewrite lookup_insert_ne.
  - destruct (nodes w !! j) as [e|]; [|done]. eexists. by repeat split.
Qed.

Lemma set_document_title_found s (w : World) t :
  is_Some (nodes w !! doc_root w) → namespace_of w (doc_root w) = HTML →
  title_element w = Ok (Some t) w →
  set_document_title s w = set_textContent t s w.
Proof.
  intros [er Hr] Hns Hq. unfold set_document_title. unfold bind at 1. unfold documentElement.
  rewrite Hr. unfold bind at 1. unfold get_world.
  rewrite decide_False by (intros [_ H]; congruence).
  rewrite decide_True by done.
  unfold bind at 1. rewrite Hq. unfold bind at 1. by unfold head_element.
Qed.

Lemma set_document_title_created s (w : World) h :
  is_Some (nodes w !! doc_root w) → namespace_of w (doc_root w) = HTML →
  title_element w = Ok None w →
  head_element w = Ok (Some h) w →
  set_document_title s w
  = (do t <- createElement "title"; appendChild h t ;;; set_textContent t s) w.
Proof.
  intros [er Hr] Hns Hq Hh. unfold set_document_title. unfold bind at 1. unfold documentElement.
  rewrite Hr. unfold bind at 1. unfold get_world.
  rewrite decide_False by (intros [_ H]; congruence).
  rewrite decide_True by done.
  unfold bind at 1. rewrite Hq. unfold bind at 1. by rewrite Hh.
Qed.

(** X7.  [updateUIElementsWithTranslations] without translations (none, or
    an empty object) prints one warning and changes nothing.  With
    translations and in a document without a document element it throws a
    [TypeError] at the first assignment and changes nothing.  Otherwise it
    returns, whatever elements the page lacks: it sets [lang] on the
    document element, which is the attribute of an HTML element and a
    property of the object on any other, and the document title, as the
    setter of [document.title] does, and after that it changes of every
    element at most the content and the attributes [aria-label], [title],
    [alt] and [placeholder].  In all, every element of the page keeps its
    tag, classes, style, listeners and every other attribute, at most one
    element is created, a [title], and no timer is scheduled.  When the
    document element is an HTML element and the document has a title
    element, that element gets the text and no element is created; when it
    has none, but a head element, a new [title] with the text becomes the
    last child of the head. *)
Theorem updateUIElementsWithTranslations_relabels
    (currentTranslations : option (gmap string string)) (w : World) :
  (currentTranslations = None ∨ currentTranslations = Some ∅ →
     updateUIElementsWithTranslations currentTranslations w
     = Ok tt (with_console (λ l, l ++ ["No translations loaded, UI update skipped."]) w))
  ∧ (∀ tr, currentTranslations = Some tr → tr ≠ ∅ →
     let root := doc_root w in
     let lang := translate "htmlLang" [] tr in
     let title := translate "pageTitle" [] tr in
     let new := fresh_id (nodes w) in
     let wl := if decide (namespace_of w root = HTML)
               then alter_node (with_attrs (insert "lang" lang)) root w
               else with_own_props (insert (root, "lang") lang) w in
     (nodes w !! root = None →
        updateUIElementsWithTranslations currentTranslations w = Throw TypeError w)
     ∧ (∀ eroot, nodes w !! root = Some eroot →
        ∃ w1 w',
          set_document_title title wl = Ok tt w1
          ∧ updateUIElementsWithTranslations currentTranslations w = Ok tt w'
          ∧ outside_heap w' = outside_heap wl
          ∧ get_attr w' root "lang"
            = (if decide (namespace_of w root = HTML) then Some lang
               else attrs eroot !! "lang")
          ∧ (∀ k, match nodes w1 !! k with
                  | Some e => ∃ e', nodes w' !! k = Some e' ∧ relabelled e e'
                  | None => nodes w' !! k = None
                  end)
          ∧ (∀ k e, nodes w !! k = Some e → ∃ e', nodes w' !! k = Some e' ∧ relabelled e e')
          ∧ (∀ k, nodes w !! k = None → k ≠ new → nodes w' !! k = None)
          ∧ (∀ e, nodes w' !! new = Some e → relabelled (new_element "title") e)
          ∧ (namespace_of wl root = HTML →
             ∀ t, title_element wl = Ok (Some t) wl →
                  textContent w1 t = title ∧ nodes w1 !! new = None)
          ∧ (namespace_of wl root = HTML →
             title_element wl = Ok None wl →
             ∀ h eh, head_element wl = Ok (Some h) wl →
                     nodes wl !! h = Some eh →
                     nodes w1 !! new
                     = Some (mkNode "title" ∅ [] ∅ false (Some h) [CText title] [])
                     ∧ nodes w1 !! h
                       = Some (with_children (λ l, l ++ [CNode new]) eh)))).
Proof.
  split.
  - intros [-> | ->]; [done|]. unfold updateUIElementsWithTranslations.
    by rewrite decide_True by apply map_size_empty.
  - intros tr -> Hne root lang title new wl. unfold updateUIElementsWithTranslations.
    rewrite decide_False by by rewrite map_size_empty_iff.
    cbv beta zeta. split.
    { intros Hr. unfold bind at 1. unfold bind at 1. unfold bind at 1.
      unfold documentElement. fold root. by rewrite Hr. }
    intros eroot Hr.
    assert (Hrunl : set_lang root lang w = Ok tt wl).
    { unfold set_lang, bind, get_world. subst wl. by case_decide. }
    assert (Hwlr : ∃ el, nodes wl !! root = Some el ∧ relabelled eroot el
                         ∧ attrs el !! "lang"
                           = if decide (namespace_of w root = HTML) then Some lang
                             else attrs eroot !! "lang").
    { subst wl. case_decide.
      - eexists. split; [cbn [nodes alter_node with_nodes]; by rewrite lookup_alter_eq, Hr|].
        split; [|simpl; by rewrite lookup_insert_eq].
        repeat split; try done. intros a Ha. simpl. rewrite lookup_insert_ne; [done|].
        intros <-. apply Ha. in_list.
      - exists eroot. split; [done|]. split; [apply relabelled_refl|done]. }
    destruct Hwlr as (el & Hwlr & Rroot & Hlangl).
    assert (Hwl : ∀ k, k ≠ root → nodes wl !! k = nodes w !! k).
    { intros k Hk. subst wl. case_decide; [|done].
      cbn [nodes alter_node with_nodes]. by rewrite lookup_alter_ne. }
    assert (Hdom : fresh_id (nodes wl) = new).
    { subst wl new. case_decide; [|done]. unfold fresh_id. cbn [nodes alter_node with_nodes].
      by rewrite dom_alter_L. }
    assert (Hrootl : doc_root wl = root) by (subst wl; by case_decide).
    clearbody wl.
    destruct (set_document_title_run title wl) as (w1 & Hrun1 & Hout1 & Hshape).
    assert (Hnew : nodes w !! new = None) by apply fresh_id_None.
    assert (Hrn : root ≠ new) by (intros Heq; rewrite Heq in Hr; congruence).
    rewrite Hdom in Hshape.
    assert (Hwln : nodes wl !! new = None) by (rewrite Hwl; done).
    assert (F : ∀ k, match nodes wl !! k with
                     | Some e => ∃ e', nodes w1 !! k = Some e' ∧ kept e e'
                     | None => k ≠ new → nodes w1 !! k = None
                     end).
    { intros k. destruct Hshape as [H|H]; specialize (H k).
      - destruct (nodes wl !! k); [done|]. by intros _.
      - destruct (decide (k = new)) as [->|Hk].
        + by rewrite Hwln.
        + rewrite lookup_insert_ne in H by done. destruct (nodes wl !! k); [done|].
          by intros _. }
    assert (F3 : ∀ e, nodes w1 !! new = Some e → kept (new_element "title") e).
    { intros e He. destruct Hshape as [H|H]; specialize (H new).
      - rewrite Hwln in H. congruence.
      - rewrite lookup_insert_eq in H. destruct H as (e' & He' & K).
        rewrite He in He'. by injection He' as ->. }
    assert (Hlang1 : get_attr w1 root "lang" = attrs el !! "lang").
    { pose proof (F root) as Fr. rewrite Hwlr in Fr. destruct Fr as (e' & He' & K).
      unfold get_attr. rewrite He'. simpl. by destruct K as (_ & -> & _). }
    assert (Hlab0 : labelling w1 root (attrs el !! "lang") w1).
    { split; [done|]. split; [done|].
      intros k. destruct (nodes w1 !! k) as [e|]; [|done]. exists e.
      split; [done|apply relabelled_refl]. }
    match goal with |- ∃ _ w', _ ∧ ?m w = Ok tt w' ∧ _ =>
      assert (Hfin : ∃ w', m w = Ok tt w' ∧ labelling w1 root (attrs el !! "lang") w') end.
    { eapply keeps_after; [|exact Hlab0|].
      - unfold bind at 1. unfold bind at 1. unfold bind at 1.
        unfold documentElement. fold root. rewrite Hr.
        change (deref (Some root) w) with (Ok root w). cbv beta iota.
        fold lang. rewrite Hrunl. exact Hrun1.
      - repeat (apply keeps_bind;
                [first [apply setText_keeps | apply setAttr_keeps; in_list]|]).
        apply setAttr_keeps; in_list. }
    destruct Hfin as (w' & Hrun & Ho & Hl & Hold).
    exists w1, w'. split; [exact Hrun1|]. split; [exact Hrun|].
    split; [by rewrite Ho, Hout1|]. split; [by rewrite Hl|]. split; [exact Hold|].
    split; [|split; [|split; [|split]]].
    + intros k e Hk.
      assert (Hel : ∃ el, nodes wl !! k = Some el ∧ relabelled e el).
      { destruct (decide (k = root)) as [->|Hkr].
        - rewrite Hr in Hk. injection Hk as <-. by exists el.
        - exists e. split; [by rewrite Hwl|apply relabelled_refl]. }
      destruct Hel as (el' & Hel & Rl). pose proof (F k) as Fk. rewrite Hel in Fk.
      destruct Fk as (e1 & He1 & K). pose proof (Hold k) as Hk'. rewrite He1 in Hk'.
      destruct Hk' as (e' & He' & R'). exists e'. split; [done|].
      eapply relabelled_trans; [exact Rl|].
      eapply relabelled_trans; [by apply kept_relabelled|exact R'].
    + intros k Hk Hkn.
      assert (Hkr : k ≠ root) by (intros ->; congruence).
      pose proof (F k) as Fk. rewrite Hwl, Hk in Fk by done.
      pose proof (Hold k) as Hk'. by rewrite (Fk Hkn) in Hk'.
    + intros e He. pose proof (Hold new) as Hk'.
      destruct (nodes w1 !! new) as [e1|] eqn:He1; [|congruence].
      destruct Hk' as (e' & He' & R'). rewrite He in He'. injection He' as <-.
      eapply relabelled_trans; [|exact R']. by apply kept_relabelled, F3.
    + intros Hns t Hq.
      assert (Het : ∃ et, nodes wl !! t = Some et).
      { unfold title_element in Hq. injection Hq as Hq. apply head_Some_elem_of in Hq.
        apply list_elem_of_filter in Hq as [[Hq _] _].
        destruct (nodes wl !! t) as [et|]; [by exists et|done]. }
      destruct Het as [et Het]. rewrite <- Hrootl in Hwlr, Hns.
      rewrite (set_document_title_found title wl t (mk_is_Some _ _ Hwlr) Hns Hq) in Hrun1.
      destruct (set_textContent_lookup t title et wl Het)
        as (w1' & Hrun' & _ & _ & Hoth & Htxt).
      rewrite Hrun' in Hrun1. injection Hrun1 as <-. split; [done|].
      assert (new ≠ t) by (intros <-; congruence).
      rewrite Hoth by done. rewrite Hwln.
      by destruct (decide (CNode new ∈ children et)).
    + intros Hns Hq h eh Hh Heh.
      assert (Hhn : h ≠ new) by (intros ->; congruence).
      assert (Htitle : title ≠ "") by by apply translate_nonempty.
      rewrite <- Hrootl in Hwlr, Hns.
      rewrite (set_document_title_created title wl h (mk_is_Some _ _ Hwlr) Hns Hq Hh) in Hrun1.
      rewrite bind_createElement, Hdom in Hrun1.
      unfold bind, set_textContent, appendChild, modify in Hrun1.
      injection Hrun1 as <-. cbn [nodes with_nodes].
      rewrite decide_False by done.
      assert (Hd : detach new (<[new := new_element "title"]> (nodes wl))
                   = <[new := new_element "title"]> (nodes wl)).
      { unfold detach. by rewrite lookup_insert_eq. }
      rewrite Hd.
      set (M2 := alter (with_children (λ l, l ++ [CNode new])) h
                   (alter (with_parent (Some h)) new
                      (<[new := new_element "title"]> (nodes wl)))).
      assert (HM2 : M2 !! new = Some (with_parent (Some h) (new_element "title"))).
      { subst M2. by rewrite lookup_alter_ne, lookup_alter_eq, lookup_insert_eq. }
      assert (Ho2 : orphan_children new M2 = M2).
      { unfold orphan_children. by rewrite HM2. }
      rewrite Ho2. split.
      * by rewrite lookup_alter_eq, HM2.
      * rewrite lookup_alter_ne by done. subst M2.
        rewrite lookup_alter_eq, lookup_alter_ne, lookup_insert_ne by done.
        by rewrite Heh.
Qed.

End UI.

(** ** A concrete page

    A small page and stand-ins for the browser functions, on which the
    statements above are run. *)

Definition ex_render (s : string) : string := "<p>" +:+ s +:+ "</p>".
Definition ex_parseHTML (s : string) : list HTree := [HText s].
Definition ex_innerText (t : HTree) : string :=
  match t with
  | HElem _ [HText s] => s
  | _ => ""
  end.
Definition ex_escapeHtml (s : string) : string := s.
Definition ex_generateUniqueId (n : nat) : string := "msg-" +:+ pretty n.
Definition ex_renderDynamicContent (n : nat) (elements : Elements) : M unit := ret tt.
Definition ex_atob (s : string) : option string :=
  if decide (s = "b2s=") then Some "ok" else None.
Definition ex_decodeURIComponent (s : string) : option string := Some s.
Definition ex_replace (s pattern replacement : string) : string := s.
Definition ex_member_text (name : string) : string :=
  "function " +:+ name +:+ "() { [native code] }".
Definition ex_other_type_property (t : string) : type_property :=
  if decide (t ∈ ["a"; "link"; "script"; "style"]) then TypeReflected else TypeAbsent.
(** On the example pages an [svg] element and what is below it are SVG
    elements, and every other element is an HTML element. *)
Definition ex_namespace_of (w : World) (k : nat) : namespace :=
  if decide (Some "svg" ∈ (λ a, tag <$> nodes w !! a)
                            <$> k :: ancestors (size (nodes w)) (nodes w) k)
  then SVG else HTML.
Definition ex_computedStyle (w : World) (n : nat) (prop : string) : string :=
  if decide (prop = "minHeight") then "40px"
  else if decide (prop = "maxHeight") then "none" else "".
Definition ex_scrollHeight (w : World) (n : nat) : Z := 300.
Definition ex_parseFloat (s : string) : jsnum :=
  if decide (s = "40px") then Fin 40 else NaN.
Definition ex_numToString (a : jsnum) : string :=
  match a with
  | Fin q => pretty (Qnum q `div` Z.pos (Qden q))%Z
  | NaN => "NaN"
  | PosInf => "Infinity"
  | NegInf => "-Infinity"
  end.

Definition ex_node (t : string) (attributes : list (string * string))
    (cls : list string) (p : option nat) (kids : list child) : Node :=
  mkNode t (list_to_map attributes) cls ∅ false p kids [].

(** html 0 > body 1 > two tabs 2 3, two tab contents 4 5, a settings nav
    button 6 (active) and its sub-content 7, the two status lines 8 9, the
    input box 10, the send button 11, a code block 12 > code 13, and a
    message 14. *)
Definition ex_nodes : gmap nat Node :=
  list_to_map
    [ (0, ex_node "html" [] [] None [CNode 1]);
      (1, ex_node "body" [] [] (Some 0)
            (map CNode [2; 3; 4; 5; 6; 7; 8; 9; 10; 11; 12; 14]));
      (2, ex_node "button" [("data-tab", "chat")] ["footer-tab"; "active"] (Some 1) []);
      (3, ex_node "button" [("data-tab", "settings")] ["footer-tab"] (Some 1) []);
      (4, ex_node "div" [("id", "chat")] ["tab-content"; "active"] (Some 1) []);
      (5, ex_node "div" [("id", "settings")] ["tab-content"] (Some 1) []);
      (6, ex_node "button" [("data-subtab", "general")] ["settings-nav-btn"; "active"]
            (Some 1) []);
      (7, ex_node "div" [("id", "settings-general")] ["settings-sub"; "active"] (Some 1) []);
      (8, ex_node "div" [("id", "connection-status")] [] (Some 1) []);
      (9, ex_node "div" [("id", "chat-status")] [] (Some 1) []);
      (10, ex_node "textarea" [("id", "user-input")] [] (Some 1) []);
      (11, ex_node "button" [("id", "send-message")] ["stop-streaming"] (Some 1) []);
      (12, ex_node "pre" [("data-code", "%%%")] ["code-block"] (Some 1) [CNode 13]);
      (13, ex_node "code" [] [] (Some 12) [CText "let x = 1;"]);
      (14, ex_node "div" [("data-message-id", "msg-0")] ["message"; "bot-message"]
             (Some 1) []) ].

Definition ex_elements : Elements :=
  mkElements [2; 3] [4; 5] [6] [7] (Some 1) (Some 8) None None (Some 10) (Some 11)
             None None (Some 9).

Definition ex_world : World :=
  mkWorld (mkState true) ex_nodes 0 1 ∅ [] (Some (mkGeminiAPI (Some 1))) [] [] 0.

(** The same page seen through an [elements] with nothing looked up. *)
Definition ex_no_elements : Elements :=
  mkElements [] [] [] [] None None None None None None None None None.

Definition ex_send : callback := CbExternal 1.
Definition ex_abort : callback := CbExternal 2.

Ltac in_heap := eexists; vm_compute; reflexivity.
Ltac not_in :=
  let H := fresh in
  intros H; repeat (apply elem_of_cons in H as [H|H]; [discriminate H|]);
  by apply elem_of_nil in H.
Ltac each_in H :=
  repeat (apply elem_of_cons in H as [->|H]); [..|by apply elem_of_nil in H].

(** ** Counterexamples *)

(** C1, the last sentence as stated: the settings nav button 6 is in neither
    list that [switchTab] goes through, and it keeps [active] over
    [switchTab('chat', ...)]; and when it is not active, the call
    [switchTab('settings', ...)] makes it active through the callback. *)
Lemma switchTab_other_element_keeps_or_gains_active :
  (∃ w',
     switchTab "chat" ex_elements (λ s, switchSettingsSubTab s ex_elements) ex_world
     = Ok tt w'
     ∧ (6 ∉ tabs ex_elements) ∧ (6 ∉ tabContents ex_elements)
     ∧ has_class ex_world 6 "active" = true
     ∧ has_class w' 6 "active" = true)
  ∧ (let w0 := alter_node (with_classes (λ _, ["settings-nav-btn"])) 6 ex_world in
     ∃ w',
       switchTab "settings" ex_elements (λ s, switchSettingsSubTab s ex_elements) w0
       = Ok tt w'
       ∧ (6 ∉ tabs ex_elements) ∧ (6 ∉ tabContents ex_elements)
       ∧ has_class w0 6 "active" = false
       ∧ has_class w' 6 "active" = true).
Proof.
  split.
  - eexists. split; [vm_compute; reflexivity|].
    split; [not_in|]. split; [not_in|]. split; vm_compute; reflexivity.
  - eexists. split; [vm_compute; reflexivity|].
    split; [not_in|]. split; [not_in|]. split; vm_compute; reflexivity.
Qed.

(** C3, the general sentence as stated: [restoreSendButtonAndInput] reads
    [elements.sendMessage] without a null check.  When the button is missing
    and a stream is on, it has set [state.isStreaming] to false and printed
    on the console by the time the [TypeError] is thrown. *)
Lemma restoreSendButtonAndInput_unguarded :
  sendMessage ex_no_elements = None
  ∧ ∃ w',
      restoreSendButtonAndInput ex_parseHTML ex_replace ex_no_elements ∅
        ex_send ex_abort ex_world
      = Throw TypeError w'
      ∧ isStreaming (chat_state ex_world) = true
      ∧ isStreaming (chat_state w') = false.
Proof.
  split; [reflexivity|]. eexists. split; [vm_compute; reflexivity|].
  split; vm_compute; reflexivity.
Qed.


(** C5, the last clause as stated: a success message is shown, then a
    newer message with the same text (of type ['error'], which schedules
    nothing); the timer of the first call then hides the newer message. *)
Lemma stale_timer_hides_newer_message :
  ∃ w1 w2 w3,
    showConnectionStatus "Saved" "success" ex_elements ex_world = Ok tt w1
    ∧ timers w1 = [(3000, THideConnectionStatus ex_elements "Saved")]
    ∧ showConnectionStatus "Saved" "error" ex_elements w1 = Ok tt w2
    ∧ timers w2 = timers w1
    ∧ get_style w2 8 "display" = Some "block"
    ∧ fire_timer ex_parseHTML ex_computedStyle ex_scrollHeight ex_parseFloat ex_numToString
        (THideConnectionStatus ex_elements "Saved") w2 = Ok tt w3
    ∧ get_style w3 8 "display" = Some "none".
Proof.
  eexists _, _, _.
  split; [vm_compute; reflexivity|]. split; [reflexivity|].
  split; [vm_compute; reflexivity|]. split; [reflexivity|].
  split; [vm_compute; reflexivity|].
  split; vm_compute; reflexivity.
Qed.

(** ** The theorems at the concrete page *)

Lemma switchTab_marks_selected_witness :
  ∃ w',
    switchTab "settings" ex_elements (λ s, switchSettingsSubTab s ex_elements) ex_world
    = Ok tt w'
    ∧ ∀ tab, tab ∈ tabs ex_elements →
        has_class w' tab "active" = true ↔ get_attr w' tab "data-tab" = Some "settings".
Proof.
  destruct (switchTab_marks_selected "settings" "general" ex_elements
              (λ s, switchSettingsSubTab s ex_elements) ex_world)
    as [(w1 & w' & Hrun & _ & _ & _ & Htabs & _) _].
  - intros n Hn. each_in Hn; not_in.
  - intros n Hn. each_in Hn; not_in.
  - intros n Hn. each_in Hn; in_heap.
  - intros s w1. rewrite switchSettingsSubTab_unfold. eexists. split; [reflexivity|].
    intros n Hn.
    destruct (toggle_two_rounds (subtab_selected s) (id_selected ("settings-" +:+ s))
                (settingsNavBtns ex_elements) (settingsSubContents ex_elements) (nodes w1))
      as (_ & _ & Hframe); [done|done|intros k Hk; each_in Hk; not_in|].
    apply Hframe; each_in Hn; not_in.
  - by exists w'.
Defined.

Lemma copyCode_click_falls_back_witness :
  ∃ line,
    copyCode_click ex_innerText ex_atob ex_decodeURIComponent 12 99
      (λ text button, console_print text) ex_world
    = console_print "let x = 1;" (with_console (λ l, l ++ [line]) ex_world).
Proof.
  destruct (copyCode_click_falls_back ex_innerText ex_atob ex_decodeURIComponent 12 99
              (λ text button, console_print text) ex_world) as [line Hline].
  - right. exists "%%%". split; vm_compute; reflexivity.
  - exists line. exact Hline.
Defined.

Lemma null_guards_leave_world_unchanged_witness :
  showConnectionStatus "Connected" "success" ex_no_elements ex_world = Ok tt ex_world
  ∧ resizeTextarea ex_computedStyle ex_scrollHeight ex_parseFloat ex_numToString
      ex_no_elements ex_world = Ok tt ex_world
  ∧ toggleApiKeyVisibility ex_other_type_property ex_no_elements ex_world = Ok tt ex_world
  ∧ showChatStatusMessage "Extracted" "success" ex_no_elements ex_world = Ok tt ex_world
  ∧ (∃ w', addThinkingAnimation None ex_no_elements true ex_world = Throw TypeError w'
           ∧ outside_heap w' = outside_heap ex_world)
  ∧ (∃ w', restoreSendButtonAndInput ex_parseHTML ex_replace ex_no_elements ∅
             ex_send ex_abort ex_world = Throw TypeError w'
           ∧ isStreaming (chat_state w') = false).
Proof.
  destruct (null_guards_leave_world_unchanged ex_render ex_parseHTML ex_escapeHtml
              ex_generateUniqueId ex_renderDynamicContent ex_replace ex_member_text
              ex_other_type_property ex_computedStyle ex_scrollHeight
              ex_parseFloat ex_numToString ex_no_elements ex_world)
    as (H1 & _ & _ & H4 & _ & H6 & H7 & H8 & _ & H10).
  split; [apply H1; reflexivity|]. split; [apply H4; reflexivity|].
  split; [apply H6; left; reflexivity|]. split; [apply H7; reflexivity|].
  split; [apply H8; reflexivity|].
  eexists. split; [apply H10; reflexivity|reflexivity].
Defined.


Lemma status_fades_after_success_witness :
  ∃ w1,
    showConnectionStatus "Saved" "success" ex_elements ex_world = Ok tt w1
    ∧ get_style w1 8 "display" = Some "block"
    ∧ timers w1 = timers ex_world ++ [(3000, THideConnectionStatus ex_elements "Saved")].
Proof.
  destruct (status_fades_after_success ex_parseHTML ex_computedStyle ex_scrollHeight
              ex_parseFloat ex_numToString ex_elements "Saved" "success" ex_world)
    as [Hconn _].
  destruct (Hconn 8) as (w1 & Hrun & Hdisp & Htim & _); [reflexivity|in_heap|].
  exists w1. split; [exact Hrun|]. split; [exact Hdisp|exact Htim].
Defined.






Lemma resizeTextarea_clamps_witness :
  ∃ w',
    resizeTextarea ex_computedStyle ex_scrollHeight ex_parseFloat ex_numToString
      ex_elements ex_world = Ok tt w'
    ∧ get_style w' 10 "height" = Some "160px"
    ∧ get_style w' 10 "overflowY" = Some "scroll".
Proof.
  destruct (resizeTextarea_clamps ex_computedStyle ex_scrollHeight ex_parseFloat
              ex_numToString ex_elements 10 ex_world) as (w' & Hrun & Hh & Ho & _);
    [reflexivity|in_heap|].
  exists w'. split; [exact Hrun|]. split; [exact Hh|exact Ho].
Defined.

Lemma buttons_are_added_once_witness :
  ∃ w1 found,
    addCopyButtonToCodeBlock ex_replace 12 ∅ 7 ex_world = Ok tt w1
    ∧ querySelector 12 [by_class ["code-copy-button"]] w1 = Ok (Some found) w1
    ∧ addCopyButtonToCodeBlock ex_replace 12 ∅ 7 w1 = Ok tt w1
    ∧ children_of w1 12 = [CNode 13; CNode 15].
Proof.
  destruct (buttons_are_added_once ex_parseHTML ex_replace ex_world)
    as (_ & Htwice & _ & _ & _ & Hone & _).
  destruct (Htwice 12 ∅ 7 ∅ 7) as (w1 & found & H1 & H2 & H3); [in_heap|].
  destruct (Hone 12 ∅ 7 [CNode 13]) as (w1' & H1' & _ & Hch).
  { split; [eexists; split; [vm_compute; reflexivity|reflexivity]|].
    intros k Hk. apply list_elem_of_singleton in Hk.
    assert (k = 13) as -> by congruence. in_heap. }
  { vm_compute. reflexivity. }
  assert (w1' = w1) as -> by congruence.
  exists w1, found. split; [exact H1|]. split; [exact H2|]. split; [exact H3|exact Hch].
Defined.


(** ** Further instances *)

(** The page with the footer elements and the API key field looked up: the
    indicator is element 8, the context status 9, the key field 10 and its
    toggle 11. *)
Definition ex_footer_elements : Elements :=
  mkElements [2; 3] [4; 5] [6] [7] (Some 1) (Some 8) (Some 8) (Some 9) (Some 10) (Some 11)
             (Some 11) (Some 10) (Some 9).


Lemma translate_falls_back_to_key_witness :
  translate_value ex_replace "constructor" [] ∅ = Some (TrMember "constructor")
  ∧ translate_value ex_replace "constructor" [("count", "3")] ∅ = None
  ∧ translate_value ex_replace "pageTitle" [] ∅ = Some (TrString "pageTitle").
Proof.
  destruct (translate_falls_back_to_key ex_replace "constructor" ∅) as (_ & _ & _ & H & _).
  destruct (translate_falls_back_to_key ex_replace "pageTitle" ∅) as (_ & _ & H' & _).
  destruct H as [H1 H2]; [reflexivity|by left|].
  destruct H' as [H1' _]; [reflexivity|not_in|].
  split; [exact H1|]. split; [apply H2|exact H1'].
Defined.

Lemma updateConnectionIndicator_shows_state_witness :
  ∃ w',
    updateConnectionIndicator ex_replace true ex_footer_elements ∅ ex_world = Ok tt w'
    ∧ textContent w' 8 = "connectionIndicatorConnected"
    ∧ (classes <$> nodes w' !! 8) = Some ["connected"].
Proof.
  destruct (updateConnectionIndicator_shows_state ex_replace true ex_footer_elements ∅ 8
              (ex_node "div" [("id", "connection-status")] [] (Some 1) []) ex_world)
    as (w' & e' & Hrun & _ & Hn & Hcl & _ & Htxt & _);
    [reflexivity|vm_compute; reflexivity|].
  exists w'. split; [exact Hrun|]. split; [exact Htxt|].
  rewrite Hn. simpl. rewrite Hcl. reflexivity.
Defined.


Lemma setupAutoresizeTextarea_registers_again_witness :
  ∃ w1 w2,
    setupAutoresizeTextarea ex_elements ex_world = Ok tt w1
    ∧ setupAutoresizeTextarea ex_elements w1 = Ok tt w2
    ∧ timers w2 = [(0, TResizeTextarea ex_elements); (0, TResizeTextarea ex_elements)].
Proof.
  destruct (setupAutoresizeTextarea_registers_again ex_elements 10
              (ex_node "textarea" [("id", "user-input")] [] (Some 1) []) ex_world)
    as (w1 & w2 & H1 & _ & _ & _ & H2 & _ & Ht);
    [reflexivity|vm_compute; reflexivity|].
  exists w1, w2. split; [exact H1|]. split; [exact H2|exact Ht].
Defined.

Lemma copyCode_click_decodes_witness :
  let w := alter_node (with_attrs (insert "data-code" "b2s=")) 12 ex_world in
  copyCode_click ex_innerText ex_atob ex_decodeURIComponent 12 99
    (λ text button, console_print text) w
  = console_print "ok" w.
Proof.
  intros w.
  destruct (copyCode_click_decodes ex_innerText ex_atob ex_decodeURIComponent 12 99
              (λ text button, console_print text) w) as (H & _).
  apply (H "b2s=" "ok"); [vm_compute; reflexivity|discriminate|vm_compute; reflexivity].
Defined.

(** The page with the key field 15, written [type="Password"], its toggle
    16 and the two icons 17 and 18 in the body. *)
Definition ex_key_world : World :=
  with_nodes (λ m,
    <[1 := ex_node "body" [] [] (Some 0)
             (map CNode [2; 3; 4; 5; 6; 7; 8; 9; 10; 11; 12; 14; 15; 16; 17; 18])]>
      (<[15 := ex_node "input" [("id", "api-key"); ("type", "Password")] [] (Some 1) []]>
         (<[16 := ex_node "button" [("id", "toggle-api-key")] [] (Some 1) []]>
            (<[17 := ex_node "svg" [("id", "eye-icon")] [] (Some 1) []]>
               (<[18 := ex_node "svg" [("id", "eye-slash-icon")] [] (Some 1) []]> m)))))
    ex_world.

Definition ex_key_elements : Elements :=
  mkElements [2; 3] [4; 5] [6] [7] (Some 1) (Some 8) (Some 8) (Some 9) (Some 10) (Some 11)
             (Some 16) (Some 15) (Some 9).

Lemma toggleApiKeyVisibility_flips_witness :
  (∃ w',
     toggleApiKeyVisibility ex_other_type_property ex_key_elements ex_key_world = Ok tt w'
     ∧ get_attr w' 15 "type" = Some "text"
     ∧ get_style w' 17 "display" = Some "none"
     ∧ get_style w' 18 "display" = Some "inline-block")
  ∧ toggleApiKeyVisibility ex_other_type_property ex_footer_elements ex_world
    = Throw TypeError ex_world.
Proof.
  split.
  - destruct (toggleApiKeyVisibility_flips ex_other_type_property ex_key_elements 16 15
                (ex_node "input" [("id", "api-key"); ("type", "Password")] [] (Some 1) [])
                ex_key_world) as (H & _);
      [reflexivity|reflexivity|vm_compute; reflexivity|].
    destruct H as (w' & Hrun & Hty & _ & Hicons & _); [reflexivity|].
    destruct (Hicons 17 18) as (_ & H17 & H18 & _);
      [vm_compute; reflexivity|vm_compute; reflexivity|].
    exists w'. split; [exact Hrun|]. split; [exact Hty|]. split; [exact H17|exact H18].
  - destruct (toggleApiKeyVisibility_flips ex_other_type_property ex_footer_elements 11 10
                (ex_node "textarea" [("id", "user-input")] [] (Some 1) []) ex_world)
      as (_ & H); [reflexivity|reflexivity|vm_compute; reflexivity|].
    apply H. by left.
Defined.

(** The page with a head 15 that holds no title, and in the body an icon
    16, an [svg] with a [title] 17 of its own. *)
Definition ex_head_world : World :=
  with_nodes (λ m, <[0 := ex_node "html" [] [] None [CNode 15; CNode 1]]>
                     (<[15 := ex_node "head" [] [] (Some 0) []]>
                        (<[16 := ex_node "svg" [] [] (Some 1) [CNode 17]]>
                           (<[17 := ex_node "title" [] [] (Some 16) [CText "icon"]]>
                              (alter (with_children (λ l, l ++ [CNode 16])) 1 m)))))
    ex_world.

(** The same page with a title 18 in the head. *)
Definition ex_title_world : World :=
  with_nodes (λ m, <[15 := ex_node "head" [] [] (Some 0) [CNode 18]]>
                     (<[18 := ex_node "title" [] [] (Some 15) [CText "old"]]> m))
    ex_head_world.

Lemma updateUIElementsWithTranslations_relabels_witness :
  (∃ w1 w',
     updateUIElementsWithTranslations ex_replace ex_namespace_of
       (Some {["pageTitle" := "Page"]}) ex_head_world = Ok tt w'
     ∧ get_attr w' 0 "lang" = Some "htmlLang"
     ∧ nodes w1 !! 18 = Some (mkNode "title" ∅ [] ∅ false (Some 15) [CText "Page"] [])
     ∧ children_of w1 15 = [CNode 18]
     ∧ (∀ k, match nodes w1 !! k with
             | Some e => ∃ e', nodes w' !! k = Some e' ∧ relabelled e e'
             | None => nodes w' !! k = None
             end))
  ∧ (∃ w1 w',
       updateUIElementsWithTranslations ex_replace ex_namespace_of
         (Some {["pageTitle" := "Page"]}) ex_title_world = Ok tt w'
       ∧ textContent w1 18 = "Page" ∧ nodes w1 !! 19 = None
       ∧ (∀ k, match nodes w1 !! k with
               | Some e => ∃ e', nodes w' !! k = Some e' ∧ relabelled e e'
               | None => nodes w' !! k = None
               end)).
Proof.
  split.
  - destruct (updateUIElementsWithTranslations_relabels ex_replace ex_namespace_of
                (Some {["pageTitle" := "Page"]}) ex_head_world) as (_ & H).
    destruct (H {["pageTitle" := "Page"]} eq_refl) as (_ & H').
    { apply map_non_empty_singleton. }
    destruct (H' (ex_node "html" [] [] None [CNode 15; CNode 1]))
      as (w1 & w' & _ & Hrun & _ & Hlang & Hrel & _ & _ & _ & _ & Hnew);
      [vm_compute; reflexivity|].
    destruct Hnew with (h := 15) (eh := ex_node "head" [] [] (Some 0) [])
      as [Ht Hh]; [vm_compute; reflexivity..|].
    exists w1, w'. split; [exact Hrun|]. split; [exact Hlang|].
    split; [exact Ht|]. split; [|exact Hrel].
    unfold children_of. rewrite Hh. reflexivity.
  - destruct (updateUIElementsWithTranslations_relabels ex_replace ex_namespace_of
                (Some {["pageTitle" := "Page"]}) ex_title_world) as (_ & H).
    destruct (H {["pageTitle" := "Page"]} eq_refl) as (_ & H').
    { apply map_non_empty_singleton. }
    destruct (H' (ex_node "html" [] [] None [CNode 15; CNode 1]))
      as (w1 & w' & _ & Hrun & _ & _ & Hrel & _ & _ & _ & Hfound & _);
      [vm_compute; reflexivity|].
    destruct (Hfound eq_refl 18) as [Ht Hn]; [vm_compute; reflexivity|].
    exists w1, w'. split; [exact Hrun|]. split; [exact Ht|]. split; [exact Hn|exact Hrel].
Defined.

Lemma showToast_shows_then_hides_witness :
  ∃ w' w'',
    showToast "Saved" "success" ex_world = Ok tt w'
    ∧ has_class w' (fresh_id (nodes ex_world)) "show" = true
    ∧ timers w' = [(2000, THideToast (fresh_id (nodes ex_world)))]
    ∧ fire_timer ex_parseHTML ex_computedStyle ex_scrollHeight ex_parseFloat ex_numToString
        (THideToast (fresh_id (nodes ex_world))) w' = Ok tt w''
    ∧ has_class w'' (fresh_id (nodes ex_world)) "show" = false.
Proof.
  destruct (showToast_shows_then_hides ex_parseHTML ex_computedStyle ex_scrollHeight
              ex_parseFloat ex_numToString "Saved" "success" ex_world) as (_ & H).
  destruct H as (w' & Hrun & (_ & Hs & _ & _ & Ht & _ & w'' & Hf & Hs' & _) & _);
    [vm_compute; reflexivity|in_heap|].
  exists w', w''.
  split; [exact Hrun|split; [exact Hs|split; [exact Ht|split; [exact Hf|exact Hs']]]].
Defined.

Lemma switching_twice_is_switching_once_witness :
  ∃ w',
    switchTab "chat" ex_elements (λ s, switchSettingsSubTab s ex_elements) ex_world
    = Ok tt w'
    ∧ switchTab "chat" ex_elements (λ s, switchSettingsSubTab s ex_elements) w' = Ok tt w'.
Proof.
  destruct (switching_twice_is_switching_once "chat" "general" ex_elements
              (λ s, switchSettingsSubTab s ex_elements) ex_world) as (_ & H).
  destruct H as (w' & H1 & H2 & _); [discriminate|].
  exists w'. split; [exact H1|exact H2].
Defined.

Lemma addMessageToChat_streaming_inserts_empty_witness :
  ∃ w',
    addMessageToChat ex_render ex_parseHTML ex_escapeHtml ex_generateUniqueId
      ex_renderDynamicContent ex_replace (Some "hello") "bot"
      (mkOptions true [] (Some 4) false) ex_elements ∅
      (λ _, throw TypeError) (λ _ _, throw TypeError) true ex_world
    = Ok (fresh_id (nodes ex_world)) w'
    ∧ get_attr w' (fresh_id (nodes ex_world)) "data-message-id" = Some "msg-0"
    ∧ children_of w' 1
      = map CNode [2; 3; 4; fresh_id (nodes ex_world); 5; 6; 7; 8; 9; 10; 11; 12; 14].
Proof.
  destruct (addMessageToChat_streaming_inserts_empty ex_render ex_parseHTML ex_escapeHtml
              ex_generateUniqueId ex_renderDynamicContent ex_replace (Some "hello") "bot"
              (mkOptions true [] (Some 4) false) ex_elements ∅
              (λ _, throw TypeError) (λ _ _, throw TypeError) true 1
              (ex_node "body" [] [] (Some 0)
                 (map CNode [2; 3; 4; 5; 6; 7; 8; 9; 10; 11; 12; 14])) ex_world)
    as (w' & Hrun & _ & Hn & _ & _ & _ & _ & _ & Hafter);
    [by right|reflexivity|reflexivity|vm_compute; reflexivity|].
  exists w'. split; [exact Hrun|]. split.
  - unfold get_attr. rewrite Hn. vm_compute. reflexivity.
  - apply (Hafter 4 (map CNode [2; 3]) (map CNode [5; 6; 7; 8; 9; 10; 11; 12; 14]));
      [reflexivity|vm_compute; reflexivity|reflexivity|].
    simpl. not_in.
Defined.

Lemma addThinkingAnimation_builds_three_dots_witness :
  ∃ w' dots,
    addThinkingAnimation None ex_elements true ex_world = Ok (fresh_id (nodes ex_world)) w'
    ∧ (children <$> nodes w' !! fresh_id (nodes ex_world)) = Some [CNode dots]
    ∧ (length <$> (children <$> nodes w' !! dots)) = Some 3
    ∧ children_of w' 1
      = map CNode [2; 3; 4; 5; 6; 7; 8; 9; 10; 11; 12; 14; fresh_id (nodes ex_world)].
Proof.
  destruct (addThinkingAnimation_builds_three_dots None ex_elements true 1
              (ex_node "body" [] [] (Some 0)
                 (map CNode [2; 3; 4; 5; 6; 7; 8; 9; 10; 11; 12; 14])) ex_world)
    as (w' & dots & d1 & d2 & d3 & Hrun & _ & _ & Ht & Hd & _ & _ & _ & _ & Hend & _);
    [reflexivity|vm_compute; reflexivity|].
  exists w', dots. split; [exact Hrun|]. split; [by rewrite Ht|].
  split; [by rewrite Hd|]. exact (Hend eq_refl).
Defined.


Lemma scrolling_follows_the_reader_witness :
  ∃ w1,
    finalizeBotMessage ex_render ex_parseHTML ex_renderDynamicContent 14 "done"
      (λ _, ret tt) (λ _ _, ret tt) (ret tt) true ex_elements ex_world = Ok tt w1
    ∧ scrolled w1 = [14].
Proof.
  destruct (scrolling_follows_the_reader ex_render ex_parseHTML ex_escapeHtml
              ex_generateUniqueId ex_renderDynamicContent ex_replace 14 "done" true
              ex_elements ex_world) as (_ & H).
  destruct (H (λ _, ret tt) (λ _ _, ret tt)) as (Hfin & _);
    [intros ? ?; eexists _, _; split; reflexivity..|].
  destruct (Hfin (ret tt)) as (w1 & Hrun & Hout).
  exists w1. split; [exact Hrun|]. exact (f_equal scrolled Hout).
Defined.

Lemma finalizeBotMessage_restores_last_witness :
  ∃ w1,
    finalizeBotMessage ex_render ex_parseHTML (λ _ _, throw TypeError) 14 "done"
      (λ _, ret tt) (λ _ _, ret tt)
      (restoreSendButtonAndInput ex_parseHTML ex_replace ex_elements ∅ ex_send ex_abort)
      true ex_elements ex_world = Throw TypeError w1
    ∧ isStreaming (chat_state w1) = true.
Proof.
  destruct (finalizeBotMessage_restores_last ex_render ex_parseHTML (λ _ _, throw TypeError)
              ex_replace 14 "done" (λ _, ret tt) (λ _ _, ret tt) true ex_elements ∅
              ex_send ex_abort ex_world) as (_ & _ & H).
  destruct (H TypeError) as (w1 & Hrun & Hst & _);
    [intros ? ?; eexists _, _; split; reflexivity..
    |intros ?; eexists; split; reflexivity|].
  exists w1. split; [exact Hrun|]. rewrite Hst. reflexivity.
Defined.


